(** * DeckForge: the note-to-flashcard pipeline, embedded and verified

    A shallow embedding of the algorithmic core of the plugin
    (content-processor.ts, spaced-repetition-formatter.ts, types.ts,
    flashcard-generator.ts, input-validator.ts,
    providers/anthropic-provider.ts, providers/base-provider.ts,
    prompt-template-system.ts) together with theorems about it.

    Conventions.
    - A JavaScript string is a [list ascii]: a sequence of code units in
      the range 0..255.  String literals are written as usual and are read
      as such lists through a coercion.
    - A JavaScript number that the code only uses as an integer is a [Z].
    - [undefined] fields are [option]s; thrown exceptions are the [Throw]
      constructor of [result]. *)

From Stdlib Require Import Ascii String List ZArith Lia Bool DecimalString.
From stdpp Require Import gmap strings list.

Coercion list_ascii_of_string : string >-> list.

#[local] Open Scope string_scope.
#[local] Open Scope stdpp_scope.
#[local] Open Scope list_scope.

Abbreviation str := (list ascii).

(** ** JavaScript string primitives *)

Module Js.

Definition TAB : ascii := "009".
Definition LF : ascii := "010".
Definition VT : ascii := "011".
Definition FF : ascii := "012".
Definition CR : ascii := "013".
Definition SP : ascii := " ".
Definition NBSP : ascii := "160".
Definition DQUOTE : ascii := "034".

(** The class [\s] of regular expressions, which is also the set of
    characters removed by [String.prototype.trim]. *)
Definition isWhiteSpace (c : ascii) : bool :=
  Ascii.eqb c TAB || Ascii.eqb c LF || Ascii.eqb c VT || Ascii.eqb c FF
  || Ascii.eqb c CR || Ascii.eqb c SP || Ascii.eqb c NBSP.

Fixpoint trimStart (s : str) : str :=
  match s with
  | c :: r => if isWhiteSpace c then trimStart r else s
  | [] => []
  end.

Definition trimEnd (s : str) : str := rev (trimStart (rev s)).

Definition trim (s : str) : str := trimEnd (trimStart s).

Fixpoint startsWith (s d : str) {struct d} : bool :=
  match d, s with
  | [], _ => true
  | x :: d', y :: s' => Ascii.eqb x y && startsWith s' d'
  | _ :: _, [] => false
  end.

Definition endsWith (s d : str) : bool := startsWith (rev s) (rev d).

Fixpoint includes (s d : str) : bool :=
  startsWith s d
  || match s with
     | [] => false
     | _ :: r => includes r d
     end.

(** [Array.prototype.join]. *)
Fixpoint join (sep : str) (l : list str) : str :=
  match l with
  | [] => []
  | [x] => x
  | x :: r => x ++ sep ++ join sep r
  end.

(** [s.split(c)] for a one-character separator. *)
Fixpoint splitChar (sep : ascii) (s : str) : list str :=
  match s with
  | [] => [[]]
  | c :: r =>
      if Ascii.eqb c sep then [] :: splitChar sep r
      else match splitChar sep r with
           | h :: t => (c :: h) :: t
           | [] => [[c]]
           end
  end.

(** [s.split(/\s+/)]: the pieces between maximal runs of white space; the
    flag tells whether the previous character was white space. *)
Fixpoint splitWs_from (inws : bool) (s : str) : list str :=
  match s with
  | [] => [[]]
  | c :: r =>
      if isWhiteSpace c then
        if inws then splitWs_from true r else [] :: splitWs_from true r
      else match splitWs_from false r with
           | h :: t => (c :: h) :: t
           | [] => [[c]]
           end
  end.

Definition splitWs (s : str) : list str := splitWs_from false s.

(** [String.prototype.toLowerCase] on the code units 0..255. *)
Definition lowerChar (c : ascii) : ascii :=
  let n := nat_of_ascii c in
  if ((65 <=? n) && (n <=? 90))%nat then ascii_of_nat (n + 32)
  else if ((192 <=? n) && (n <=? 222) && negb (n =? 215))%nat then ascii_of_nat (n + 32)
  else c.

Definition toLowerCase (s : str) : str := map lowerChar s.

(** [Number.prototype.toString] on integers below [1e21] in absolute
    value, which are written with all their digits (from [1e21] on
    JavaScript writes an exponent). *)
Definition natToString (n : nat) : str :=
  NilEmpty.string_of_uint (Nat.to_uint n).

Definition numToString (z : Z) : str :=
  NilEmpty.string_of_int (Z.to_int z).

(** Truthiness of a string value. *)
Definition truthy (s : str) : bool :=
  match s with
  | [] => false
  | _ :: _ => true
  end.

(** Expansion of the special patterns of a replacement string, as
    [String.prototype.replace] does for a pattern without capture groups:
    [$$] is a dollar sign, [$&] the matched text, [$`] the text before the
    match and [$'] the text after it; any other [$] stands for itself. *)
Fixpoint expandReplacement (repl matched before after : str) : str :=
  match repl with
  | [] => []
  | c :: r =>
      if Ascii.eqb c "$" then
        match r with
        | c2 :: r2 =>
            if Ascii.eqb c2 "$" then "$"%char :: expandReplacement r2 matched before after
            else if Ascii.eqb c2 "&" then matched ++ expandReplacement r2 matched before after
            else if Ascii.eqb c2 "`" then before ++ expandReplacement r2 matched before after
            else if Ascii.eqb c2 "'" then after ++ expandReplacement r2 matched before after
            else c :: expandReplacement r matched before after
        | [] => [c]
        end
      else c :: expandReplacement r matched before after
  end.

(** [s.replace(/pat/g, repl)] for a pattern that is a literal, non-empty
    text.  [skip] counts the characters of the current match still to be
    consumed, [before] is the text already scanned. *)
Fixpoint replaceAll_from (pat repl : str) (skip : nat) (before s : str) : str :=
  match s with
  | [] => []
  | c :: r =>
      match skip with
      | S k => replaceAll_from pat repl k (before ++ [c]) r
      | O =>
          if startsWith s pat then
            expandReplacement repl pat before (drop (length pat) s)
            ++ replaceAll_from pat repl (length pat - 1) (before ++ [c]) r
          else c :: replaceAll_from pat repl 0 (before ++ [c]) r
      end
  end.

Definition replaceAll (pat repl s : str) : str := replaceAll_from pat repl 0 [] s.

End Js.

(** Exceptions: a computation returns a value or throws a message. *)
Inductive result (A : Type) : Type :=
| Ok (a : A)
| Throw (msg : str).
Arguments Ok {A} a.
Arguments Throw {A} msg.

(** ** types.ts *)

Inductive CardType : Type :=
| OneWay
| Bidirectional
| MultiLine
| MultiLineBidirectional
| Cloze.

(** The string value of each member of the enum. *)
Definition CardType_value (t : CardType) : str :=
  match t with
  | OneWay => "oneway"
  | Bidirectional => "bidirectional"
  | MultiLine => "multiline"
  | MultiLineBidirectional => "multiline-bidirectional"
  | Cloze => "cloze"
  end.

(** [Object.values(CardType)]. *)
Definition CardType_values : list CardType :=
  [OneWay; Bidirectional; MultiLine; MultiLineBidirectional; Cloze].

Definition str_eqb (a b : str) : bool := bool_decide (a = b).

(** The member of the enum a run-time string denotes, if any. *)
Definition CardType_of_value (s : str) : option CardType :=
  find (fun t => str_eqb (CardType_value t) s) CardType_values.

(** [Object.values(CardType).includes(s)]. *)
Definition isCardType (s : str) : bool :=
  existsb (fun t => str_eqb (CardType_value t) s) CardType_values.

(** A card as the model returns it; [card_type] is the claimed type, a
    string that is checked against the enum only by the validator. *)
Record RawFlashcard : Type := {
  card_front : str;
  card_back : str;
  card_type : str;
  card_tags : option (list str)
}.

Record FormattedFlashcard : Type := {
  fmt_content : str;
  fmt_tags : list str
}.

Record GenerationOptions : Type := {
  opt_maxCards : option Z;
  opt_cardTypes : list str;
  opt_customPrompt : option str;
  opt_tags : option (list str)
}.

Record ResponseMetadata : Type := {
  meta_tokensUsed : option Z;
  meta_model : option str
}.

Record FlashcardResponse : Type := {
  resp_cards : list RawFlashcard;
  resp_metadata : option ResponseMetadata
}.

(** The regular expression [/==[^=]+==/].  [span_close] matches [[^=]*==]
    at the start of its argument, [span_at] the whole expression at the
    start of its argument, [match_cloze_span] anywhere. *)
Fixpoint span_close (s : str) : bool :=
  match s with
  | [] => false
  | c :: r =>
      if Ascii.eqb c "=" then
        match r with
        | c2 :: _ => Ascii.eqb c2 "="
        | [] => false
        end
      else span_close r
  end.

Definition span_at (s : str) : bool :=
  match s with
  | a :: b :: c :: r =>
      Ascii.eqb a "=" && Ascii.eqb b "=" && negb (Ascii.eqb c "=") && span_close r
  | _ => false
  end.

Fixpoint match_cloze_span (s : str) : bool :=
  span_at s
  || match s with
     | [] => false
     | _ :: r => match_cloze_span r
     end.

Record ValidationResult : Type := {
  vr_isValid : bool;
  vr_errors : list str
}.

(** The two checks made on one tag. *)
Definition tagErrors (tag : str) : list str :=
  (if negb (Js.startsWith tag "#")
   then ["Tag " ++ [Js.DQUOTE] ++ tag ++ [Js.DQUOTE] ++ " must start with #"]
   else [])
  ++ (if Js.includes tag " "
      then ["Tag " ++ [Js.DQUOTE] ++ tag ++ [Js.DQUOTE] ++ " cannot contain spaces"]
      else []).

(** [FlashcardValidator.validateRawFlashcard]. *)
Definition validateRawFlashcard (card : RawFlashcard) : ValidationResult :=
  let errs : list str :=
    (if negb (Js.truthy (card_front card)) || (length (Js.trim (card_front card)) =? 0)%nat
     then ["Front content is required and cannot be empty" : str]
     else [])
    ++ (if negb (Js.truthy (card_back card)) || (length (Js.trim (card_back card)) =? 0)%nat
        then ["Back content is required and cannot be empty" : str]
        else [])
    ++ (if negb (isCardType (card_type card))
        then ["Invalid card type: " ++ card_type card]
        else [])
    ++ (if str_eqb (card_type card) (CardType_value Cloze)
        then
          if negb (Js.includes (card_front card) "==") || negb (match_cloze_span (card_front card))
          then ["Cloze cards must contain text wrapped in == markers" : str]
          else []
        else [])
    ++ (match card_tags card with
        | Some tags => flat_map tagErrors tags
        | None => []
        end) in
  {| vr_isValid := (length errs =? 0)%nat; vr_errors := errs |}.

(** [FlashcardValidator.validateFormattedFlashcard]. *)
Definition validateFormattedFlashcard (card : FormattedFlashcard) : ValidationResult :=
  let hasValidSyntax :=
    Js.includes (fmt_content card) "::"
    || Js.includes (fmt_content card) ":::"
    || Js.includes (fmt_content card) "?"
    || Js.includes (fmt_content card) "==" in
  let errs : list str :=
    (if negb (Js.truthy (fmt_content card)) || (length (Js.trim (fmt_content card)) =? 0)%nat
     then ["Formatted content cannot be empty" : str]
     else [])
    ++ flat_map tagErrors (fmt_tags card)
    ++ (if negb hasValidSyntax
        then ["Formatted content must contain valid spaced repetition syntax (::, :::, ?, or ==)" : str]
        else []) in
  {| vr_isValid := (length errs =? 0)%nat; vr_errors := errs |}.

(** The callback of [cards.forEach] in [validateFlashcardArray], applied
    from index [index] on to the array of errors. *)
Fixpoint arrayErrors (index : nat) (cards : list RawFlashcard) (errors : list str) : list str :=
  match cards with
  | [] => errors
  | card :: rest =>
      let validation := validateRawFlashcard card in
      arrayErrors (S index) rest
        (if negb (vr_isValid validation)
         then errors ++ ["Card " ++ Js.natToString (index + 1) ++ ": "
                         ++ Js.join ", " (vr_errors validation)]
         else errors)
  end.

(** [FlashcardValidator.validateFlashcardArray], on an argument that is an
    array. *)
Definition validateFlashcardArray (cards : list RawFlashcard) : ValidationResult :=
  if (length cards =? 0)%nat then
    {| vr_isValid := false; vr_errors := ["At least one flashcard is required" : str] |}
  else
    let errors := arrayErrors 0 cards [] in
    {| vr_isValid := (length errors =? 0)%nat; vr_errors := errors |}.

(** ** spaced-repetition-formatter.ts *)

(** [s.replace(/\s+/g, ' ')]; the flag tells whether the previous character
    belonged to the run of white space being replaced. *)
Fixpoint replace_ws_runs_from (inws : bool) (s : str) : str :=
  match s with
  | [] => []
  | c :: r =>
      if Js.isWhiteSpace c then
        if inws then replace_ws_runs_from true r
        else Js.SP :: replace_ws_runs_from true r
      else c :: replace_ws_runs_from false r
  end.

Definition replace_ws_runs (s : str) : str := replace_ws_runs_from false s.

(** The part [\s*\n] of [/\n\s*\n/] matched at the start of [s]: the
    number of characters up to the last line feed of the leading run of
    white space, if that run holds a line feed. *)
Fixpoint blank_line_match (s : str) : option nat :=
  match s with
  | c :: r =>
      if Js.isWhiteSpace c then
        match blank_line_match r with
        | Some n => Some (S n)
        | None => if Ascii.eqb c Js.LF then Some 1%nat else None
        end
      else None
  | [] => None
  end.

(** [s.replace(/\n\s*\n/g, '\n')]; [skip] counts the characters of the
    current match still to be consumed. *)
Fixpoint replace_blank_lines_from (skip : nat) (s : str) : str :=
  match s with
  | [] => []
  | c :: r =>
      match skip with
      | S k => replace_blank_lines_from k r
      | O =>
          if Ascii.eqb c Js.LF then
            match blank_line_match r with
            | Some n => Js.LF :: replace_blank_lines_from n r
            | None => c :: replace_blank_lines_from 0 r
            end
          else c :: replace_blank_lines_from 0 r
      end
  end.

Definition replace_blank_lines (s : str) : str := replace_blank_lines_from 0 s.

Definition cleanText (text : str) : str :=
  replace_blank_lines (replace_ws_runs (Js.trim text)).

Definition formatOneWayCard (card : RawFlashcard) : str :=
  let front := cleanText (card_front card) in
  let back := cleanText (card_back card) in
  front ++ "::" ++ back.

Definition formatBidirectionalCard (card : RawFlashcard) : str :=
  let front := cleanText (card_front card) in
  let back := cleanText (card_back card) in
  front ++ ":::" ++ back.

Definition formatMultiLineCard (card : RawFlashcard) : str :=
  let front := cleanText (card_front card) in
  let back := cleanText (card_back card) in
  front ++ "?" ++ [Js.LF] ++ back.

Definition formatMultiLineBidirectionalCard (card : RawFlashcard) : str :=
  let front := cleanText (card_front card) in
  let back := cleanText (card_back card) in
  front ++ "???" ++ [Js.LF] ++ back.

Definition formatClozeCard (card : RawFlashcard) : str :=
  cleanText (card_front card).

Definition formatCard (card : RawFlashcard) : result FormattedFlashcard :=
  match CardType_of_value (card_type card) with
  | Some t =>
      let content :=
        match t with
        | OneWay => formatOneWayCard card
        | Bidirectional => formatBidirectionalCard card
        | MultiLine => formatMultiLineCard card
        | MultiLineBidirectional => formatMultiLineBidirectionalCard card
        | Cloze => formatClozeCard card
        end in
      Ok {| fmt_content := content; fmt_tags := default [] (card_tags card) |}
  | None => Throw ("Unsupported card type: " ++ card_type card)
  end.

(** [cards.map(card => formatCard(card).content)], stopping at the first
    exception. *)
Fixpoint formatEach (cards : list RawFlashcard) : result (list str) :=
  match cards with
  | [] => Ok []
  | card :: rest =>
      match formatCard card with
      | Throw msg => Throw msg
      | Ok formatted =>
          match formatEach rest with
          | Throw msg => Throw msg
          | Ok contents => Ok (fmt_content formatted :: contents)
          end
      end
  end.

Definition formatCards (cards : list RawFlashcard) (tags : list str) : result str :=
  match cards with
  | [] => Ok []
  | _ :: _ =>
      match formatEach cards with
      | Throw msg => Throw msg
      | Ok formattedCards => Ok (Js.join [Js.LF; Js.LF] formattedCards)
      end
  end.

(** [canFormat]: whether [formatCard] returns rather than throws. *)
Definition canFormat (card : RawFlashcard) : bool :=
  match formatCard card with
  | Ok _ => true
  | Throw _ => false
  end.

Definition getSeparator (cardType : CardType) : str :=
  match cardType with
  | OneWay => "::"
  | Bidirectional => ":::"
  | MultiLine => "?"
  | MultiLineBidirectional => "???"
  | Cloze => "=="
  end.

Definition detectCardType (content : str) : option CardType :=
  if Js.includes content "???" then Some MultiLineBidirectional
  else if Js.includes content ":::" then Some Bidirectional
  else if Js.includes content "::" then Some OneWay
  else if Js.includes content "?" then Some MultiLine
  else if Js.includes content "==" && match_cloze_span content then Some Cloze
  else None.

(** ** content-processor.ts *)

(** [Array.prototype.slice] with both bounds given; a negative bound
    counts from the end. *)
Definition slice {A : Type} (l : list A) (start stop : Z) : list A :=
  let len := Z.of_nat (length l) in
  let k := if (start <? 0)%Z then Z.max (len + start) 0 else Z.min start len in
  let e := if (stop <? 0)%Z then Z.max (len + stop) 0 else Z.min stop len in
  take (Z.to_nat (e - k)) (drop (Z.to_nat k) l).

(** The variables of the loop of [chunkContent]. *)
Record ChunkState : Type := {
  startIndex : Z;
  chunks : list str
}.

Inductive LoopStep : Type :=
| Continue (st : ChunkState)
| Break (result : list str).

(** One evaluation of the loop condition followed, when it holds, by the
    loop body. *)
Definition chunkIter (words : list str) (chunkSize overlapSize : Z) (st : ChunkState) : LoopStep :=
  let len := Z.of_nat (length words) in
  if (startIndex st <? len)%Z then
    let endIndex := Z.min (startIndex st + chunkSize) len in
    let chunk := Js.join " " (slice words (startIndex st) endIndex) in
    let chunks' := chunks st ++ [chunk] in
    let startIndex' := (endIndex - overlapSize)%Z in
    if (startIndex' >=? len)%Z then Break chunks'
    else Continue {| startIndex := startIndex'; chunks := chunks' |}
  else Break (chunks st).

(** The [while] loop, run for at most [fuel] iterations; [None] when the
    loop has not been left by then. *)
Fixpoint chunkLoop (fuel : nat) (words : list str) (chunkSize overlapSize : Z)
    (st : ChunkState) : option (list str) :=
  match fuel with
  | O => None
  | S fuel' =>
      match chunkIter words chunkSize overlapSize st with
      | Break result => Some result
      | Continue st' => chunkLoop fuel' words chunkSize overlapSize st'
      end
  end.

Definition chunkContent (fuel : nat) (content : str) (chunkSize overlapSize : Z)
    : option (list str) :=
  let words := Js.splitWs content in
  if (Z.of_nat (length words) <=? chunkSize)%Z then Some [content]
  else chunkLoop fuel words chunkSize overlapSize {| startIndex := 0; chunks := [] |}.

(** [Math.ceil(n / d)] on integers, for a positive [d]. *)
Definition ceilDiv (n d : Z) : Z := (- ((- n) / d))%Z.

Definition estimateTokenCount (text : str) : Z :=
  ceilDiv (Z.of_nat (length text)) 4.

Definition countWords (content : str) : nat :=
  length (List.filter (fun word => (0 <? length word)%nat) (Js.splitWs (Js.trim content))).

Record ContentValidation : Type := {
  cv_isValid : bool;
  cv_issues : list str
}.

Definition validateContent (content : str) (longContentThreshold : Z) : ContentValidation :=
  let wordCount := countWords content in
  let issues : list str :=
    (if negb (Js.truthy content) || (length (Js.trim content) =? 0)%nat
     then ["Content is empty" : str]
     else [])
    ++ (if (wordCount <? 10)%nat
        then ["Content is too short (minimum 10 words recommended)" : str]
        else [])
    ++ (if (Z.of_nat wordCount >? longContentThreshold)%Z
        then ["Content is very long and may need chunking" : str]
        else []) in
  {| cv_isValid := (length issues =? 0)%nat; cv_issues := issues |}.

(** The characters after which [^] matches under the flag [m]. *)
Definition isLineTerminator (c : ascii) : bool :=
  Ascii.eqb c Js.LF || Ascii.eqb c Js.CR.

(** The part [[\s\S]*?---\n?] of the front matter expression, matched at
    the start of [s]: what is left of [s] after the first [---] in it and
    the line feed that may follow. *)
Fixpoint afterClosingDashes (s : str) : option str :=
  match s with
  | [] => None
  | _ :: r =>
      if Js.startsWith s "---" then
        Some (match drop 3 s with
              | x :: rest => if Ascii.eqb x Js.LF then rest else x :: rest
              | [] => []
              end)
      else afterClosingDashes r
  end.

(** [s.replace(/^---[\s\S]*?---\n?/m, '')], which removes the first match
    only; [lineStart] tells whether [^] matches at the start of [s]. *)
Fixpoint removeFrontmatter_from (lineStart : bool) (s : str) : str :=
  match s with
  | [] => []
  | c :: r =>
      if lineStart && Js.startsWith s "---" then
        match afterClosingDashes (drop 3 s) with
        | Some rest => rest
        | None => c :: removeFrontmatter_from (isLineTerminator c) r
        end
      else c :: removeFrontmatter_from (isLineTerminator c) r
  end.

Definition removeFrontmatter (s : str) : str := removeFrontmatter_from true s.

(** [s.replace(/\n{3,}/g, '\n\n')]; [run] counts the line feeds that come
    just before [s]. *)
Fixpoint collapse_line_feeds_from (run : nat) (s : str) : str :=
  match s with
  | [] => []
  | c :: r =>
      if Ascii.eqb c Js.LF then
        if (run <? 2)%nat then c :: collapse_line_feeds_from (S run) r
        else collapse_line_feeds_from (S run) r
      else c :: collapse_line_feeds_from 0 r
  end.

Definition collapse_line_feeds (s : str) : str := collapse_line_feeds_from 0 s.

Definition lightCleanMarkdown (content : str) : str :=
  Js.trim (collapse_line_feeds (removeFrontmatter content)).

(** ** flashcard-generator.ts *)

(** A value thrown or rejected with: an [LLMError] has a [type], an
    [Error] a [message]. *)
Record JsError : Type := {
  err_type : option str;
  err_message : option str
}.

(** What the generator does to the outside world: calls of the provider's
    [generateFlashcards], notices shown to the user, and the lines
    written with [console.error]. *)
Inductive Effect : Type :=
| ProviderCall (content : str) (options : GenerationOptions)
| NoticeShown (message : str)
| ErrorLogged (label : str) (error : JsError).

(** Computations that append to the trace of effects. *)
Definition Eff (A : Type) : Type := list Effect -> A * list Effect.

Definition eff_ret {A : Type} (a : A) : Eff A := fun trace => (a, trace).

Definition eff_bind {A B : Type} (m : Eff A) (k : A -> Eff B) : Eff B :=
  fun trace => let '(a, trace') := m trace in k a trace'.

Definition eff_emit (e : Effect) : Eff unit := fun trace => (tt, trace ++ [e]).

Notation "x <- m ;; k" := (eff_bind m (fun x => k))
  (at level 100, m at next level, right associativity).

(** How the promise returned by the provider settles.  A rejection
    carries an object, as every [throw] of the providers does ([LLMError]
    or [Error]). *)
Inductive ProviderOutcome : Type :=
| Resolved (response : FlashcardResponse)
| Rejected (error : JsError).

(** The provider, an external collaborator: the answer it gives to each
    request. *)
Definition LLMProvider : Type := str -> GenerationOptions -> ProviderOutcome.

Definition callProvider (provider : LLMProvider) (content : str) (options : GenerationOptions)
    : Eff ProviderOutcome :=
  _ <- eff_emit (ProviderCall content options) ;;
  eff_ret (provider content options).

Record ResultMetadata : Type := {
  rm_tokensUsed : option Z;
  rm_model : option str;
  rm_cardsGenerated : nat
}.

Record GenerationResult : Type := {
  res_success : bool;
  res_formattedCards : option str;
  res_rawCards : option (list RawFlashcard);
  res_error : option str;
  res_metadata : option ResultMetadata
}.

(** The object literal [{ success: false, error }]. *)
Definition failure (error : option str) : GenerationResult :=
  {| res_success := false; res_formattedCards := None; res_rawCards := None;
     res_error := error; res_metadata := None |}.

Record InputValidation : Type := {
  iv_isValid : bool;
  iv_error : option str
}.

Definition validateInput (content : str) (options : GenerationOptions) : InputValidation :=
  if negb (Js.truthy content) || (length (Js.trim content) =? 0)%nat then
    {| iv_isValid := false;
       iv_error := Some ("Content cannot be empty. Please provide some text to generate flashcards from." : str) |}
  else if (length (Js.trim content) <? 10)%nat then
    {| iv_isValid := false;
       iv_error := Some ("Content is too short. Please provide more substantial content for flashcard generation." : str) |}
  else if (length (opt_cardTypes options) =? 0)%nat then
    {| iv_isValid := false;
       iv_error := Some ("At least one card type must be specified." : str) |}
  else
    match find (fun cardType => negb (isCardType cardType)) (opt_cardTypes options) with
    | Some cardType =>
        {| iv_isValid := false; iv_error := Some ("Invalid card type: " ++ cardType) |}
    | None => {| iv_isValid := true; iv_error := None |}
    end.

Definition withType (card : RawFlashcard) (t : CardType) : RawFlashcard :=
  {| card_front := card_front card; card_back := card_back card;
     card_type := CardType_value t; card_tags := card_tags card |}.

(** [targetType] is [options.cardTypes[0]], which is [undefined] for an
    empty array. *)
Definition convertCardType (card : RawFlashcard) (targetType : option str) : option RawFlashcard :=
  match targetType ≫= CardType_of_value with
  | Some OneWay => Some (withType card OneWay)
  | Some Bidirectional => Some (withType card Bidirectional)
  | Some MultiLine => Some (withType card MultiLine)
  | Some MultiLineBidirectional => Some (withType card MultiLineBidirectional)
  | Some Cloze =>
      if Js.includes (card_front card) "==" && match_cloze_span (card_front card)
      then Some (withType card Cloze)
      else None
  | None => None
  end.

(** The [for] loop of [processLLMResponse] from index [i] on, with the
    two arrays it fills. *)
Fixpoint validateCards (options : GenerationOptions) (i : nat) (cards : list RawFlashcard)
    (validatedCards : list RawFlashcard) (errors : list str)
    : list RawFlashcard * list str :=
  match cards with
  | [] => (validatedCards, errors)
  | card :: rest =>
      let validation := validateRawFlashcard card in
      if vr_isValid validation then
        if existsb (str_eqb (card_type card)) (opt_cardTypes options) then
          validateCards options (S i) rest (validatedCards ++ [card]) errors
        else
          match convertCardType card (head (opt_cardTypes options)) with
          | Some convertedCard =>
              validateCards options (S i) rest (validatedCards ++ [convertedCard]) errors
          | None => validateCards options (S i) rest validatedCards errors
          end
      else
        validateCards options (S i) rest validatedCards
          (errors ++ ["Card " ++ Js.natToString (i + 1) ++ ": "
                      ++ Js.join ", " (vr_errors validation)])
  end.

(** [validatedCards.splice(maxCards)], which keeps the cards before index
    [maxCards]; a negative index counts from the end. *)
Definition spliceFrom {A : Type} (l : list A) (start : Z) : list A :=
  let len := Z.of_nat (length l) in
  let k := if (start <? 0)%Z then Z.max (len + start) 0 else Z.min start len in
  take (Z.to_nat k) l.

Definition processLLMResponse (response : FlashcardResponse) (options : GenerationOptions)
    : Eff GenerationResult :=
  if (length (resp_cards response) =? 0)%nat then
    eff_ret (failure (Some ("LLM did not generate any flashcards. Try rephrasing your content or adjusting the prompt." : str)))
  else
    let '(validatedCards, errors) := validateCards options 0 (resp_cards response) [] [] in
    if (length validatedCards =? 0)%nat then
      eff_ret (failure (Some ("No valid flashcards could be generated. Errors: "
                              ++ Js.join "; " errors)))
    else
      let validatedCards :=
        match opt_maxCards options with
        | Some maxCards =>
            if negb (maxCards =? 0)%Z && (Z.of_nat (length validatedCards) >? maxCards)%Z
            then spliceFrom validatedCards maxCards
            else validatedCards
        | None => validatedCards
        end in
      _ <- (if (0 <? length errors)%nat
            then eff_emit (NoticeShown ("Some flashcards had issues and were skipped: "
                                        ++ Js.natToString (length errors) ++ " cards"))
            else eff_ret tt) ;;
      eff_ret {| res_success := true; res_formattedCards := None;
                 res_rawCards := Some validatedCards; res_error := None;
                 res_metadata := None |}.

Definition optTruthy (s : option str) : bool :=
  match s with
  | Some s => Js.truthy s
  | None => false
  end.

Definition handleError (error : JsError) : str :=
  if optTruthy (err_type error) then
    let type := default [] (err_type error) in
    if str_eqb type "authentication" then
      "Authentication failed. Please check your API key configuration."
    else if str_eqb type "network" then
      "Network error occurred. Please check your internet connection and try again."
    else if str_eqb type "invalid_response" then
      "The LLM returned an invalid response. Please try again or adjust your prompt."
    else "LLM Error: " ++ default ("undefined" : str) (err_message error)
  else if optTruthy (err_message error) then default [] (err_message error)
  else "An unexpected error occurred while generating flashcards.".

(** The message of the [TypeError] raised by reading [length] of
    [undefined]. *)
Definition undefinedLengthMessage : str :=
  "Cannot read properties of undefined (reading 'length')".

(** The [catch] block of [generateFlashcards]. *)
Definition catchError (error : JsError) : Eff GenerationResult :=
  _ <- eff_emit (ErrorLogged "Error generating flashcards:" error) ;;
  eff_ret (failure (Some (handleError error))).

Definition generateFlashcards (provider : LLMProvider) (content : str)
    (options : GenerationOptions) : Eff GenerationResult :=
  let inputValidation := validateInput content options in
  if negb (iv_isValid inputValidation) then
    eff_ret (failure (iv_error inputValidation))
  else
    llmOutcome <- callProvider provider content options ;;
    match llmOutcome with
    | Rejected error => catchError error
    | Resolved llmResponse =>
        processedCards <- processLLMResponse llmResponse options ;;
        if negb (res_success processedCards) then eff_ret processedCards
        else
          let formatted :=
            match res_rawCards processedCards with
            | Some rawCards => formatCards rawCards (default [] (opt_tags options))
            | None => Throw undefinedLengthMessage
            end in
          match formatted with
          | Throw msg => catchError {| err_type := None; err_message := Some msg |}
          | Ok formattedContent =>
              eff_ret
                {| res_success := true;
                   res_formattedCards := Some formattedContent;
                   res_rawCards := res_rawCards processedCards;
                   res_error := None;
                   res_metadata :=
                     Some {| rm_tokensUsed := resp_metadata llmResponse ≫= meta_tokensUsed;
                             rm_model := resp_metadata llmResponse ≫= meta_model;
                             rm_cardsGenerated :=
                               length (default [] (res_rawCards processedCards)) |} |}
          end
    end.

(** ** providers/base-provider.ts *)

(** JSON values, as [JSON.parse] and [response.json()] return them.  A
    number is kept as an integer: the code only tests numbers for
    truthiness. *)
#[warnings="-register-all"]
Inductive Json : Type :=
| JNull
| JBool (b : bool)
| JNum (z : Z)
| JStr (s : str)
| JArr (items : list Json)
| JObj (fields : list (str * Json)).

(** Reading a property; [None] is [undefined]. *)
Definition getProp (key : str) (v : Json) : option Json :=
  match v with
  | JObj fields => snd <$> find (fun kv => str_eqb (fst kv) key) fields
  | _ => None
  end.

Definition jsTruthy (v : Json) : bool :=
  match v with
  | JNull => false
  | JBool b => b
  | JNum z => negb (z =? 0)%Z
  | JStr s => Js.truthy s
  | JArr _ | JObj _ => true
  end.

(** [typeof v === 'string'] for a property that may be missing. *)
Definition isString (v : option Json) : bool :=
  match v with
  | Some (JStr _) => true
  | _ => false
  end.

Definition validateFlashcardResponse (response : Json) : bool :=
  if negb (jsTruthy response) then false
  else
    match getProp "cards" response with
    | Some (JArr cards) =>
        forallb (fun card =>
                   jsTruthy card
                   && isString (getProp "front" card)
                   && isString (getProp "back" card)
                   && isString (getProp "type" card)) cards
    | _ => false
    end.

Record ProviderConfig : Type := {
  apiKey : option str;
  endpoint : option str;
  model : option str;
  customHeaders : option (gmap string str)
}.

(** The values held by the fields of the object [getConfig] returns. *)
Inductive ConfigValue : Type :=
| VUndefined
| VString (s : str)
| VHeaders (headers : gmap string str).

Definition stringValue (v : option str) : ConfigValue :=
  match v with
  | Some s => VString s
  | None => VUndefined
  end.

Definition headersValue (v : option (gmap string str)) : ConfigValue :=
  match v with
  | Some h => VHeaders h
  | None => VUndefined
  end.

(** [BaseLLMProvider.getConfig]: the object literal it builds, as the map
    from its property names to their values. *)
Definition getConfig (config : ProviderConfig) : gmap string ConfigValue :=
  <["endpoint" := stringValue (endpoint config)]>
    (<["model" := stringValue (model config)]>
       (<["customHeaders" := headersValue (customHeaders config)]> ∅)).

(** [BaseLLMProvider.validateConfig]. *)
Definition validateConfig (config : ProviderConfig) : bool :=
  if negb (optTruthy (apiKey config)) || str_eqb (Js.trim (default [] (apiKey config))) []
  then false
  else if negb (optTruthy (endpoint config))
          || str_eqb (Js.trim (default [] (endpoint config))) []
  then false
  else if negb (optTruthy (model config)) || str_eqb (Js.trim (default [] (model config))) []
  then false
  else true.

(** The object [getConfig] returns, read at the type [ProviderConfig] by
    the callers that pass it on ([provider.getConfig() as ProviderConfig]):
    a property that is missing or [undefined] is an absent field. *)
Definition asProviderConfig (object : gmap string ConfigValue) : ProviderConfig :=
  let text (key : string) :=
    match object !! key with
    | Some (VString s) => Some s
    | _ => None
    end in
  {| apiKey := text "apiKey";
     endpoint := text "endpoint";
     model := text "model";
     customHeaders :=
       match object !! "customHeaders" with
       | Some (VHeaders headers) => Some headers
       | _ => None
       end |}.

(** A value that has been thrown, as the error handlers see it: whether
    it is an instance of [Error], and the properties they read. *)
Record ErrorValue : Type := {
  ev_instanceOfError : bool;
  ev_type : option str;
  ev_status : option Z;
  ev_name : option str;
  ev_code : option str;
  ev_message : option str
}.

Record LLMError : Type := {
  llm_type : str;
  llm_message : str;
  llm_details : ErrorValue
}.

(** [BaseLLMProvider.handleHttpError] of the provider called [name]. *)
Definition handleHttpError (name : str) (error : ErrorValue) (context : str) : LLMError :=
  if bool_decide (ev_status error = Some 401%Z) || bool_decide (ev_status error = Some 403%Z)
  then
    {| llm_type := "authentication";
       llm_message := "Authentication failed for " ++ name ++ ". Please check your API key.";
       llm_details := error |}
  else if match ev_status error with
          | Some status => (status >=? 500)%Z
          | None => false
          end
  then
    {| llm_type := "network";
       llm_message := "Server error from " ++ name ++ ". Please try again later.";
       llm_details := error |}
  else if bool_decide (ev_name error = Some ("NetworkError" : str))
          || bool_decide (ev_code error = Some ("ECONNREFUSED" : str))
  then
    {| llm_type := "network";
       llm_message := "Network error connecting to " ++ name ++ ". Please check your connection.";
       llm_details := error |}
  else
    {| llm_type := "unknown";
       llm_message :=
         "Error in " ++ context ++ ": "
         ++ (if optTruthy (ev_message error) then default [] (ev_message error)
             else "Unknown error");
       llm_details := error |}.

(** An [LLMError], which is a plain object, once it has been thrown. *)
Definition thrownLLMError (error : LLMError) : ErrorValue :=
  {| ev_instanceOfError := false;
     ev_type := Some (llm_type error);
     ev_status := None;
     ev_name := None;
     ev_code := None;
     ev_message := Some (llm_message error) |}.

(** The thrown value as the generator's [handleError] reads it. *)
Definition asJsError (error : ErrorValue) : JsError :=
  {| err_type := ev_type error; err_message := ev_message error |}.

(** [BaseLLMProvider.buildHeaders].  [Object.assign] writes each own
    property of the custom headers with an ordinary assignment: a custom
    header replaces a standard one of the same name, and a property named
    [__proto__] goes to the setter of [Object.prototype], which ignores a
    string, so that it adds no header. *)
Definition buildHeaders (config : ProviderConfig) : gmap string str :=
  let headers : gmap string str :=
    <["User-Agent" := ("Obsidian-LLM-Flashcard-Generator/1.0.0" : str)]>
      (<["Content-Type" := ("application/json" : str)]> ∅) in
  match customHeaders config with
  | Some custom => delete "__proto__" custom ∪ headers
  | None => headers
  end.

(** ** providers/anthropic-provider.ts *)

(** The longest prefix of [s] that ends with the character [c]. *)
Fixpoint upToLast (c : ascii) (s : str) : option str :=
  match s with
  | [] => None
  | x :: r =>
      match upToLast c r with
      | Some p => Some (x :: p)
      | None => if Ascii.eqb x c then Some [x] else None
      end
  end.

(** [content.match(/\{[\s\S]*\}/)]: the text from the first opening brace
    to the last closing brace after it. *)
Fixpoint jsonMatch (content : str) : option str :=
  match content with
  | [] => None
  | x :: r =>
      if Ascii.eqb x "{" then
        match upToLast "}" r with
        | Some p => Some (x :: p)
        | None => jsonMatch r
        end
      else jsonMatch r
  end.

Definition validateCardType (type : str) : str :=
  if isCardType type then type else CardType_value OneWay.

(** [tag.replace(/^#+/, '')]. *)
Fixpoint stripHashes (tag : str) : str :=
  match tag with
  | c :: r => if Ascii.eqb c "#" then stripHashes r else tag
  | [] => []
  end.

(** [tags.add(x)] on a [Set], which keeps the order of first insertion. *)
Definition setAdd (tags : list str) (x : str) : list str :=
  if existsb (str_eqb x) tags then tags else tags ++ [x].

Definition addTags (tags : list str) (source : option (list str)) : list str :=
  match source with
  | Some l =>
      fold_left (fun acc tag =>
                   let cleanTag := stripHashes tag in
                   if (0 <? length cleanTag)%nat then setAdd acc ("#" ++ cleanTag) else acc)
                l tags
  | None => tags
  end.

Definition mergeTags (cardTags optionTags : option (list str)) : list str :=
  addTags (addTags [] cardTags) optionTags.

(** [Partial<RawFlashcard>]. *)
Record PartialCard : Type := {
  pc_front : option str;
  pc_back : option str;
  pc_type : option str;
  pc_tags : option (list str)
}.

Definition emptyCard : PartialCard :=
  {| pc_front := None; pc_back := None; pc_type := None; pc_tags := None |}.

Definition completeCard (partial : PartialCard) (options : GenerationOptions) : RawFlashcard :=
  {| card_front := if optTruthy (pc_front partial) then default [] (pc_front partial) else [];
     card_back := if optTruthy (pc_back partial) then default [] (pc_back partial) else [];
     card_type :=
       if optTruthy (pc_type partial) then default [] (pc_type partial)
       else if optTruthy (head (opt_cardTypes options))
            then default [] (head (opt_cardTypes options))
            else CardType_value OneWay;
     card_tags := Some (mergeTags (pc_tags partial) (opt_tags options)) |}.

(** [trimmed.replace(/^(q:|question:)/i, '')] and its sibling for
    answers: the first alternative that matches is removed. *)
Definition stripLabel (short long : str) (trimmed : str) : str :=
  if Js.startsWith (Js.toLowerCase trimmed) short then drop (length short) trimmed
  else if Js.startsWith (Js.toLowerCase trimmed) long then drop (length long) trimmed
  else trimmed.

(** The variables of the loop of [parseAsPlainText]. *)
Record ScanState : Type := {
  cards : list RawFlashcard;
  currentCard : PartialCard
}.

(** The body of the loop over the lines. *)
Definition scanLine (options : GenerationOptions) (st : ScanState) (line : str) : ScanState :=
  let trimmed := Js.trim line in
  let lower := Js.toLowerCase trimmed in
  if Js.startsWith lower "q:" || Js.startsWith lower "question:" then
    {| cards :=
         if optTruthy (pc_front (currentCard st)) && optTruthy (pc_back (currentCard st))
         then cards st ++ [completeCard (currentCard st) options]
         else cards st;
       currentCard :=
         {| pc_front := Some (Js.trim (stripLabel "q:" "question:" trimmed));
            pc_back := None; pc_type := None; pc_tags := None |} |}
  else if Js.startsWith lower "a:" || Js.startsWith lower "answer:" then
    {| cards := cards st;
       currentCard :=
         {| pc_front := pc_front (currentCard st);
            pc_back := Some (Js.trim (stripLabel "a:" "answer:" trimmed));
            pc_type := pc_type (currentCard st);
            pc_tags := pc_tags (currentCard st) |} |}
  else if optTruthy (pc_front (currentCard st)) && negb (optTruthy (pc_back (currentCard st)))
          && Js.truthy trimmed then
    {| cards := cards st;
       currentCard :=
         {| pc_front := pc_front (currentCard st);
            pc_back := Some trimmed;
            pc_type := pc_type (currentCard st);
            pc_tags := pc_tags (currentCard st) |} |}
  else st.

(** What is returned once the loop has ended in state [st]. *)
Definition finishScan (options : GenerationOptions) (st : ScanState) : FlashcardResponse :=
  {| resp_cards :=
       if optTruthy (pc_front (currentCard st)) && optTruthy (pc_back (currentCard st))
       then cards st ++ [completeCard (currentCard st) options]
       else cards st;
     resp_metadata := None |}.

(** [content.split('\n').filter(line => line.trim())]. *)
Definition nonBlankLines (content : str) : list str :=
  List.filter (fun line => Js.truthy (Js.trim line)) (Js.splitChar Js.LF content).

Definition parseAsPlainText (content : str) (options : GenerationOptions) : FlashcardResponse :=
  finishScan options
    (fold_left (scanLine options) (nonBlankLines content)
       {| cards := []; currentCard := emptyCard |}).

(** The argument [card.tags] of [mergeTags] on the structured path:
    a falsy value is skipped, an array of strings is iterated, and
    anything else makes [forEach] or [replace] raise a [TypeError]. *)
Fixpoint jsonStrings (items : list Json) : result (list str) :=
  match items with
  | [] => Ok []
  | JStr s :: rest =>
      match jsonStrings rest with
      | Ok l => Ok (s :: l)
      | Throw msg => Throw msg
      end
  | _ :: _ => Throw "tag.replace is not a function"
  end.

Definition jsonTags (v : option Json) : result (option (list str)) :=
  match v with
  | None => Ok None
  | Some (JArr items) =>
      match jsonStrings items with
      | Ok l => Ok (Some l)
      | Throw msg => Throw msg
      end
  | Some v => if jsTruthy v then Throw "cardTags.forEach is not a function" else Ok None
  end.

(** The function mapped over [parsed.cards]. *)
Definition cardOfJson (options : GenerationOptions) (card : Json) : result RawFlashcard :=
  match getProp "front" card, getProp "back" card, getProp "type" card with
  | Some (JStr front), Some (JStr back), Some (JStr type) =>
      match jsonTags (getProp "tags" card) with
      | Ok cardTags =>
          Ok {| card_front := Js.trim front;
                card_back := Js.trim back;
                card_type := validateCardType type;
                card_tags := Some (mergeTags cardTags (opt_tags options)) |}
      | Throw msg => Throw msg
      end
  | _, _, _ => Throw "card.front.trim is not a function"
  end.

Fixpoint cardsOfJson (options : GenerationOptions) (items : list Json) : result (list RawFlashcard) :=
  match items with
  | [] => Ok []
  | card :: rest =>
      match cardOfJson options card with
      | Throw msg => Throw msg
      | Ok c =>
          match cardsOfJson options rest with
          | Throw msg => Throw msg
          | Ok cs => Ok (c :: cs)
          end
      end
  end.

Section AnthropicProvider.

(** [JSON.parse], a primitive of the platform; [None] when it raises a
    [SyntaxError]. *)
Variable JSON_parse : str -> option Json.

(** The [try] block of [parseFlashcardResponse]. *)
Definition parseStructured (content : str) (options : GenerationOptions)
    : result (list RawFlashcard) :=
  match jsonMatch content with
  | None => Throw "No JSON found in response"
  | Some text =>
      match JSON_parse text with
      | None => Throw "Unexpected token in JSON"
      | Some parsed =>
          if negb (validateFlashcardResponse parsed) then Throw "Invalid flashcard response format"
          else
            match getProp "cards" parsed with
            | Some (JArr items) => cardsOfJson options items
            | _ => Throw "parsed.cards.map is not a function"
            end
      end
  end.

Definition parseFlashcardResponse (content : str) (options : GenerationOptions)
    : FlashcardResponse :=
  match parseStructured content options with
  | Ok cards => {| resp_cards := cards; resp_metadata := None |}
  | Throw _ => parseAsPlainText content options
  end.

End AnthropicProvider.

Module Anthropic.

Definition name : str := "Anthropic".

(** The constructor: the configuration it keeps is the object it was
    given, whose missing endpoint and model it fills in. *)
Definition construct (config : ProviderConfig) : ProviderConfig :=
  {| apiKey := apiKey config;
     endpoint :=
       if optTruthy (endpoint config) then endpoint config
       else Some ("https://api.anthropic.com/v1" : str);
     model :=
       if optTruthy (model config) then model config
       else Some ("claude-3-haiku-20240307" : str);
     customHeaders := customHeaders config |}.

Definition validModels : list str :=
  ["claude-3-haiku" : str; "claude-3-sonnet" : str; "claude-3-opus" : str;
   "claude-2.1" : str; "claude-2.0" : str].

(** [config.endpoint?.includes(text)], which is [undefined] without an
    endpoint. *)
Definition endpointIncludes (config : ProviderConfig) (text : str) : bool :=
  match endpoint config with
  | Some e => Js.includes e text
  | None => false
  end.

(** [AnthropicProvider.validateConfig]: its result and the warnings it
    writes to the console. *)
Definition validateConfig (config : ProviderConfig) : bool * list str :=
  if negb (validateConfig config) (* super.validateConfig *) then (false, [])
  else if negb (endpointIncludes config "anthropic.com")
          && negb (endpointIncludes config "localhost")
  then (false, [])
  else if optTruthy (model config)
          && negb (existsb (fun m => Js.startsWith (default [] (model config)) m) validModels)
  then (true, ["Unknown Anthropic model: " ++ default [] (model config)
               ++ ". Proceeding anyway."])
  else (true, []).

(** The headers of the request sent by [generateFlashcards]: the spread of
    [buildHeaders()] followed by the two headers of the provider. *)
Definition requestHeaders (config : ProviderConfig) : gmap string str :=
  <["anthropic-version" := ("2023-06-01" : str)]>
    (<["x-api-key" := (if optTruthy (apiKey config) then default [] (apiKey config) else [])]>
       (buildHeaders config)).

(** What [generateFlashcards] throws inside its [try] block when the
    response is not [ok]. *)
Definition notOkError (status : Z) : ErrorValue :=
  thrownLLMError
    (handleHttpError name
       {| ev_instanceOfError := false; ev_type := None; ev_status := Some status;
          ev_name := None; ev_code := None; ev_message := None |}
       "generateFlashcards").

(** The [catch] block of [generateFlashcards]: the value the promise is
    rejected with when [error] was thrown inside the [try] block. *)
Definition rethrow (error : ErrorValue) : ErrorValue :=
  if ev_instanceOfError error && bool_decide (is_Some (ev_type error)) then error
  else thrownLLMError (handleHttpError name error "generateFlashcards").

End Anthropic.

(** ** flashcard-generator.ts: the provider held by the generator *)

(** The methods of the provider that [validateProvider] calls: the
    configuration [getConfig] returns, read at the type [ProviderConfig],
    [validateConfig], and [authenticate], whose promise resolves to a
    boolean or is rejected with an error of the given message. *)
Record ProviderAdmin : Type := {
  provider_getConfig : ProviderConfig;
  provider_validateConfig : ProviderConfig -> bool;
  provider_authenticate : ProviderConfig -> result bool
}.

Record ProviderValidation : Type := {
  pv_isValid : bool;
  pv_error : option str
}.

(** [validateProvider]: its result, and the configurations [authenticate]
    has been called with. *)
Definition validateProvider (provider : ProviderAdmin)
    : ProviderValidation * list ProviderConfig :=
  let config := provider_getConfig provider in
  if negb (provider_validateConfig provider config) then
    ({| pv_isValid := false;
        pv_error := Some ("Provider configuration is invalid. Please check your settings." : str) |},
     [])
  else
    match provider_authenticate provider config with
    | Ok authResult =>
        if negb authResult then
          ({| pv_isValid := false;
              pv_error := Some ("Provider authentication failed. Please check your API key and settings." : str) |},
           [config])
        else ({| pv_isValid := true; pv_error := None |}, [config])
    | Throw message =>
        ({| pv_isValid := false;
            pv_error := Some ("Provider validation failed: " ++ message) |},
         [config])
    end.

(** ** input-validator.ts *)

Record TagValidationResult : Type := {
  tv_errors : list str;
  tv_warnings : list str;
  tv_suggestions : list str
}.

(** The class [[a-zA-Z0-9#_-]]. *)
Definition isTagChar (c : ascii) : bool :=
  let n := nat_of_ascii c in
  ((97 <=? n) && (n <=? 122))%nat || ((65 <=? n) && (n <=? 90))%nat
  || ((48 <=? n) && (n <=? 57))%nat
  || Ascii.eqb c "#" || Ascii.eqb c "_" || Ascii.eqb c "-".

(** The body of the loop of [InputValidator.validateTags], for a tag that
    is a string. *)
Definition validateTag (acc : TagValidationResult) (tag : str) : TagValidationResult :=
  let trimmedTag := Js.trim tag in
  if (length trimmedTag =? 0)%nat then
    {| tv_errors := tv_errors acc;
       tv_warnings := tv_warnings acc ++ ["Empty tag found and will be ignored" : str];
       tv_suggestions := tv_suggestions acc |}
  else if negb (Js.startsWith trimmedTag "#") then
    {| tv_errors :=
         tv_errors acc
         ++ ["Tag " ++ [Js.DQUOTE] ++ trimmedTag ++ [Js.DQUOTE] ++ " must start with #"];
       tv_warnings := tv_warnings acc;
       tv_suggestions :=
         tv_suggestions acc
         ++ ["All tags should start with # (e.g., #flashcards, #biology)" : str] |}
  else if (length trimmedTag =? 1)%nat then
    {| tv_errors := tv_errors acc ++ ["Tag cannot be just a # symbol" : str];
       tv_warnings := tv_warnings acc;
       tv_suggestions :=
         tv_suggestions acc
         ++ ["Tags need content after the # symbol (e.g., #flashcards)" : str] |}
  else if Js.includes trimmedTag " " then
    {| tv_errors :=
         tv_errors acc
         ++ ["Tag " ++ [Js.DQUOTE] ++ trimmedTag ++ [Js.DQUOTE] ++ " cannot contain spaces"];
       tv_warnings := tv_warnings acc;
       tv_suggestions :=
         tv_suggestions acc
         ++ ["Use hyphens or underscores instead of spaces in tags (e.g., #my-tag or #my_tag)" : str] |}
  else
    let acc :=
      if (50 <? length trimmedTag)%nat then
        {| tv_errors := tv_errors acc;
           tv_warnings :=
             tv_warnings acc
             ++ ["Tag " ++ [Js.DQUOTE] ++ trimmedTag ++ [Js.DQUOTE]
                 ++ " is very long and may not display well"];
           tv_suggestions :=
             tv_suggestions acc
             ++ ["Consider using shorter, more concise tag names" : str] |}
      else acc in
    let acc :=
      if Js.includes trimmedTag "##" then
        {| tv_errors := tv_errors acc;
           tv_warnings :=
             tv_warnings acc
             ++ ["Tag " ++ [Js.DQUOTE] ++ trimmedTag ++ [Js.DQUOTE]
                 ++ " contains multiple # symbols"];
           tv_suggestions :=
             tv_suggestions acc ++ ["Tags should start with a single # symbol" : str] |}
      else acc in
    if existsb (fun c => negb (isTagChar c)) trimmedTag then
      {| tv_errors := tv_errors acc;
         tv_warnings :=
           tv_warnings acc
           ++ ["Tag " ++ [Js.DQUOTE] ++ trimmedTag ++ [Js.DQUOTE]
               ++ " contains special characters that may cause issues"];
         tv_suggestions :=
           tv_suggestions acc
           ++ ["Use only letters, numbers, hyphens, and underscores in tags" : str] |}
    else acc.

(** [InputValidator.validateTags] on an array of strings. *)
Definition validateTags (tags : list str) : TagValidationResult :=
  fold_left validateTag tags {| tv_errors := []; tv_warnings := []; tv_suggestions := [] |}.

(** ** prompt-template-system.ts *)

Record PromptTemplate : Type := {
  tpl_id : str;
  tpl_name : str;
  tpl_description : str;
  tpl_template : str;
  tpl_variables : list str;
  tpl_cardTypes : list str
}.

(** [ctx_metadata] lists the entries of the metadata object, each value
    already converted to a string. *)
Record TemplateContext : Type := {
  ctx_content : str;
  ctx_title : str;
  ctx_wordCount : Z;
  ctx_maxCards : option Z;
  ctx_cardTypes : list str;
  ctx_tags : option (list str);
  ctx_metadata : option (list (str * str))
}.

(** The first of the templates installed by the constructor. *)
Definition defaultTemplate : PromptTemplate :=
  {| tpl_id := "default";
     tpl_name := "Default Flashcard Generator";
     tpl_description := "General purpose flashcard generation template";
     tpl_template := "Generate flashcards from the following content. Create clear, concise questions and answers that would be useful for studying.

Title: {title}
Content:
{content}

Instructions:
- Generate {maxCards} flashcards based on the content
- Focus on key concepts, definitions, and important facts
- Make questions specific and answers complete but concise
- Use the following card types: {cardTypes}
{tagsInstruction}

Format each flashcard as:
- Front: [question or prompt]
- Back: [answer or explanation]
- Type: [oneway/bidirectional/cloze]";
     tpl_variables := ["title" : str; "content" : str; "maxCards" : str;
                       "cardTypes" : str; "tagsInstruction" : str];
     tpl_cardTypes := [CardType_value OneWay; CardType_value Bidirectional;
                       CardType_value Cloze] |}.

(** [addTemplate] on the map of templates. *)
Definition addTemplate (template : PromptTemplate) (templates : gmap str PromptTemplate)
    : gmap str PromptTemplate :=
  <[tpl_id template := template]> templates.

Definition getTemplate (templates : gmap str PromptTemplate) (id : str) : option PromptTemplate :=
  templates !! id.

(** [removeTemplate]: the boolean [Map.prototype.delete] returns and the
    map afterwards. *)
Definition removeTemplate (templates : gmap str PromptTemplate) (id : str)
    : bool * gmap str PromptTemplate :=
  (bool_decide (is_Some (templates !! id)), delete id templates).

Definition cardTypeToDisplayName (cardType : str) : str :=
  match CardType_of_value cardType with
  | Some OneWay => "one-way"
  | Some Bidirectional => "bidirectional"
  | Some MultiLine => "multi-line"
  | Some MultiLineBidirectional => "multi-line bidirectional"
  | Some Cloze => "cloze deletion"
  | None => cardType
  end.

Definition renderTemplate (templates : gmap str PromptTemplate) (templateId : str)
    (context : TemplateContext) : result str :=
  match templates !! templateId with
  | None => Throw ("Template '" ++ templateId ++ "' not found")
  | Some template =>
      let rendered := tpl_template template in
      let rendered := Js.replaceAll "{content}" (ctx_content context) rendered in
      let rendered := Js.replaceAll "{title}" (ctx_title context) rendered in
      let rendered := Js.replaceAll "{wordCount}" (Js.numToString (ctx_wordCount context)) rendered in
      let maxCards :=
        match ctx_maxCards context with
        | Some n => if (n =? 0)%Z then 5%Z else n
        | None => 5%Z
        end in
      let rendered := Js.replaceAll "{maxCards}" (Js.numToString maxCards) rendered in
      let cardTypesText := Js.join ", " (map cardTypeToDisplayName (ctx_cardTypes context)) in
      let rendered := Js.replaceAll "{cardTypes}" cardTypesText rendered in
      let rendered :=
        match ctx_tags context with
        | Some ((_ :: _) as tags) =>
            let tagsText := Js.join " " tags in
            let tagsInstruction := "Apply these tags to each card: " ++ tagsText in
            Js.replaceAll "{tagsInstruction}" tagsInstruction
              (Js.replaceAll "{tags}" tagsText rendered)
        | _ =>
            Js.replaceAll "{tagsInstruction}" [] (Js.replaceAll "{tags}" [] rendered)
        end in
      let rendered :=
        match ctx_metadata context with
        | Some entries =>
            let metadataText :=
              Js.join ", " (map (fun kv => fst kv ++ ": " ++ snd kv) entries) in
            Js.replaceAll "{metadata}" metadataText rendered
        | None => Js.replaceAll "{metadata}" [] rendered
        end in
      Ok (Js.trim rendered)
  end.

(** * Vocabulary of the statements *)

(** The text [d] occurs in [s]. *)
Definition contains (s d : str) : Prop := exists p q, s = p ++ d ++ q.

(** The span test in the words of the specification: the text holds a
    span [==t==] with [t] non-empty. *)
Definition has_nonempty_span (s : str) : Prop :=
  exists p t q, s = p ++ "==" ++ t ++ "==" ++ q /\ t <> [].

(** The span test of the code, a match of [/==[^=]+==/]: the text holds a
    span [==t==] with [t] non-empty and free of [=]. *)
Definition has_cloze_span (s : str) : Prop :=
  exists p t q, s = p ++ "==" ++ t ++ "==" ++ q /\ t <> [] /\ ~ In "="%char t.

(** The priority rule of the specification for a given span test: the
    first of the five tests that succeeds decides, and no result when none
    does. *)
Inductive detectType_rule (span : str -> Prop) (m : str) : option CardType -> Prop :=
| detect_multiline_bidirectional :
    contains m "???" ->
    detectType_rule span m (Some MultiLineBidirectional)
| detect_bidirectional :
    ~ contains m "???" -> contains m ":::" ->
    detectType_rule span m (Some Bidirectional)
| detect_oneway :
    ~ contains m "???" -> ~ contains m ":::" -> contains m "::" ->
    detectType_rule span m (Some OneWay)
| detect_multiline :
    ~ contains m "???" -> ~ contains m ":::" -> ~ contains m "::" -> contains m "?" ->
    detectType_rule span m (Some MultiLine)
| detect_cloze :
    ~ contains m "???" -> ~ contains m ":::" -> ~ contains m "::" -> ~ contains m "?" ->
    contains m "==" -> span m ->
    detectType_rule span m (Some Cloze)
| detect_none :
    ~ contains m "???" -> ~ contains m ":::" -> ~ contains m "::" -> ~ contains m "?" ->
    ~ (contains m "==" /\ span m) ->
    detectType_rule span m None.

(** The claim of the specification: the rule with the span test in its
    words. *)
Definition detection_claim : Prop :=
  forall m r, detectCardType m = r <-> detectType_rule has_nonempty_span m r.

(** A markup whose only span holds an [=]. *)
Definition energyMarkup : str := "Energy ==E=mc^2==".

#[export] Instance CardType_eq_dec : EqDecision CardType.
Proof. solve_decision. Defined.

(** The separators of the card types other than [t]. *)
Definition otherDelimiters (t : CardType) : list str :=
  map getSeparator (List.filter (fun t' => negb (bool_decide (t' = t))) CardType_values).

(** The text contains none of the separators of the other card types. *)
Definition delimiterFree (t : CardType) (s : str) : bool :=
  forallb (fun d => negb (Js.includes s d)) (otherDelimiters t).

Definition mkCard (front back : str) (t : CardType) : RawFlashcard :=
  {| card_front := front; card_back := back; card_type := CardType_value t;
     card_tags := None |}.

(** The markup [formatCard] produces, when it produces one. *)
Definition encode (front back : str) (t : CardType) : option str :=
  match formatCard (mkCard front back t) with
  | Ok formatted => Some (fmt_content formatted)
  | Throw _ => None
  end.

(** What must hold where the cleaned texts meet the separator, for the
    separator not to grow into one of higher priority. *)
Definition boundaryClean (t : CardType) (front back : str) : bool :=
  match t with
  | OneWay =>
      negb (Js.endsWith (cleanText front) ":") && negb (Js.startsWith (cleanText back) ":")
  | MultiLine => negb (Js.endsWith (cleanText front) "??")
  | _ => true
  end.

(** The claim of the specification for one card. *)
Definition roundtrip_claim (t : CardType) (front back : str) : Prop :=
  t <> Cloze -> front <> [] -> back <> [] ->
  delimiterFree t front = true -> delimiterFree t back = true ->
  exists markup, encode front back t = Some markup /\ detectCardType markup = Some t.

(** The first and the last character of a text, when it has any, are not
    white space. *)
Definition tight (s : str) : Prop :=
  (forall c r, s = c :: r -> Js.isWhiteSpace c = false)
  /\ (forall c r, rev s = c :: r -> Js.isWhiteSpace c = false).

(** The terminating runs of the loop of [chunkContent]: from state [st]
    the loop is left with [result]. *)
Inductive chunkRuns (words : list str) (chunkSize overlapSize : Z)
    : ChunkState -> list str -> Prop :=
| runs_break st result :
    chunkIter words chunkSize overlapSize st = Break result ->
    chunkRuns words chunkSize overlapSize st result
| runs_continue st st' result :
    chunkIter words chunkSize overlapSize st = Continue st' ->
    chunkRuns words chunkSize overlapSize st' result ->
    chunkRuns words chunkSize overlapSize st result.

(** [chunkContent] returns [result]. *)
Definition chunkReturns (content : str) (chunkSize overlapSize : Z) (result : list str) : Prop :=
  let words := Js.splitWs content in
  if (Z.of_nat (length words) <=? chunkSize)%Z then result = [content]
  else chunkRuns words chunkSize overlapSize {| startIndex := 0; chunks := [] |} result.

(** The four reasons for which a request is turned down. *)
Definition rejectedInput (content : str) (options : GenerationOptions) : Prop :=
  Js.trim content = []
  \/ (length (Js.trim content) < 10)%nat
  \/ opt_cardTypes options = []
  \/ exists cardType, In cardType (opt_cardTypes options) /\ isCardType cardType = false.

(** The text is empty or made of white space only. *)
Definition blank (s : str) : Prop := Forall (fun c => Js.isWhiteSpace c = true) s.

(** The tag rule in the words of the specification: a single leading [#]
    and no white space. *)
Definition tagRule_spec (tag : str) : Prop :=
  Js.startsWith tag "#" = true
  /\ Js.startsWith tag "##" = false
  /\ Forall (fun c => Js.isWhiteSpace c = false) tag.

(** The tag rule of the code: a leading [#] and no space character. *)
Definition tagRule_code (tag : str) : Prop :=
  Js.startsWith tag "#" = true /\ ~ In " "%char tag.

(** The conditions of rejection of the specification, for a given span
    test and a given tag rule. *)
Definition rejectionConditions (span tagRule : str -> Prop) (card : RawFlashcard) : Prop :=
  blank (card_front card)
  \/ blank (card_back card)
  \/ isCardType (card_type card) = false
  \/ (card_type card = CardType_value Cloze /\ ~ span (card_front card))
  \/ exists tags tag, card_tags card = Some tags /\ In tag tags /\ ~ tagRule tag.

(** The claim of the specification: the span test and the tag rule in its
    words. *)
Definition validation_claim : Prop :=
  forall card,
    vr_isValid (validateRawFlashcard card) = false
    <-> rejectionConditions has_nonempty_span tagRule_spec card.

(** A cloze card whose only span holds an [=]. *)
Definition energyCard : RawFlashcard :=
  {| card_front := "==E=mc^2=="; card_back := "mass and energy";
     card_type := CardType_value Cloze; card_tags := None |}.

(** The entry of the error list for the card at index [i]. *)
Definition cardReason (i : nat) (card : RawFlashcard) : str :=
  "Card " ++ Js.natToString (i + 1) ++ ": "
  ++ Js.join ", " (vr_errors (validateRawFlashcard card)).

(** The entries for the cards, from index [i] on, that fail validation. *)
Fixpoint rejectionReasons (i : nat) (cards : list RawFlashcard) : list str :=
  match cards with
  | [] => []
  | card :: rest =>
      (if vr_isValid (validateRawFlashcard card) then [] else [cardReason i card])
      ++ rejectionReasons (S i) rest
  end.

(** The cards that survive validation and coercion. *)
Definition survivors (options : GenerationOptions) (cards : list RawFlashcard) : list RawFlashcard :=
  fst (validateCards options 0 cards [] []).

Definition noValidMessage (reasons : list str) : str :=
  "No valid flashcards could be generated. Errors: " ++ Js.join "; " reasons.

(** The message says something about the card at index [i]. *)
Definition mentionsCard (message : str) (i : nat) : bool :=
  Js.includes message ("Card " ++ Js.natToString (i + 1) ++ ":").

(** The claim of the specification for one response. *)
Definition processing_claim (response : FlashcardResponse) (options : GenerationOptions) : Prop :=
  resp_cards response <> [] ->
  survivors options (resp_cards response) = [] ->
  exists message,
    fst (processLLMResponse response options []) = failure (Some message)
    /\ Js.startsWith message "No valid flashcards" = true
    /\ forall i, (i < length (resp_cards response))%nat -> mentionsCard message i = true.

Definition clozeOnly (maxCards : option Z) (tags : option (list str)) : GenerationOptions :=
  {| opt_maxCards := maxCards; opt_cardTypes := [CardType_value Cloze];
     opt_customPrompt := None; opt_tags := tags |}.

Definition plainCard : RawFlashcard :=
  {| card_front := "Regular question"; card_back := "Regular answer";
     card_type := CardType_value OneWay; card_tags := None |}.

(** The text holds an opening brace followed, later on, by a closing
    brace. *)
Definition jsonShaped (content : str) : Prop :=
  exists p m q, content = p ++ "{" ++ m ++ "}" ++ q.

(** The line, once trimmed, begins with one of the two labels, whatever
    the case of its letters. *)
Definition labelled (short long line : str) : bool :=
  Js.startsWith (Js.toLowerCase (Js.trim line)) short
  || Js.startsWith (Js.toLowerCase (Js.trim line)) long.

(** The pending card has both a front and a back. *)
Definition complete (pending : PartialCard) : bool :=
  optTruthy (pc_front pending) && optTruthy (pc_back pending).

(** The type given to the cards found by the line scanner: the first card
    type of the options, [oneway] when there is none. *)
Definition firstCardType (options : GenerationOptions) : str :=
  match opt_cardTypes options with
  | t :: _ => if Js.truthy t then t else CardType_value OneWay
  | [] => CardType_value OneWay
  end.

(** The card emitted for a pending card: its front, its back, the first
    card type of the options, and its tags merged with those of the
    options. *)
Definition emittedCard (pending : PartialCard) (options : GenerationOptions) : RawFlashcard :=
  {| card_front := default [] (pc_front pending);
     card_back := default [] (pc_back pending);
     card_type := firstCardType options;
     card_tags := Some (mergeTags (pc_tags pending) (opt_tags options)) |}.

(** The state in which the scan of the lines starts. *)
Definition scanStart : ScanState := {| cards := []; currentCard := emptyCard |}.

Definition questionAnswer : str := "Q: What is X?" ++ [Js.LF] ++ "A: It is Y.".

(** The scanner keeps the type of the pending card unset, and gives every
    card it emits the first card type of the options. *)
Definition scanInvariant (options : GenerationOptions) (st : ScanState) : Prop :=
  pc_type (currentCard st) = None
  /\ Forall (fun card => card_type card = firstCardType options
                         /\ Js.truthy (card_front card) = true
                         /\ Js.truthy (card_back card) = true) (cards st).

(** A note whose text holds a placeholder. *)
Definition injectedContext : TemplateContext :=
  {| ctx_content := "see {title} here"; ctx_title := "My Note"; ctx_wordCount := 3;
     ctx_maxCards := None; ctx_cardTypes := [CardType_value OneWay];
     ctx_tags := None; ctx_metadata := None |}.

(** The smallest template [validateTemplate] accepts. *)
Definition contentOnlyTemplate : PromptTemplate :=
  {| tpl_id := "content-only"; tpl_name := "Content only"; tpl_description := [];
     tpl_template := "{content}"; tpl_variables := ["content" : str];
     tpl_cardTypes := [CardType_value OneWay] |}.

(** Two configurations that differ in their API key only. *)
Definition configFirst : ProviderConfig :=
  {| apiKey := Some ("sk-first" : str);
     endpoint := Some ("https://api.anthropic.com/v1" : str);
     model := Some ("claude-3-haiku-20240307" : str);
     customHeaders := None |}.

Definition configSecond : ProviderConfig :=
  {| apiKey := Some ("sk-second" : str);
     endpoint := Some ("https://api.anthropic.com/v1" : str);
     model := Some ("claude-3-haiku-20240307" : str);
     customHeaders := None |}.

(** The default options of the plugin settings. *)
Definition defaultOptions : GenerationOptions :=
  {| opt_maxCards := None;
     opt_cardTypes := [CardType_value OneWay; CardType_value Bidirectional];
     opt_customPrompt := None;
     opt_tags := Some ["#flashcards" : str] |}.

(** The empty note. *)
Definition emptyContent : str := [].

(** A provider that answers every request with the card [plainCard]. *)
Definition plainProvider : LLMProvider :=
  fun _ _ => Resolved {| resp_cards := [plainCard]; resp_metadata := None |}.

(** The last character of the text is not white space. *)
Fixpoint endsNonWs (s : str) : bool :=
  match s with
  | [] => false
  | [c] => negb (Js.isWhiteSpace c)
  | _ :: r => endsNonWs r
  end.

(** The markup of a card, empty when [formatCard] throws. *)
Definition markupOf (card : RawFlashcard) : str :=
  match formatCard card with
  | Ok formatted => fmt_content formatted
  | Throw _ => []
  end.

(** The deck written for the cards: their markups, a blank line between
    two of them. *)
Definition deckOf (cards : list RawFlashcard) : str :=
  Js.join [Js.LF; Js.LF] (map markupOf cards).

(** The card passes validation and its type is one of the allowed ones. *)
Definition acceptable (options : GenerationOptions) (card : RawFlashcard) : Prop :=
  vr_isValid (validateRawFlashcard card) = true
  /\ In (card_type card) (opt_cardTypes options).

(** The limit [maxCards] applied to the surviving cards: a positive limit
    keeps that many cards from the start, no limit or the limit 0 keeps
    them all, a negative limit drops that many cards from the end. *)
Definition limited (maxCards : option Z) (cards : list RawFlashcard) : list RawFlashcard :=
  match maxCards with
  | Some m =>
      if (0 <? m)%Z then take (Z.to_nat m) cards
      else if (m =? 0)%Z then cards
      else take (length cards - Z.to_nat (- m)) cards
  | None => cards
  end.

(** The cards the generator returns for a response. *)
Definition returnedCards (options : GenerationOptions) (response : FlashcardResponse)
    : list RawFlashcard :=
  limited (opt_maxCards options) (survivors options (resp_cards response)).

(** The notice shown when cards failed validation, one reason each. *)
Definition skippedNotice (reasons : list str) : list Effect :=
  match reasons with
  | [] => []
  | _ :: _ =>
      [NoticeShown ("Some flashcards had issues and were skipped: "
                    ++ Js.natToString (length reasons) ++ " cards")]
  end.

(** The generator accepts the request. *)
Definition accepted (content : str) (options : GenerationOptions) : bool :=
  iv_isValid (validateInput content options).

(** The form [mergeTags] gives to a tag: one [#] before what is left of
    the tag without its leading [#] characters. *)
Definition normalizedTag (tag : str) : str := "#" ++ stripHashes tag.

(** The tags of both sources, those of the card first. *)
Definition sourceTags (cardTags optionTags : option (list str)) : list str :=
  default [] cardTags ++ default [] optionTags.

(** The tag is blank, or it is a [#] followed by at least one character
    and holds no space. *)
Definition tagAccepted (tag : str) : Prop :=
  Js.trim tag = []
  \/ (Js.startsWith (Js.trim tag) "#" = true
      /\ (1 < length (Js.trim tag))%nat
      /\ ~ In " "%char (Js.trim tag)).

(** What the structured path guarantees of a card it returns. *)
Definition wellFormed (options : GenerationOptions) (card : RawFlashcard) : Prop :=
  isCardType (card_type card) = true
  /\ tight (card_front card)
  /\ tight (card_back card)
  /\ exists cardTags, card_tags card = Some (mergeTags cardTags (opt_tags options)).

(** The tags an entry of the model's answer holds: none when its member
    [tags] is missing or falsy, the texts of the array when it is an array
    of texts. *)
Definition entryTags (entry : Json) (tags : option (list str)) : Prop :=
  match getProp "tags" entry with
  | None => tags = None
  | Some (JArr items) => exists texts, items = map JStr texts /\ tags = Some texts
  | Some value => jsTruthy value = false /\ tags = None
  end.

(** The card the structured path makes of an entry of the model's answer:
    the front and the back are the trimmed texts of the entry, the type is
    that of the entry when it belongs to the enum and [oneway] otherwise,
    and the tags are those of the entry merged with those of the
    options. *)
Definition cardOfEntry (options : GenerationOptions) (entry : Json) (card : RawFlashcard)
    : Prop :=
  exists front back type tags,
    getProp "front" entry = Some (JStr front)
    /\ getProp "back" entry = Some (JStr back)
    /\ getProp "type" entry = Some (JStr type)
    /\ entryTags entry tags
    /\ card = {| card_front := Js.trim front;
                 card_back := Js.trim back;
                 card_type := if isCardType type then type else CardType_value OneWay;
                 card_tags := Some (mergeTags tags (opt_tags options)) |}.

(** One when the pending card of the scanner has a front, zero
    otherwise. *)
Definition pendingFront (st : ScanState) : nat :=
  if optTruthy (pc_front (currentCard st)) then 1%nat else 0%nat.

(** The lines that open a question. *)
Definition questionLines (lines : list str) : list str :=
  List.filter (labelled "q:" "question:") lines.

(** A [JSON.parse] that answers every text with the same value. *)
Definition constantParser (value : Json) : str -> option Json := fun _ => Some value.

(** A card of the model with padded front and a type outside the enum. *)
Definition oddCard : Json :=
  JObj [("front" : str, JStr " Q "); ("back" : str, JStr "A"); ("type" : str, JStr "essay")].

(** The Anthropic provider as the generator holds it: it was built from
    [given], [getConfig] and [validateConfig] are its methods, and
    [authenticate] settles as the service decides. *)
Definition anthropicProvider (given : ProviderConfig)
    (authenticate : ProviderConfig -> result bool) : ProviderAdmin :=
  {| provider_getConfig := asProviderConfig (getConfig (Anthropic.construct given));
     provider_validateConfig := fun config => fst (Anthropic.validateConfig config);
     provider_authenticate := authenticate |}.

(** The API key as it is sent: the empty text when there is none. *)
Definition sentApiKey (config : ProviderConfig) : str :=
  if optTruthy (apiKey config) then default [] (apiKey config) else [].

(** A configuration whose custom headers replace [Content-Type] and have
    a property named [__proto__]. *)
Definition protoConfig : ProviderConfig :=
  {| apiKey := Some ("sk-ant-key" : str); endpoint := None; model := None;
     customHeaders :=
       Some (<["__proto__" := ("x" : str)]>
               (<["Content-Type" := ("text/plain" : str)]> ∅)) |}.

(** The number of line feeds at the start of a text. *)
Fixpoint leadingLineFeeds (s : str) : nat :=
  match s with
  | c :: r => if Ascii.eqb c Js.LF then S (leadingLineFeeds r) else 0
  | [] => 0
  end.

(** A template without placeholder. *)
Definition fixedTemplate : PromptTemplate :=
  {| tpl_id := "fixed"; tpl_name := "Fixed"; tpl_description := [];
     tpl_template := " Make five cards. "; tpl_variables := [];
     tpl_cardTypes := [CardType_value OneWay] |}.

(** A note that opens with a block of front matter. *)
Definition frontMatter : str := [Js.LF] ++ "title: Cells" ++ [Js.LF].

Definition noteBody : str := "The cell is the unit of life.".

(** A request for at most one card of type OneWay. *)
Definition oneCardOptions : GenerationOptions :=
  {| opt_maxCards := Some 1%Z; opt_cardTypes := [CardType_value OneWay];
     opt_customPrompt := None; opt_tags := None |}.

(** The texts the line scanner holds are trimmed, and the cards it has
    emitted carry the tags of the options, merged. *)
Definition scanTight (options : GenerationOptions) (st : ScanState) : Prop :=
  (forall f, pc_front (currentCard st) = Some f -> tight f)
  /\ (forall b, pc_back (currentCard st) = Some b -> tight b)
  /\ pc_tags (currentCard st) = None
  /\ Forall (fun card => tight (card_front card) /\ tight (card_back card)
                         /\ card_tags card = Some (mergeTags None (opt_tags options)))
       (cards st).

(** * Facts about the string primitives *)

Section StringFacts.

Implicit Types (s d p q : str) (c : ascii).

Lemma startsWith_spec s d : Js.startsWith s d = true <-> exists q, s = d ++ q.
Proof.
  revert s. induction d as [|x d IH]; intros s; simpl.
  - split; [intros _; by exists s | done].
  - destruct s as [|y s].
    + split; [done | intros [q Hq]; discriminate].
    + rewrite andb_true_iff, Ascii.eqb_eq, IH. split.
      * intros [-> [q ->]]. by exists q.
      * intros [q Hq]. injection Hq as -> ->. split; [done | by exists q].
Qed.

Lemma includes_spec s d : Js.includes s d = true <-> contains s d.
Proof.
  unfold contains. induction s as [|y s IH]; simpl.
  - rewrite orb_false_r, startsWith_spec. split.
    + intros [q Hq]. by exists [], q.
    + intros (p & q & Hpq). destruct p; [by exists q | discriminate].
  - rewrite orb_true_iff, startsWith_spec, IH. split.
    + intros [[q Hq] | (p & q & Hpq)].
      * by exists [], q.
      * exists (y :: p), q. by rewrite Hpq.
    + intros (p & q & Hpq). destruct p as [|z p]; simpl in Hpq.
      * left. by exists q.
      * right. injection Hpq as -> ->. by exists p, q.
Qed.

Lemma includes_false s d : Js.includes s d = false <-> ~ contains s d.
Proof. rewrite <- includes_spec. by destruct (Js.includes s d). Qed.

Lemma includes_middle p d q : Js.includes (p ++ d ++ q) d = true.
Proof. apply includes_spec. by exists p, q. Qed.

Lemma contains_app_l s d q : contains s d -> contains (s ++ q) d.
Proof.
  intros (p & r & ->). exists p, (r ++ q). by rewrite <- !app_assoc.
Qed.

Lemma contains_app_r s d p : contains s d -> contains (p ++ s) d.
Proof.
  intros (p' & r & ->). exists (p ++ p'), r. by rewrite <- !app_assoc.
Qed.

Lemma contains_head_In s c d : contains s (c :: d) -> In c s.
Proof. intros (p & q & ->). apply in_app_iff. right. by left. Qed.

Lemma includes_char s c : Js.includes s [c] = true <-> In c s.
Proof.
  rewrite includes_spec. split.
  - apply contains_head_In.
  - intros (p & q & ->)%in_split. by exists p, q.
Qed.

(** A character that does not occur in [d] separates the occurrences of
    [d]: each lies wholly on one side of it. *)
Lemma startsWith_sep s d c q :
  ~ In c d -> Js.startsWith (s ++ c :: q) d = Js.startsWith s d.
Proof.
  revert s. induction d as [|x d IH]; intros s Hc; [done|].
  destruct s as [|y s]; simpl.
  - destruct (Ascii.eqb_spec x c) as [->|]; [|done].
    exfalso. apply Hc. by left.
  - rewrite IH; [done|]. intros ?. apply Hc. by right.
Qed.

Lemma includes_sep s d c q :
  ~ In c d -> Js.includes (s ++ c :: q) d = Js.includes s d || Js.includes q d.
Proof.
  intros Hc. induction s as [|y s IH].
  - simpl. rewrite orb_false_r.
    change (c :: q) with ([] ++ c :: q) at 1. by rewrite startsWith_sep.
  - change ((y :: s) ++ c :: q) with (y :: (s ++ c :: q)).
    cbn [Js.includes]. rewrite IH.
    change (y :: s ++ c :: q) with ((y :: s) ++ c :: q).
    rewrite startsWith_sep by done. by rewrite orb_assoc.
Qed.

Lemma trimStart_suffix s : exists p, s = p ++ Js.trimStart s.
Proof.
  induction s as [|c s [p IH]]; simpl.
  - by exists [].
  - destruct (Js.isWhiteSpace c).
    + exists (c :: p). by rewrite IH at 1.
    + by exists [].
Qed.

Lemma trimEnd_prefix s : exists q, s = Js.trimEnd s ++ q.
Proof.
  unfold Js.trimEnd. destruct (trimStart_suffix (rev s)) as [p Hp].
  exists (rev p). rewrite <- rev_app_distr, <- Hp. by rewrite rev_involutive.
Qed.

Lemma trim_middle s : exists p q, s = p ++ Js.trim s ++ q.
Proof.
  unfold Js.trim. destruct (trimStart_suffix s) as [p Hp].
  destruct (trimEnd_prefix (Js.trimStart s)) as [q Hq].
  exists p, q. by rewrite <- Hq.
Qed.

Lemma contains_trim s d : contains (Js.trim s) d -> contains s d.
Proof.
  intros H. destruct (trim_middle s) as (p & q & Hs). rewrite Hs.
  by apply contains_app_r, contains_app_l.
Qed.

Lemma trimStart_nil_iff s : Js.trimStart s = [] <-> Forall (fun c => Js.isWhiteSpace c = true) s.
Proof.
  induction s as [|c s IH]; simpl.
  - split; [constructor | done].
  - destruct (Js.isWhiteSpace c) eqn:E.
    + rewrite IH. split; [by constructor | by inversion 1].
    + split; [done | inversion 1; congruence].
Qed.

Lemma trim_nil_iff s : Js.trim s = [] <-> Forall (fun c => Js.isWhiteSpace c = true) s.
Proof.
  unfold Js.trim, Js.trimEnd. split.
  - intros H. apply (f_equal (@rev ascii)) in H. rewrite rev_involutive in H.
    simpl in H. apply trimStart_nil_iff in H. apply Forall_rev in H.
    rewrite rev_involutive in H.
    destruct (trimStart_suffix s) as [p Hp].
    destruct (Js.trimStart s) as [|c r] eqn:E.
    + by apply trimStart_nil_iff.
    + exfalso. clear Hp. revert E. induction s as [|x s IHs]; simpl; [done|].
      destruct (Js.isWhiteSpace x) eqn:Ex; [done|]. intros [= -> ->].
      inversion H; congruence.
  - intros H. apply trimStart_nil_iff in H. by rewrite H.
Qed.

End StringFacts.

(** * The text cleaning of the encoder *)

Section CleanText.

Implicit Types (s d text : str) (c : ascii).

(** After [replace(/\s+/g, ' ')] the only white space left is the space
    character. *)
Lemma replace_ws_runs_from_space inws s c :
  In c (replace_ws_runs_from inws s) -> Js.isWhiteSpace c = true -> c = Js.SP.
Proof.
  revert inws. induction s as [|x s IH]; intros inws; simpl; [done|].
  destruct (Js.isWhiteSpace x) eqn:Ex.
  - destruct inws; simpl; [apply IH|]. intros [<-|Hin] Hc; [done | by eapply IH].
  - simpl. intros [<-|Hin] Hc; [congruence | by eapply IH].
Qed.

Lemma replace_ws_runs_no_line_feed s : ~ In Js.LF (replace_ws_runs s).
Proof.
  intros Hin. by apply replace_ws_runs_from_space in Hin.
Qed.

(** A text without line feed has no match of [/\n\s*\n/]. *)
Lemma replace_blank_lines_id s : ~ In Js.LF s -> replace_blank_lines s = s.
Proof.
  unfold replace_blank_lines. induction s as [|x s IH]; simpl; [done|].
  intros Hin. destruct (Ascii.eqb_spec x Js.LF) as [->|_].
  - exfalso. apply Hin. by left.
  - rewrite IH; [done|]. intros ?. apply Hin. by right.
Qed.

(** The third step of [cleanText] never changes anything. *)
Lemma cleanText_two_steps text : cleanText text = replace_ws_runs (Js.trim text).
Proof.
  unfold cleanText. apply replace_blank_lines_id, replace_ws_runs_no_line_feed.
Qed.

Lemma startsWith_replace_ws_runs s d :
  Forall (fun c => Js.isWhiteSpace c = false) d ->
  Js.startsWith (replace_ws_runs_from false s) d = true -> Js.startsWith s d = true.
Proof.
  intros Hd. revert s. induction Hd as [|x d Hx Hd IH]; intros s; [done|].
  destruct s as [|y s]; simpl; [done|].
  destruct (Js.isWhiteSpace y) eqn:Ey; simpl.
  - destruct (Ascii.eqb_spec x Js.SP) as [->|]; [done|done].
  - rewrite !andb_true_iff. intros [? ?]. split; [done | by apply IH].
Qed.

Lemma includes_replace_ws_runs inws s x d :
  Forall (fun c => Js.isWhiteSpace c = false) (x :: d) ->
  Js.includes (replace_ws_runs_from inws s) (x :: d) = true ->
  Js.includes s (x :: d) = true.
Proof.
  intros Hd. revert inws. induction s as [|y s IH]; intros inws; [done|].
  cbn [replace_ws_runs_from]. destruct (Js.isWhiteSpace y) eqn:Ey.
  - assert (Js.includes (replace_ws_runs_from true s) (x :: d) = true ->
            Js.includes (y :: s) (x :: d) = true) as Hskip.
    { intros H%IH. cbn [Js.includes]. rewrite H. apply orb_true_r. }
    destruct inws; [done|].
    cbn [Js.includes Js.startsWith].
    destruct (Ascii.eqb_spec x Js.SP) as [->|_]; [by inversion Hd|done].
  - cbn [Js.includes]. rewrite !orb_true_iff. intros [H|H].
    + left. revert H. cbn [Js.startsWith]. rewrite !andb_true_iff.
      intros [? ?]. split; [done|].
      apply startsWith_replace_ws_runs; [by inversion Hd | done].
    + right. by eapply IH.
Qed.

(** Cleaning introduces no occurrence of a text made of characters other
    than white space. *)
Lemma includes_cleanText text x d :
  Forall (fun c => Js.isWhiteSpace c = false) (x :: d) ->
  Js.includes text (x :: d) = false -> Js.includes (cleanText text) (x :: d) = false.
Proof.
  intros Hd Hno. apply not_true_is_false. intros H.
  rewrite cleanText_two_steps in H. apply includes_replace_ws_runs in H; [|done].
  apply includes_spec, contains_trim, includes_spec in H. congruence.
Qed.

(** C2 (the code departs from the claim): whatever the text, the cleaned
    text holds no line break at all.  [replace(/\s+/g, ' ')] turns every
    line feed into a space before [replace(/\n\s*\n/g, '\n')] runs, so a
    single line break between two words is not preserved. *)
Theorem cleanText_drops_line_breaks text : ~ In Js.LF (cleanText text).
Proof.
  rewrite cleanText_two_steps. apply replace_ws_runs_no_line_feed.
Qed.

(** The card of the suite "should preserve intentional line breaks". *)
Example cleanText_line_break :
  cleanText ("Multi-line" ++ [Js.LF] ++ "question") = "Multi-line question".
Proof. reflexivity. Qed.

Example cleanText_blank_lines :
  cleanText ("Answer" ++ [Js.LF; Js.LF; Js.LF] ++ "with") = "Answer with".
Proof. reflexivity. Qed.

(** What the first two steps do achieve: the white space that is left is
    made of single space characters. *)
Lemma cleanText_only_spaces text c :
  In c (cleanText text) -> Js.isWhiteSpace c = true -> c = Js.SP.
Proof. rewrite cleanText_two_steps. apply replace_ws_runs_from_space. Qed.

Lemma replace_ws_runs_after_space s :
  Js.startsWith (replace_ws_runs_from true s) [Js.SP] = false.
Proof.
  induction s as [|x s IH]; [done|]. cbn [replace_ws_runs_from].
  destruct (Js.isWhiteSpace x) eqn:Ex; [done|]. cbn [Js.startsWith].
  destruct (Ascii.eqb_spec Js.SP x) as [<-|_]; [done|done].
Qed.

Lemma replace_ws_runs_single_spaces inws s :
  Js.includes (replace_ws_runs_from inws s) [Js.SP; Js.SP] = false.
Proof.
  revert inws. induction s as [|x s IH]; intros inws; [done|].
  cbn [replace_ws_runs_from]. destruct (Js.isWhiteSpace x) eqn:Ex.
  - destruct inws; [done|]. cbn [Js.includes]. rewrite IH, orb_false_r.
    cbn [Js.startsWith]. change (Ascii.eqb Js.SP Js.SP) with true. cbn [andb].
    apply replace_ws_runs_after_space.
  - cbn [Js.includes]. rewrite IH, orb_false_r. cbn [Js.startsWith].
    destruct (Ascii.eqb_spec Js.SP x) as [<-|_]; [done|done].
Qed.

Lemma cleanText_single_spaces text : Js.includes (cleanText text) "  " = false.
Proof. rewrite cleanText_two_steps. apply replace_ws_runs_single_spaces. Qed.

Lemma trimStart_head s c r : Js.trimStart s = c :: r -> Js.isWhiteSpace c = false.
Proof.
  induction s as [|x s IH]; simpl; [done|].
  destruct (Js.isWhiteSpace x) eqn:Ex; [done|]. by intros [= <- _].
Qed.

Lemma trimStart_snoc s c :
  Js.isWhiteSpace c = false -> Js.trimStart (s ++ [c]) = Js.trimStart s ++ [c].
Proof.
  intros Hc. induction s as [|x s IH]; simpl; [by rewrite Hc|].
  by destruct (Js.isWhiteSpace x).
Qed.

Lemma trim_tight s : tight (Js.trim s).
Proof.
  unfold Js.trim, Js.trimEnd. split.
  - intros c r. destruct (Js.trimStart s) as [|h t] eqn:E; [done|].
    pose proof (trimStart_head _ _ _ E) as Hh.
    change (rev (h :: t)) with (rev t ++ [h]).
    rewrite trimStart_snoc, rev_app_distr by done. by intros [= <- _].
  - intros c r. rewrite rev_involutive. apply trimStart_head.
Qed.

Lemma tight_trim s : tight s -> Js.trim s = s.
Proof.
  intros [Hhead Hlast]. unfold Js.trim, Js.trimEnd.
  assert (forall l, (forall c r, l = c :: r -> Js.isWhiteSpace c = false) -> Js.trimStart l = l)
    as Hid.
  { intros [|c r] H; simpl; [done|]. by rewrite (H c r). }
  rewrite (Hid s) by done. rewrite (Hid (rev s)) by done. apply rev_involutive.
Qed.

Lemma replace_ws_runs_last inws s c r :
  rev s = c :: r -> Js.isWhiteSpace c = false ->
  exists r', rev (replace_ws_runs_from inws s) = c :: r'.
Proof.
  revert inws r. induction s as [|x s IH]; intros inws r; [done|].
  simpl rev. destruct (rev s) as [|c0 r0] eqn:E.
  - apply (f_equal (@rev ascii)) in E. rewrite rev_involutive in E. subst s.
    intros [= -> <-] Hc. cbn [replace_ws_runs_from]. rewrite Hc. by exists [].
  - intros [= <- <-] Hc. cbn [replace_ws_runs_from].
    destruct (Js.isWhiteSpace x).
    + destruct inws.
      * by eapply IH.
      * destruct (IH true r0 eq_refl Hc) as [r' Hr']. simpl. rewrite Hr'. by eexists.
    + destruct (IH false r0 eq_refl Hc) as [r' Hr']. simpl. rewrite Hr'. by eexists.
Qed.

Lemma replace_ws_runs_tight s : tight s -> tight (replace_ws_runs s).
Proof.
  intros [Hhead Hlast]. split.
  - intros c r. unfold replace_ws_runs. destruct s as [|x s]; [done|].
    cbn [replace_ws_runs_from]. rewrite (Hhead x s eq_refl). intros [= <- _].
    by apply (Hhead x s).
  - intros c r. destruct (rev s) as [|c0 r0] eqn:E.
    + apply (f_equal (@rev ascii)) in E. rewrite rev_involutive in E. by subst s.
    + destruct (replace_ws_runs_last false s c0 r0 E) as [r' Hr']; [by eapply Hlast|].
      unfold replace_ws_runs. rewrite Hr'. intros [= <- _]. by eapply Hlast.
Qed.

(** The cleaned text is trimmed. *)
Lemma cleanText_trimmed text : Js.trim (cleanText text) = cleanText text.
Proof.
  rewrite cleanText_two_steps. apply tight_trim, replace_ws_runs_tight, trim_tight.
Qed.

Lemma replace_ws_runs_twice s :
  replace_ws_runs_from false (replace_ws_runs_from false s) = replace_ws_runs_from false s
  /\ replace_ws_runs_from false (replace_ws_runs_from true s) = replace_ws_runs_from true s
  /\ replace_ws_runs_from true (replace_ws_runs_from true s) = replace_ws_runs_from true s.
Proof.
  induction s as [|x s (IH1 & IH2 & IH3)]; [done|].
  cbn [replace_ws_runs_from]. destruct (Js.isWhiteSpace x) eqn:Ex; [|].
  - split; [|done]. cbn [replace_ws_runs_from].
    change (Js.isWhiteSpace Js.SP) with true. cbn iota. by rewrite IH3.
  - cbn [replace_ws_runs_from]. rewrite Ex, IH1. done.
Qed.

(** Cleaning a cleaned text changes nothing. *)
Lemma cleanText_idempotent text : cleanText (cleanText text) = cleanText text.
Proof.
  rewrite (cleanText_two_steps (cleanText text)), cleanText_trimmed.
  rewrite cleanText_two_steps. apply replace_ws_runs_twice.
Qed.

End CleanText.

(** * Detection of the card type *)

Section Detection.

Implicit Types (s m t p q : str) (c : ascii).

Lemma span_close_spec s :
  span_close s = true <-> exists t q, s = t ++ "==" ++ q /\ ~ In "="%char t.
Proof.
  induction s as [|c s IH]; simpl.
  - split; [done|]. intros (t & q & H & _). by destruct t.
  - destruct (Ascii.eqb_spec c "=") as [->|Hc].
    + split.
      * destruct s as [|c2 s]; [done|]. intros ->%Ascii.eqb_eq.
        exists [], s. split; [done | by intros []].
      * intros (t & q & H & Ht). destruct t as [|x t]; simpl in H.
        -- injection H as ->. done.
        -- injection H as <- _. exfalso. apply Ht. by left.
    + rewrite IH. split.
      * intros (t & q & -> & Ht). exists (c :: t), q. split; [done|].
        intros [?|?]; [congruence | done].
      * intros (t & q & H & Ht). destruct t as [|x t]; simpl in H.
        -- injection H as Hx _. congruence.
        -- injection H as <- ->. exists t, q. split; [done|].
           intros ?. apply Ht. by right.
Qed.

Lemma span_at_spec s :
  span_at s = true <->
  exists t q, s = "==" ++ t ++ "==" ++ q /\ t <> [] /\ ~ In "="%char t.
Proof.
  unfold span_at. split.
  - destruct s as [|a [|b [|c r]]]; [done..|].
    rewrite !andb_true_iff, negb_true_iff, !Ascii.eqb_eq, Ascii.eqb_neq.
    intros [[[-> ->] Hc] (t & q & -> & Ht)%span_close_spec].
    exists (c :: t), q. split; [done|]. split; [done|].
    intros [?|?]; [congruence | done].
  - intros (t & q & -> & Hne & Ht). destruct t as [|c t]; [done|]. simpl.
    rewrite andb_true_iff, negb_true_iff, Ascii.eqb_neq. split.
    + intros ->. apply Ht. by left.
    + apply span_close_spec. exists t, q. split; [done|].
      intros ?. apply Ht. by right.
Qed.

Lemma match_cloze_span_spec s : match_cloze_span s = true <-> has_cloze_span s.
Proof.
  unfold has_cloze_span. induction s as [|c s IH]; simpl.
  - split; [done|]. intros (p & t & q & H & _). by destruct p.
  - rewrite orb_true_iff, IH. fold (span_at (c :: s)).
    rewrite span_at_spec. split.
    + intros [(t & q & H & Ht) | (p & t & q & -> & Ht)].
      * exists [], t, q. done.
      * exists (c :: p), t, q. done.
    + intros (p & t & q & H & Ht). destruct p as [|x p]; simpl in H.
      * left. by exists t, q.
      * right. injection H as -> ->. by exists p, t, q.
Qed.

(** C5 (amended): [detectCardType] returns exactly what the priority rule
    prescribes: MultiLineBidirectional when the markup contains [???],
    else Bidirectional when it contains [:::], else OneWay when it
    contains [::], else MultiLine when it contains [?], else Cloze when it
    contains [==] and a span [==text==] whose text is non-empty and holds
    no [=], and otherwise no type. *)
Theorem detectCardType_priority m r :
  detectCardType m = r <-> detectType_rule has_cloze_span m r.
Proof.
  unfold detectCardType. split.
  - intros <-.
    destruct (Js.includes m "???") eqn:E1;
      [constructor; by apply includes_spec|apply includes_false in E1].
    destruct (Js.includes m ":::") eqn:E2;
      [constructor; [done | by apply includes_spec]|apply includes_false in E2].
    destruct (Js.includes m "::") eqn:E3;
      [constructor; [done.. | by apply includes_spec]|apply includes_false in E3].
    destruct (Js.includes m "?") eqn:E4;
      [constructor; [done.. | by apply includes_spec]|apply includes_false in E4].
    destruct (Js.includes m "==") eqn:E5; simpl.
    + destruct (match_cloze_span m) eqn:E6.
      * apply detect_cloze; try done; [by apply includes_spec | by apply match_cloze_span_spec].
      * apply detect_none; try done. intros [_ H%match_cloze_span_spec]. congruence.
    + apply detect_none; try done. intros [H%includes_spec _]. congruence.
  - intros H. destruct H as [H1|H1 H2|H1 H2 H3|H1 H2 H3 H4|H1 H2 H3 H4 H5 H6|H1 H2 H3 H4 H5];
      repeat match goal with
             | H : contains _ _ |- _ => apply includes_spec in H; rewrite H
             | H : ~ contains _ _ |- _ => apply includes_false in H; rewrite H
             end; try done.
    + apply match_cloze_span_spec in H6. by rewrite H6.
    + destruct (Js.includes m "==") eqn:E5; [|done]. simpl.
      destruct (match_cloze_span m) eqn:E6; [|done].
      exfalso. apply H5. split; [by apply includes_spec | by apply match_cloze_span_spec].
Qed.

(** C5 as stated fails: the markup [Energy ==E=mc^2==] holds none of the
    other separators and the non-empty span [==E=mc^2==], so that the rule
    of the specification gives Cloze, and [detectCardType] returns no type,
    the text of the span holding an [=]. *)
Lemma detection_counterexample : ~ detection_claim.
Proof.
  intros H.
  assert (detectCardType energyMarkup = Some Cloze) as Hcloze; [|done].
  apply H. apply detect_cloze; try (by apply includes_false).
  - by apply includes_spec.
  - by exists ("Energy " : str), ("E=mc^2" : str), [].
Qed.

End Detection.

(** * Encoding a card and detecting its type again *)

Section RoundTrip.

Implicit Types (s f b front back : str) (c : ascii) (t : CardType).

#[local] Arguments Ascii.eqb : simpl never.

Lemma endsWith_spec s d : Js.endsWith s d = true <-> exists p, s = p ++ d.
Proof.
  unfold Js.endsWith. rewrite startsWith_spec. split.
  - intros [q Hq]. exists (rev q).
    apply (f_equal (@rev ascii)) in Hq.
    by rewrite rev_involutive, rev_app_distr, rev_involutive in Hq.
  - intros [p ->]. exists (rev p). by rewrite rev_app_distr.
Qed.

Lemma endsWith_cons s d c : Js.endsWith s d = true -> Js.endsWith (c :: s) d = true.
Proof.
  rewrite !endsWith_spec. intros [p ->]. by exists (c :: p).
Qed.

Lemma includes_cons s d c : Js.includes s d = true -> Js.includes (c :: s) d = true.
Proof. intros H. cbn [Js.includes]. rewrite H. apply orb_true_r. Qed.



Ltac starts_cases H :=
  cbn in H;
  rewrite ?andb_false_r, ?andb_true_r, ?andb_true_iff, ?Ascii.eqb_eq in H;
  try discriminate H; destruct_and?; subst.

Lemma includes_colons_join (f b : str) :
  Js.includes (f ++ "::" ++ b) ":::" = true ->
  Js.includes f ":::" = true \/ Js.endsWith f ":" = true
  \/ Js.startsWith b ":" = true \/ Js.includes b ":::" = true.
Proof.
  induction f as [|c f IH].
  - cbn. rewrite !Ascii.eqb_refl. destruct b as [|x b]; [done|].
    destruct (Ascii.eqb ":" x) eqn:E; cbn; rewrite ?E; [by eauto|].
    cbn. intros H. by do 3 right.
  - change ((c :: f) ++ "::" ++ b) with (c :: (f ++ "::" ++ b)).
    cbn [Js.includes]. rewrite orb_true_iff. intros [H|H].
    + destruct f as [|x [|y f]]; starts_cases H.
      * right. by left.
      * right. by left.
      * left. cbn. by rewrite !Ascii.eqb_refl.
    + destruct (IH H) as [?|[?|[?|?]]]; eauto using includes_cons, endsWith_cons.
Qed.

Lemma includes_questions_join (f : str) :
  Js.includes (f ++ "?") "???" = true ->
  Js.includes f "???" = true \/ Js.endsWith f "??" = true.
Proof.
  induction f as [|c f IH]; [done|].
  change ((c :: f) ++ "?") with (c :: (f ++ "?")).
  cbn [Js.includes]. rewrite orb_true_iff. intros [H|H].
  - destruct f as [|x [|y f]]; starts_cases H.
    + by right.
    + left. cbn. by rewrite !Ascii.eqb_refl.
  - destruct (IH H) as [?|?]; eauto using includes_cons, endsWith_cons.
Qed.

Lemma CardType_of_value_value t : CardType_of_value (CardType_value t) = Some t.
Proof. by destruct t. Qed.

Lemma encode_eq front back t :
  encode front back t =
  Some (match t with
        | OneWay => cleanText front ++ "::" ++ cleanText back
        | Bidirectional => cleanText front ++ ":::" ++ cleanText back
        | MultiLine => cleanText front ++ "?" ++ [Js.LF] ++ cleanText back
        | MultiLineBidirectional => cleanText front ++ "???" ++ [Js.LF] ++ cleanText back
        | Cloze => cleanText front
        end).
Proof.
  unfold encode, formatCard. cbn [mkCard card_type].
  rewrite CardType_of_value_value. by destruct t.
Qed.

Lemma includes_no_char (s : str) c d : ~ In c s -> Js.includes s (c :: d) = false.
Proof.
  intros Hc. apply includes_false. by intros H%contains_head_In.
Qed.

Lemma not_In_char (s : str) c : Js.includes s [c] = false -> ~ In c s.
Proof. intros H Hin%includes_char. congruence. Qed.


Lemma delimiterFree_spec t s :
  delimiterFree t s = true ->
  forall t', t' <> t -> Js.includes s (getSeparator t') = false.
Proof.
  unfold delimiterFree, otherDelimiters. rewrite forallb_forall.
  intros H t' Hne. apply negb_true_iff, H, in_map, filter_In. split.
  - destruct t'; cbn; tauto.
  - by apply negb_true_iff, bool_decide_eq_false.
Qed.

Lemma includes_cleanText_separator t s :
  Js.includes s (getSeparator t) = false ->
  Js.includes (cleanText s) (getSeparator t) = false.
Proof. destruct t; apply includes_cleanText; repeat constructor. Qed.

(** A text free of the separators of the other card types stays so when it
    is cleaned. *)
Lemma delimiterFree_cleanText t s :
  delimiterFree t s = true ->
  forall t', t' <> t -> Js.includes (cleanText s) (getSeparator t') = false.
Proof.
  intros H t' Hne. by apply includes_cleanText_separator, (delimiterFree_spec t).
Qed.

Lemma roundtrip_sufficient t front back :
  t <> Cloze ->
  delimiterFree t front = true ->
  delimiterFree t back = true ->
  boundaryClean t front back = true ->
  exists markup, encode front back t = Some markup /\ detectCardType markup = Some t.
Proof.
  intros Ht Hf0 Hb0 Hbd.
  pose proof (delimiterFree_cleanText _ _ Hf0) as Hf.
  pose proof (delimiterFree_cleanText _ _ Hb0) as Hb. clear Hf0 Hb0.
  rewrite encode_eq. eexists. split; [done|].
  unfold detectCardType, boundaryClean in *.
  set (f := cleanText front) in *. set (b := cleanText back) in *. clearbody f b.
  destruct t; [| | | |done].
  - (* OneWay: f ++ "::" ++ b *)
    apply andb_true_iff in Hbd as [Hend%negb_true_iff Hstart%negb_true_iff].
    pose proof (Hf MultiLine ltac:(done)) as Hqf%not_In_char.
    pose proof (Hb MultiLine ltac:(done)) as Hqb%not_In_char.
    pose proof (Hf Bidirectional ltac:(done)) as Hcf.
    pose proof (Hb Bidirectional ltac:(done)) as Hcb.
    cbn [getSeparator list_ascii_of_string] in *.
    rewrite includes_no_char.
    2:{ rewrite !in_app_iff. cbn. intuition discriminate. }
    destruct (Js.includes (f ++ [":"%char; ":"%char] ++ b) [":"%char; ":"%char; ":"%char]) eqn:E.
    { apply includes_colons_join in E as [E|[E|[E|E]]]; cbn [list_ascii_of_string] in E; congruence. }
    by rewrite includes_middle.
  - (* Bidirectional: f ++ ":::" ++ b *)
    pose proof (Hf MultiLine ltac:(done)) as Hqf%not_In_char.
    pose proof (Hb MultiLine ltac:(done)) as Hqb%not_In_char.
    cbn [getSeparator list_ascii_of_string] in *.
    rewrite includes_no_char.
    2:{ rewrite !in_app_iff. cbn. intuition discriminate. }
    by rewrite includes_middle.
  - (* MultiLine: f ++ "?" ++ [LF] ++ b *)
    apply negb_true_iff in Hbd.
    pose proof (Hf MultiLineBidirectional ltac:(done)) as Hqf.
    pose proof (Hb MultiLineBidirectional ltac:(done)) as Hqb.
    pose proof (Hf Bidirectional ltac:(done)) as Hcf.
    pose proof (Hb Bidirectional ltac:(done)) as Hcb.
    pose proof (Hf OneWay ltac:(done)) as Hof.
    pose proof (Hb OneWay ltac:(done)) as Hob.
    cbn [getSeparator list_ascii_of_string] in *.
    replace (f ++ ["?"%char] ++ [Js.LF] ++ b) with ((f ++ ["?"%char]) ++ Js.LF :: b)
      by (by rewrite <- app_assoc).
    assert (forall d, ~ In Js.LF d -> Js.includes b d = false ->
              Js.includes ((f ++ ["?"%char]) ++ Js.LF :: b) d = Js.includes (f ++ ["?"%char]) d)
      as Hsep.
    { intros d Hd Hbd'. by rewrite includes_sep, Hbd', orb_false_r. }
    rewrite !Hsep by (done || (cbn; intuition discriminate)).
    destruct (Js.includes (f ++ ["?"%char]) ["?"%char; "?"%char; "?"%char]) eqn:E.
    { apply includes_questions_join in E as [E|E]; cbn [list_ascii_of_string] in E; congruence. }
    rewrite !(includes_sep f _ "?" []) by (cbn; intuition discriminate).
    rewrite Hcf, Hof. cbn [Js.includes Js.startsWith orb].
    rewrite <- app_assoc. by rewrite (includes_middle f ["?"%char]).
  - (* MultiLineBidirectional: f ++ "???" ++ [LF] ++ b *)
    cbn [list_ascii_of_string].
    by rewrite (includes_middle f ["?"%char; "?"%char; "?"%char]).
Qed.

Lemma contains_includes (s d : str) : contains s d -> Js.includes s d = true.
Proof. apply includes_spec. Qed.

Lemma detect_not_oneway (m : str) :
  Js.includes m ":::" = true -> detectCardType m <> Some OneWay.
Proof. unfold detectCardType. intros ->. by destruct (Js.includes m "???"). Qed.

Lemma detect_not_multiline (m : str) :
  Js.includes m "???" = true -> detectCardType m <> Some MultiLine.
Proof. unfold detectCardType. by intros ->. Qed.

(** When the boundary condition fails, the separator merges with its
    neighbour and a type of higher priority is detected. *)
Lemma roundtrip_necessary t front back markup :
  t <> Cloze ->
  encode front back t = Some markup ->
  detectCardType markup = Some t ->
  boundaryClean t front back = true.
Proof.
  intros Ht. rewrite encode_eq. intros [= <-]. unfold boundaryClean.
  set (f := cleanText front). set (b := cleanText back). clearbody f b.
  destruct t; try done; intros Hdet.
  - destruct (Js.endsWith f ":") eqn:Eend.
    { exfalso. eapply detect_not_oneway; [|exact Hdet].
      apply endsWith_spec in Eend as [p ->].
      apply includes_spec. exists p, b. by rewrite <- app_assoc. }
    destruct (Js.startsWith b ":") eqn:Estart; [|done].
    exfalso. eapply detect_not_oneway; [|exact Hdet].
    apply startsWith_spec in Estart as [q ->].
    apply includes_spec. by exists f, q.
  - destruct (Js.endsWith f "??") eqn:Eend; [|done].
    exfalso. eapply detect_not_multiline; [|exact Hdet].
    apply endsWith_spec in Eend as [p ->].
    apply includes_spec. exists p, (Js.LF :: b). by rewrite <- app_assoc.
Qed.

(** C4 (amended): for each card type except Cloze and all front and back
    texts free of the separators of the other card types, the type
    detected in the encoded card is the original type exactly when the
    separator does not merge with the cleaned text next to it: for OneWay
    the cleaned front must not end with [:] nor the cleaned back start
    with [:], for MultiLine the cleaned front must not end with [??];
    Bidirectional and MultiLineBidirectional always come back. *)
Theorem roundtrip_amended t front back :
  t <> Cloze ->
  delimiterFree t front = true ->
  delimiterFree t back = true ->
  (exists markup, encode front back t = Some markup /\ detectCardType markup = Some t)
  <-> boundaryClean t front back = true.
Proof.
  intros Ht Hf Hb. split.
  - intros (markup & Henc & Hdet). by eapply roundtrip_necessary.
  - by apply roundtrip_sufficient.
Qed.

Lemma roundtrip_amended_witness :
  (exists markup, encode "Capital of France" "Paris" OneWay = Some markup
                  /\ detectCardType markup = Some OneWay)
  <-> boundaryClean OneWay "Capital of France" "Paris" = true.
Proof.
  apply (roundtrip_amended OneWay "Capital of France" "Paris");
    [discriminate | reflexivity | reflexivity].
Defined.

(** C4 as stated fails: a OneWay card whose front ends with a colon holds
    none of the other separators, yet its markup [What is it:::x] is
    detected as Bidirectional. *)
Lemma roundtrip_counterexample : ~ roundtrip_claim OneWay "What is it:" "x".
Proof.
  intros H. destruct H as (markup & Henc & Hdet); [done..|].
  vm_compute in Henc. injection Henc as <-. vm_compute in Hdet. discriminate.
Qed.

Example roundtrip_counterexample_multiline : ~ roundtrip_claim MultiLine "Why??" "x".
Proof.
  intros H. destruct H as (markup & Henc & Hdet); [done..|].
  vm_compute in Henc. injection Henc as <-. vm_compute in Hdet. discriminate.
Qed.

End RoundTrip.

(** * Chunking of long texts *)

Section Chunking.

Implicit Types (content : str) (words : list str) (st : ChunkState).

Lemma splitWs_from_nonempty inws content : (0 < length (Js.splitWs_from inws content))%nat.
Proof.
  revert inws. induction content as [|c s IH]; intros inws; simpl; [lia|].
  destruct (Js.isWhiteSpace c).
  - destruct inws; [apply IH | simpl; lia].
  - specialize (IH false). destruct (Js.splitWs_from false s); simpl in *; lia.
Qed.

(** With a positive overlap, an iteration that starts inside the word list
    ends with a start index that is again inside the word list. *)
Lemma chunkIter_continues words chunkSize overlapSize st :
  (0 < overlapSize)%Z ->
  (startIndex st < Z.of_nat (length words))%Z ->
  exists st',
    chunkIter words chunkSize overlapSize st = Continue st'
    /\ (startIndex st' < Z.of_nat (length words))%Z.
Proof.
  intros HO Hst. unfold chunkIter.
  destruct (Z.ltb_spec (startIndex st) (Z.of_nat (length words))) as [_|?]; [|lia].
  destruct (Z.geb_spec
              (Z.min (startIndex st + chunkSize) (Z.of_nat (length words)) - overlapSize)
              (Z.of_nat (length words))) as [?|_]; [lia|].
  eexists. split; [done|]. simpl. lia.
Qed.

Lemma chunkLoop_never_returns fuel words chunkSize overlapSize st :
  (0 < overlapSize)%Z ->
  (startIndex st < Z.of_nat (length words))%Z ->
  chunkLoop fuel words chunkSize overlapSize st = None.
Proof.
  intros HO. revert st. induction fuel as [|fuel IH]; intros st Hst; [done|].
  destruct (chunkIter_continues words chunkSize overlapSize st HO Hst) as (st' & Hiter & Hst').
  simpl. rewrite Hiter. by apply IH.
Qed.

(** The bounded loop finds exactly the terminating runs. *)
Lemma chunkLoop_runs words chunkSize overlapSize st result :
  chunkRuns words chunkSize overlapSize st result <->
  exists fuel, chunkLoop fuel words chunkSize overlapSize st = Some result.
Proof.
  split.
  - induction 1 as [st result Hiter|st st' result Hiter _ [fuel IH]].
    + exists 1%nat. simpl. by rewrite Hiter.
    + exists (S fuel). simpl. by rewrite Hiter.
  - intros [fuel Hloop]. revert st Hloop.
    induction fuel as [|fuel IH]; intros st; [done|]. simpl.
    destruct (chunkIter words chunkSize overlapSize st) as [st'|r] eqn:Hiter.
    + intros Hloop. eapply runs_continue; [done | by apply IH].
    + intros [= ->]. by apply runs_break.
Qed.

Lemma chunkContent_returns content chunkSize overlapSize result :
  chunkReturns content chunkSize overlapSize result <->
  exists fuel, chunkContent fuel content chunkSize overlapSize = Some result.
Proof.
  unfold chunkReturns, chunkContent.
  destruct (Z.of_nat (length (Js.splitWs content)) <=? chunkSize)%Z.
  - split; [intros ->; by exists 0%nat | by intros [_ [= <-]]].
  - apply chunkLoop_runs.
Qed.

(** C1 (the code departs from the claim): when the text has more words
    than the window and the overlap is positive, the loop of
    [chunkContent] is never left, however many iterations it is given,
    and so no list of chunks is returned: once a window ends at the last
    word the start index is set back to [words.length - overlapSize],
    which is still inside the word list. *)
Theorem chunkContent_never_returns content chunkSize overlapSize :
  (chunkSize < Z.of_nat (length (Js.splitWs content)))%Z ->
  (0 < overlapSize)%Z ->
  (forall fuel, chunkContent fuel content chunkSize overlapSize = None)
  /\ (forall result, ~ chunkReturns content chunkSize overlapSize result).
Proof.
  intros HW HO.
  assert (forall fuel, chunkContent fuel content chunkSize overlapSize = None) as Hnone.
  { intros fuel. unfold chunkContent.
    destruct (Z.leb_spec (Z.of_nat (length (Js.splitWs content))) chunkSize) as [?|_]; [lia|].
    apply chunkLoop_never_returns; [done|]. simpl.
    pose proof (splitWs_from_nonempty false content). unfold Js.splitWs. lia. }
  split; [done|].
  intros result [fuel Hfuel]%chunkContent_returns. by rewrite Hnone in Hfuel.
Qed.

Lemma chunkContent_never_returns_witness :
  (forall fuel, chunkContent fuel "a b c d" 3 1 = None)
  /\ (forall result, ~ chunkReturns "a b c d" 3 1 result).
Proof.
  apply (chunkContent_never_returns "a b c d" 3 1); [reflexivity | reflexivity].
Defined.

(** The first windows of that run: the last one comes again and again. *)
Example chunkContent_windows :
  let words := Js.splitWs "a b c d" in
  let st0 := {| startIndex := 0; chunks := [] |} in
  let st1 := {| startIndex := 2; chunks := ["a b c" : str] |} in
  let st2 := {| startIndex := 3; chunks := ["a b c" : str; "c d" : str] |} in
  let st3 := {| startIndex := 3; chunks := ["a b c" : str; "c d" : str; "d" : str] |} in
  chunkIter words 3 1 st0 = Continue st1
  /\ chunkIter words 3 1 st1 = Continue st2
  /\ chunkIter words 3 1 st2 = Continue st3.
Proof. repeat split. Qed.

(** Without overlap the same text is cut into its windows. *)
Example chunkContent_no_overlap :
  chunkContent 3 "a b c d" 3 0 = Some ["a b c" : str; "d" : str].
Proof. reflexivity. Qed.

(** A text that fits in one window is returned as it is. *)
Lemma chunkContent_short fuel content chunkSize overlapSize :
  (Z.of_nat (length (Js.splitWs content)) <= chunkSize)%Z ->
  chunkContent fuel content chunkSize overlapSize = Some [content].
Proof.
  intros H. unfold chunkContent.
  by destruct (Z.leb_spec (Z.of_nat (length (Js.splitWs content))) chunkSize); [|lia].
Qed.

End Chunking.

(** * The configuration a provider gives out *)

Section ProviderConfiguration.

(** C9: [getConfig] does not depend on the API key: two configurations
    with the same endpoint, model and custom headers give the same
    object, whose only properties are [endpoint], [model] and
    [customHeaders]; it has no property [apiKey]. *)
Theorem getConfig_hides_apiKey (c1 c2 : ProviderConfig) :
  endpoint c1 = endpoint c2 ->
  model c1 = model c2 ->
  customHeaders c1 = customHeaders c2 ->
  getConfig c1 = getConfig c2
  /\ getConfig c1 !! "apiKey" = None
  /\ dom (getConfig c1) = {["endpoint"; "model"; "customHeaders"]}.
Proof.
  intros He Hm Hh. unfold getConfig. rewrite He, Hm, Hh. split; [done|]. split.
  - by rewrite !lookup_insert_ne.
  - rewrite !dom_insert_L, dom_empty_L. set_solver.
Qed.

Lemma getConfig_hides_apiKey_witness :
  getConfig configFirst = getConfig configSecond
  /\ getConfig configFirst !! "apiKey" = None
  /\ dom (getConfig configFirst) = {["endpoint"; "model"; "customHeaders"]}.
Proof.
  apply (getConfig_hides_apiKey configFirst configSecond); reflexivity.
Defined.

End ProviderConfiguration.

(** * Requests turned down before the provider is called *)

Section InputValidation.

Implicit Types (content : str) (options : GenerationOptions) (provider : LLMProvider).

Lemma truthy_trim content : Js.truthy content = false -> Js.trim content = [].
Proof. by destruct content. Qed.

Lemma validateInput_rejects content options :
  rejectedInput content options ->
  exists message,
    validateInput content options = {| iv_isValid := false; iv_error := Some message |}.
Proof.
  intros Hrej. unfold validateInput.
  destruct (negb (Js.truthy content) || (length (Js.trim content) =? 0)%nat) eqn:E1;
    [by eexists|].
  apply orb_false_iff in E1 as [_ E1%Nat.eqb_neq].
  destruct (Nat.ltb_spec (length (Js.trim content)) 10) as [?|E2]; [by eexists|].
  destruct (Nat.eqb_spec (length (opt_cardTypes options)) 0) as [?|E3]; [by eexists|].
  destruct (find _ (opt_cardTypes options)) as [cardType|] eqn:E4; [by eexists|].
  exfalso. destruct Hrej as [H|[H|[H|(cardType & Hin & Hbad)]]].
  - by rewrite H in E1.
  - lia.
  - by rewrite H in E3.
  - eapply find_none in E4; [|exact Hin]. simpl in E4. by rewrite Hbad in E4.
Qed.

Lemma validateInput_accepts content options :
  ~ rejectedInput content options ->
  validateInput content options = {| iv_isValid := true; iv_error := None |}.
Proof.
  intros Hok. unfold validateInput, rejectedInput in *.
  destruct (negb (Js.truthy content) || (length (Js.trim content) =? 0)%nat) eqn:E1.
  { exfalso. apply Hok. left. apply orb_true_iff in E1 as [E1%negb_true_iff|E1%Nat.eqb_eq].
    - by apply truthy_trim.
    - by destruct (Js.trim content). }
  destruct (Nat.ltb_spec (length (Js.trim content)) 10) as [?|E2]; [tauto|].
  destruct (Nat.eqb_spec (length (opt_cardTypes options)) 0) as [E3|E3].
  { exfalso. apply Hok. do 2 right. left. by destruct (opt_cardTypes options). }
  destruct (find _ (opt_cardTypes options)) as [cardType|] eqn:E4; [|done].
  exfalso. apply find_some in E4 as [Hin Hbad%negb_true_iff].
  apply Hok. do 3 right. by exists cardType.
Qed.

(** C6: a request with empty content, with content shorter than the
    threshold of ten characters, without card types or with a card type
    outside the enum is answered, whatever the other options and the
    provider, by [success = false] with an error message, and the trace of
    effects is left as it was: the provider is not called. *)
Theorem generateFlashcards_rejects_early provider content options trace :
  rejectedInput content options ->
  exists message,
    generateFlashcards provider content options trace = (failure (Some message), trace)
    /\ res_success (failure (Some message)) = false.
Proof.
  intros [message Hv]%validateInput_rejects. exists message.
  unfold generateFlashcards. by rewrite Hv.
Qed.

Lemma generateFlashcards_rejects_early_witness :
  exists message,
    generateFlashcards plainProvider emptyContent defaultOptions [] = (failure (Some message), [])
    /\ res_success (failure (Some message)) = false.
Proof.
  apply (generateFlashcards_rejects_early plainProvider emptyContent defaultOptions []).
  left. reflexivity.
Defined.

(** Conversely an accepted request does reach the provider, first thing
    and with the arguments of the request. *)
Lemma generateFlashcards_calls_provider provider content options trace :
  ~ rejectedInput content options ->
  exists later,
    snd (generateFlashcards provider content options trace)
    = trace ++ ProviderCall content options :: later.
Proof.
  intros Hv%validateInput_accepts. unfold generateFlashcards. rewrite Hv.
  cbn [iv_isValid negb]. unfold callProvider, eff_bind, eff_emit, eff_ret.
  destruct (provider content options) as [response|error].
  2:{ unfold catchError, eff_bind, eff_emit, eff_ret. rewrite <- app_assoc. by eexists. }
  unfold processLLMResponse.
  destruct (length (resp_cards response) =? 0)%nat; [by exists []|].
  destruct (validateCards options 0 (resp_cards response) [] []) as [validated errors].
  destruct (length validated =? 0)%nat; [by exists []|].
  unfold catchError, eff_bind, eff_emit, eff_ret.
  destruct (0 <? length errors)%nat; cbn.
  - destruct (formatCards _ _); rewrite <- !app_assoc; by eexists.
  - destruct (formatCards _ _); [by exists []|]. rewrite <- !app_assoc. by eexists.
Qed.

End InputValidation.

(** * Validation of one card *)

Section Validation.

Implicit Types (card : RawFlashcard) (tag s : str).

Lemma flat_map_nil {A B : Type} (f : A -> list B) (l : list A) :
  flat_map f l = [] <-> forall x, In x l -> f x = [].
Proof.
  induction l as [|a l IH]; simpl; [done|].
  rewrite app_nil, IH. split.
  - intros [Ha Hl] x [<-|Hin]; auto.
  - intros H. split; [apply H; by left | intros x Hin; apply H; by right].
Qed.

Lemma blank_check s :
  negb (Js.truthy s) || (length (Js.trim s) =? 0)%nat = true <-> blank s.
Proof.
  unfold blank. rewrite <- trim_nil_iff, orb_true_iff, negb_true_iff, Nat.eqb_eq. split.
  - intros [H|H]; [by destruct s | by destruct (Js.trim s)].
  - intros ->. by right.
Qed.

Lemma cloze_check s :
  negb (Js.includes s "==") || negb (match_cloze_span s) = true <-> ~ has_cloze_span s.
Proof.
  rewrite <- match_cloze_span_spec, orb_true_iff, !negb_true_iff. split.
  - intros [H|H]; [|congruence]. intros Hspan%match_cloze_span_spec.
    destruct Hspan as (p & t & q & -> & _).
    apply includes_false in H. apply H. by exists p, (t ++ "==" ++ q).
  - intros H. right. by destruct (match_cloze_span s).
Qed.

Lemma tagErrors_nil tag : tagErrors tag = [] <-> tagRule_code tag.
Proof.
  unfold tagErrors, tagRule_code. rewrite <- includes_char.
  destruct (Js.startsWith tag "#"), (Js.includes tag [" "%char]) eqn:E; simpl;
    cbn [list_ascii_of_string]; rewrite ?E; simpl; split; try done; intros [? ?]; done.
Qed.

Lemma str_eqb_eq (a b : str) : str_eqb a b = true <-> a = b.
Proof. unfold str_eqb. apply bool_decide_eq_true. Qed.

Lemma tagErrors_some tags :
  flat_map tagErrors tags <> [] <-> exists tag, In tag tags /\ ~ tagRule_code tag.
Proof.
  induction tags as [|tag tags IH]; simpl.
  - split; [done | by intros (? & [] & _)].
  - split.
    + intros H. destruct (tagErrors tag) as [|e es] eqn:E.
      * apply IH in H as (tag' & Hin & Hbad). exists tag'. by split; [right|].
      * exists tag. split; [by left|]. rewrite <- tagErrors_nil. by rewrite E.
    + intros (tag' & [<-|Hin] & Hbad) [H1 H2]%app_eq_nil.
      * by apply Hbad, tagErrors_nil.
      * apply IH; [by exists tag' | done].
Qed.

Lemma if_singleton_nil {A : Type} (b : bool) (x : A) :
  (if b then [x] else []) = [] <-> b = false.
Proof. by destruct b. Qed.

(** A card passes exactly when each of the five checks passes. *)
Lemma validateRawFlashcard_valid card :
  vr_isValid (validateRawFlashcard card) = true <->
  ~ blank (card_front card)
  /\ ~ blank (card_back card)
  /\ isCardType (card_type card) = true
  /\ (card_type card = CardType_value Cloze -> has_cloze_span (card_front card))
  /\ (forall tags tag, card_tags card = Some tags -> In tag tags -> tagRule_code tag).
Proof.
  unfold validateRawFlashcard. cbn [vr_isValid].
  rewrite Nat.eqb_eq, length_zero_iff_nil, !app_nil, !if_singleton_nil.
  rewrite <- !not_true_iff_false, !blank_check, negb_true_iff, not_false_iff_true.
  do 3 (apply and_iff_compat_l).
  assert ((if str_eqb (card_type card) (CardType_value Cloze)
           then if negb (Js.includes (card_front card) "==")
                   || negb (match_cloze_span (card_front card))
                then ["Cloze cards must contain text wrapped in == markers" : str]
                else []
           else []) = []
          <-> (card_type card = CardType_value Cloze -> has_cloze_span (card_front card)))
    as ->.
  { destruct (str_eqb _ _) eqn:E.
    - apply str_eqb_eq in E. rewrite if_singleton_nil, <- not_true_iff_false, cloze_check.
      split; [|tauto]. intros H _.
      apply match_cloze_span_spec. rewrite <- match_cloze_span_spec in H.
      destruct (match_cloze_span (card_front card)); [done | exfalso; by apply H].
    - split; [|done]. intros _ H%str_eqb_eq. congruence. }
  apply and_iff_compat_l.
  destruct (card_tags card) as [tags|].
  - split.
    + intros H tags' tag [= <-] Hin. apply tagErrors_nil.
      apply (proj1 (flat_map_nil _ _) H tag Hin).
    + intros H. apply flat_map_nil. intros tag Hin. by eapply tagErrors_nil, H.
  - split; [by intros _ tags tag [=] | done].
Qed.

Lemma validateRawFlashcard_invalid card :
  vr_isValid (validateRawFlashcard card) = false
  <-> rejectionConditions has_cloze_span tagRule_code card.
Proof.
  unfold rejectionConditions. split.
  - unfold validateRawFlashcard. cbn [vr_isValid].
    rewrite Nat.eqb_neq, length_zero_iff_nil.
    destruct (negb (Js.truthy (card_front card)) || _) eqn:E1;
      [intros _; left; by apply blank_check|].
    destruct (negb (Js.truthy (card_back card)) || _) eqn:E2;
      [intros _; right; left; by apply blank_check|].
    destruct (isCardType (card_type card)) eqn:E3; [|intros _; by do 2 right; left].
    cbn [negb app].
    destruct (str_eqb _ _) eqn:E4.
    + apply str_eqb_eq in E4.
      destruct (negb (Js.includes (card_front card) "==") || _) eqn:E5;
        [intros _; do 3 right; left; split; [done | by apply cloze_check]|].
      cbn [app]. destruct (card_tags card) as [tags|]; [|done].
      intros (tag & Hin & Hbad)%tagErrors_some. do 4 right. by exists tags, tag.
    + cbn [app]. destruct (card_tags card) as [tags|]; [|done].
      intros (tag & Hin & Hbad)%tagErrors_some. do 4 right. by exists tags, tag.
  - intros Hrej. apply not_true_iff_false.
    intros (Hf & Hb & Ht & Hc & Htags)%validateRawFlashcard_valid.
    destruct Hrej as [?|[?|[?|[[? ?]|(tags & tag & ? & ? & Hbad)]]]]; try done.
    + congruence.
    + by apply H0, Hc.
    + by eapply Hbad, Htags.
Qed.

(** The errors of each tag are among the errors of the card. *)
Lemma tagErrors_reported card tags tag e :
  card_tags card = Some tags -> In tag tags -> In e (tagErrors tag) ->
  In e (vr_errors (validateRawFlashcard card)).
Proof.
  intros Htags Hin He. unfold validateRawFlashcard. cbn [vr_errors].
  rewrite Htags, !in_app_iff. do 4 right. apply in_flat_map. by exists tag.
Qed.

(** C7 (amended): a card is rejected exactly when its front or back is
    empty or white space only, or its type is not a member of the enum, or
    it is of type cloze and its front has no span [==text==] whose text is
    non-empty and holds no [=], or one of its tags does not start with [#]
    or contains a space character.  So a cloze card is rejected for the
    front [====], and also for the front [==E=mc^2==], whose span is not
    empty.  A card with the tag [biology] gets the error that the tag must
    start with [#], a card with the tag [#flash cards] the error that the
    tag cannot contain spaces, and the tag [#biology] passes. *)
Theorem validateRawFlashcard_rejects card :
  (vr_isValid (validateRawFlashcard card) = false
   <-> rejectionConditions has_cloze_span tagRule_code card)
  /\ ~ has_cloze_span "===="
  /\ (has_nonempty_span (card_front energyCard) /\ ~ has_cloze_span (card_front energyCard)
      /\ vr_isValid (validateRawFlashcard energyCard) = false)
  /\ (forall tags,
        card_tags card = Some tags -> In ("biology" : str) tags ->
        In ("Tag " ++ [Js.DQUOTE] ++ "biology" ++ [Js.DQUOTE] ++ " must start with #")
          (vr_errors (validateRawFlashcard card)))
  /\ (forall tags,
        card_tags card = Some tags -> In ("#flash cards" : str) tags ->
        In ("Tag " ++ [Js.DQUOTE] ++ "#flash cards" ++ [Js.DQUOTE] ++ " cannot contain spaces")
          (vr_errors (validateRawFlashcard card)))
  /\ tagErrors "#biology" = [] /\ tagRule_code "#biology".
Proof.
  split; [apply validateRawFlashcard_invalid|].
  split; [by rewrite <- match_cloze_span_spec|].
  split.
  { split; [by exists [], ("E=mc^2" : str), []|].
    split; [by rewrite <- match_cloze_span_spec | done]. }
  split; [|split; [|split]].
  - intros tags Htags Hin. eapply tagErrors_reported; [done.. | by left].
  - intros tags Htags Hin. eapply tagErrors_reported; [done.. | by left].
  - done.
  - by apply tagErrors_nil.
Qed.

(** C7 as stated fails: a tag with a tab inside breaks the rule of the
    specification and the card is accepted all the same.  (The span test
    fails it too: the cloze card with front [==E=mc^2==] has a non-empty
    span and is rejected, as the theorem above records.) *)
Lemma validation_counterexample : ~ validation_claim.
Proof.
  intros H.
  pose (card := {| card_front := "Q"; card_back := "A"; card_type := "oneway";
                   card_tags := Some ["#flash" ++ [Js.TAB] ++ "cards"] |}).
  assert (vr_isValid (validateRawFlashcard card) = false) as Hinvalid; [|done].
  apply H. do 4 right. exists ["#flash" ++ [Js.TAB] ++ "cards"], ("#flash" ++ [Js.TAB] ++ "cards").
  split; [done|]. split; [by left|].
  intros (_ & _ & Hws). apply Forall_app in Hws as [_ Hws]. by inversion Hws.
Qed.

End Validation.

(** * Batches without a surviving card *)

Section Processing.

Implicit Types (card : RawFlashcard) (cards : list RawFlashcard)
  (options : GenerationOptions) (response : FlashcardResponse).

Lemma validateCards_errors options i cards validated errors :
  snd (validateCards options i cards validated errors) = errors ++ rejectionReasons i cards.
Proof.
  revert i validated errors. induction cards as [|card rest IH]; intros i validated errors.
  - simpl. by rewrite app_nil_r.
  - cbn [validateCards rejectionReasons].
    destruct (vr_isValid (validateRawFlashcard card)).
    + destruct (existsb _ _); [apply IH|]. destruct (convertCardType _ _); apply IH.
    + rewrite IH. by rewrite <- app_assoc.
Qed.

Lemma contains_join (sep x : str) (l : list str) : In x l -> contains (Js.join sep l) x.
Proof.
  induction l as [|a l IH]; [done|]. destruct l as [|b l].
  - intros [<-|[]]. exists [], []. by rewrite app_nil_r.
  - intros [<-|Hin].
    + exists [], (sep ++ Js.join sep (b :: l)). done.
    + change (Js.join sep (a :: b :: l)) with (a ++ sep ++ Js.join sep (b :: l)).
      by apply contains_app_r, contains_app_r, IH.
Qed.

Lemma rejectionReasons_In k i cards card :
  cards !! i = Some card ->
  vr_isValid (validateRawFlashcard card) = false ->
  In (cardReason (k + i) card) (rejectionReasons k cards).
Proof.
  revert k i. induction cards as [|c rest IH]; intros k i; [done|].
  destruct i as [|i]; cbn [rejectionReasons].
  - intros [= ->] ->. rewrite Nat.add_0_r. by left.
  - intros Hi Hinv. apply in_app_iff. right.
    replace (k + S i)%nat with (S k + i)%nat by lia. by apply IH.
Qed.

(** A card outside the allowed types that has no cloze span is dropped
    without a word when Cloze is the first allowed type. *)
Lemma plain_card_dropped maxCards tags card trace :
  vr_isValid (validateRawFlashcard card) = true ->
  card_type card <> CardType_value Cloze ->
  match_cloze_span (card_front card) = false ->
  processLLMResponse {| resp_cards := [card]; resp_metadata := None |}
    (clozeOnly maxCards tags) trace
  = (failure (Some (noValidMessage [])), trace).
Proof.
  intros Hvalid Htype Hspan. unfold processLLMResponse.
  cbn [resp_cards length Nat.eqb validateCards clozeOnly opt_cardTypes existsb head].
  rewrite Hvalid.
  destruct (str_eqb (card_type card) (CardType_value Cloze)) eqn:E.
  { by apply bool_decide_eq_true in E. }
  cbn [orb]. unfold convertCardType.
  change (Some (CardType_value Cloze) ≫= CardType_of_value) with (Some Cloze).
  cbn iota. rewrite Hspan, andb_false_r. done.
Qed.

(** C3 (amended): when no card of a non-empty batch survives, the result
    has [success = false] and its error is the text "No valid flashcards
    could be generated. Errors: " followed by the entries, joined by "; ",
    of the cards that failed validation, each entry "Card n: " with the
    reasons of that card.  Cards dropped because they could not be coerced
    add no entry: with Cloze as the only allowed type, a batch made of one
    valid card of another type and without cloze span fails with that
    text and an empty list of reasons. *)
Theorem processLLMResponse_no_survivor response options trace :
  resp_cards response <> [] ->
  survivors options (resp_cards response) = [] ->
  processLLMResponse response options trace
  = (failure (Some (noValidMessage (rejectionReasons 0 (resp_cards response)))), trace)
  /\ res_success (failure (Some (noValidMessage (rejectionReasons 0 (resp_cards response))))) = false
  /\ (forall i card,
        resp_cards response !! i = Some card ->
        vr_isValid (validateRawFlashcard card) = false ->
        Js.includes (noValidMessage (rejectionReasons 0 (resp_cards response)))
          (cardReason i card) = true)
  /\ (forall maxCards tags card,
        vr_isValid (validateRawFlashcard card) = true ->
        card_type card <> CardType_value Cloze ->
        match_cloze_span (card_front card) = false ->
        processLLMResponse {| resp_cards := [card]; resp_metadata := None |}
          (clozeOnly maxCards tags) trace
        = (failure (Some (noValidMessage [])), trace)).
Proof.
  intros Hne Hnone. repeat split.
  - unfold processLLMResponse, survivors in *.
    destruct (resp_cards response) as [|c cards] eqn:Ecards; [done|].
    cbn [length Nat.eqb].
    pose proof (validateCards_errors options 0 (c :: cards) [] []) as Herr.
    destruct (validateCards options 0 (c :: cards) [] []) as [validated errors].
    simpl in Hnone, Herr. subst. done.
  - intros i card Hi Hinv. apply includes_spec. unfold noValidMessage.
    apply contains_app_r, contains_join.
    by apply (rejectionReasons_In 0).
  - intros. by apply plain_card_dropped.
Qed.

Lemma processLLMResponse_no_survivor_witness :
  processLLMResponse {| resp_cards := [plainCard]; resp_metadata := None |} (clozeOnly None None) []
  = (failure (Some (noValidMessage [])), []).
Proof.
  refine (proj1 (processLLMResponse_no_survivor
                   {| resp_cards := [plainCard]; resp_metadata := None |}
                   (clozeOnly None None) [] _ _)).
  - discriminate.
  - reflexivity.
Defined.

(** C3 as stated fails: the only card of the batch is dropped because it
    cannot become a cloze card, and the error says nothing about it. *)
Lemma processing_counterexample :
  ~ processing_claim {| resp_cards := [plainCard]; resp_metadata := None |} (clozeOnly None None).
Proof.
  intros H. destruct H as (message & Hres & _ & Hall); [done..|].
  vm_compute in Hres. injection Hres as <-.
  specialize (Hall 0%nat ltac:(simpl; lia)). vm_compute in Hall. discriminate.
Qed.

End Processing.

(** * The line scanner *)

Section LineScanner.

Variable JSON_parse : str -> option Json.

Implicit Types (content line : str) (options : GenerationOptions) (st : ScanState).

Lemma upToLast_none c (s : str) : upToLast c s = None <-> ~ In c s.
Proof.
  induction s as [|x s IH]; simpl; [tauto|].
  destruct (upToLast c s) as [p|].
  - split; [done|]. intros H. exfalso. apply H. right.
    destruct (in_dec ascii_dec c s) as [?|Hn]; [done|]. by apply IH in Hn.
  - destruct (Ascii.eqb_spec x c) as [->|Hne].
    + split; [done|]. intros H. exfalso. apply H. by left.
    + split; [|done]. intros _ [?|?]; [done|]. by apply (proj1 IH).
Qed.

Lemma jsonMatch_none content : jsonMatch content = None <-> ~ jsonShaped content.
Proof.
  unfold jsonShaped. induction content as [|x s IH]; simpl.
  - split; [|done]. intros _ (p & m & q & H). by destruct p.
  - destruct (Ascii.eqb_spec x "{") as [->|Hne].
    + destruct (upToLast "}" s) as [r|] eqn:E.
      * split; [done|]. intros H. exfalso. apply H.
        assert (In "}"%char s) as (m & q & ->)%in_split.
        { destruct (in_dec ascii_dec "}"%char s) as [?|Hn]; [done|].
          apply upToLast_none in Hn. congruence. }
        by exists [], m, q.
      * apply upToLast_none in E. rewrite IH. split.
        2:{ intros H (p & m & q & ->). apply H. by exists ("{"%char :: p), m, q. }
        intros _ (p & m & q & H).
        apply E. destruct p as [|y p]; simpl in H.
        -- injection H as ->. apply in_app_iff. right. by left.
        -- injection H as _ ->. apply in_app_iff. right. right.
           apply in_app_iff. right. by left.
    + rewrite IH. split.
      * intros H (p & m & q & Hs). destruct p as [|y p]; simpl in Hs.
        -- injection Hs as -> _. done.
        -- injection Hs as _ ->. apply H. by exists p, m, q.
      * intros H (p & m & q & ->). apply H. by exists (x :: p), m, q.
Qed.

Lemma completeCard_sound options pending :
  pc_type pending = None -> complete pending = true ->
  card_type (completeCard pending options) = firstCardType options
  /\ Js.truthy (card_front (completeCard pending options)) = true
  /\ Js.truthy (card_back (completeCard pending options)) = true.
Proof.
  unfold complete, completeCard, firstCardType. intros -> [Hf Hb]%andb_true_iff.
  cbn [card_type card_front card_back optTruthy]. rewrite Hf, Hb.
  destruct (pc_front pending), (pc_back pending); try done.
  split; [|done]. by destruct (opt_cardTypes options).
Qed.

Lemma scanLine_invariant options st line :
  scanInvariant options st -> scanInvariant options (scanLine options st line).
Proof.
  intros [Htype Hcards]. unfold scanLine.
  destruct (_ || _).
  { split; [done|]. cbn [cards]. fold (complete (currentCard st)).
    destruct (complete (currentCard st)) eqn:E; [|done].
    apply Forall_app. split; [done|]. constructor; [|done].
    by apply completeCard_sound. }
  destruct (_ || _); [done|].
  by destruct (_ && _).
Qed.

Lemma fold_scanLine_invariant options lines st :
  scanInvariant options st ->
  scanInvariant options (fold_left (scanLine options) lines st).
Proof.
  revert st. induction lines as [|line lines IH]; intros st H; [done|].
  by apply IH, scanLine_invariant.
Qed.

(** A line cannot carry both labels. *)
Lemma answer_not_question line :
  labelled "a:" "answer:" line = true -> labelled "q:" "question:" line = false.
Proof.
  unfold labelled. destruct (Js.toLowerCase (Js.trim line)) as [|c r]; [done|].
  cbn [Js.startsWith list_ascii_of_string].
  destruct (Ascii.eqb_spec "a" c) as [<-|_]; [done|].
  by rewrite !andb_false_l.
Qed.

Lemma scanLine_question options st line :
  labelled "q:" "question:" line = true ->
  scanLine options st line
  = {| cards := if complete (currentCard st)
                then cards st ++ [completeCard (currentCard st) options]
                else cards st;
       currentCard :=
         {| pc_front := Some (Js.trim (stripLabel "q:" "question:" (Js.trim line)));
            pc_back := None; pc_type := None; pc_tags := None |} |}.
Proof.
  intros Hq. unfold scanLine. fold (labelled "q:" "question:" line). by rewrite Hq.
Qed.

Lemma scanLine_answer options st line :
  labelled "a:" "answer:" line = true ->
  scanLine options st line
  = {| cards := cards st;
       currentCard :=
         {| pc_front := pc_front (currentCard st);
            pc_back := Some (Js.trim (stripLabel "a:" "answer:" (Js.trim line)));
            pc_type := pc_type (currentCard st);
            pc_tags := pc_tags (currentCard st) |} |}.
Proof.
  intros Ha. unfold scanLine.
  fold (labelled "q:" "question:" line) (labelled "a:" "answer:" line).
  by rewrite (answer_not_question line Ha), Ha.
Qed.

Lemma parseAsPlainText_types content options card :
  In card (resp_cards (parseAsPlainText content options)) ->
  card_type card = firstCardType options.
Proof.
  intros Hin. unfold parseAsPlainText, finishScan in Hin. cbn [resp_cards] in Hin.
  pose proof (fold_scanLine_invariant options (nonBlankLines content)
                {| cards := []; currentCard := emptyCard |}) as [Htype Hcards].
  { split; [done | constructor]. }
  set (st := fold_left _ _ _) in *.
  fold (complete (currentCard st)) in Hin.
  rewrite List.Forall_forall in Hcards.
  destruct (complete (currentCard st)) eqn:E; [|by apply Hcards].
  apply in_app_iff in Hin as [Hin|[<-|[]]]; [by apply Hcards|].
  by apply completeCard_sound.
Qed.

(** The scanner keeps the tags of the pending card unset, and every card
    it emits carries the tags of the options, merged. *)
Lemma scanLine_tags options st line :
  pc_tags (currentCard st) = None
  /\ Forall (fun card => card_tags card = Some (mergeTags None (opt_tags options)))
       (cards st) ->
  pc_tags (currentCard (scanLine options st line)) = None
  /\ Forall (fun card => card_tags card = Some (mergeTags None (opt_tags options)))
       (cards (scanLine options st line)).
Proof.
  intros [Htags Hcards]. unfold scanLine.
  destruct (_ || _).
  { split; [done|]. cbn [cards]. destruct (_ && _); [|done].
    apply Forall_app. split; [done|]. constructor; [|done].
    unfold completeCard. cbn [card_tags]. by rewrite Htags. }
  destruct (_ || _); [done|].
  by destruct (_ && _).
Qed.

Lemma fold_scanLine_tags options lines st :
  pc_tags (currentCard st) = None
  /\ Forall (fun card => card_tags card = Some (mergeTags None (opt_tags options)))
       (cards st) ->
  pc_tags (currentCard (fold_left (scanLine options) lines st)) = None
  /\ Forall (fun card => card_tags card = Some (mergeTags None (opt_tags options)))
       (cards (fold_left (scanLine options) lines st)).
Proof.
  revert st. induction lines as [|line lines IH]; intros st H; [done|].
  by apply IH, scanLine_tags.
Qed.

(** What holds of every card the line scanner returns. *)
Lemma parseAsPlainText_emitted content options card :
  In card (resp_cards (parseAsPlainText content options)) ->
  card_type card = firstCardType options
  /\ card_front card <> [] /\ card_back card <> []
  /\ card_tags card = Some (mergeTags None (opt_tags options)).
Proof.
  intros Hin. unfold parseAsPlainText, finishScan in Hin. cbn [resp_cards] in Hin.
  pose proof (fold_scanLine_invariant options (nonBlankLines content)
                {| cards := []; currentCard := emptyCard |}) as [Htype Hcards].
  { split; [done | constructor]. }
  pose proof (fold_scanLine_tags options (nonBlankLines content)
                {| cards := []; currentCard := emptyCard |}) as [Htags Htagged].
  { split; [done | constructor]. }
  set (st := fold_left _ _ _) in *.
  fold (complete (currentCard st)) in Hin.
  assert (forall c, In c (cards st) ->
            card_type c = firstCardType options
            /\ card_front c <> [] /\ card_back c <> []
            /\ card_tags c = Some (mergeTags None (opt_tags options))) as Hold.
  { intros c Hc. rewrite List.Forall_forall in Hcards, Htagged.
    destruct (Hcards c Hc) as (? & Hf & Hb). split; [done|].
    split; [by destruct (card_front c)|]. split; [by destruct (card_back c)|].
    by apply Htagged. }
  destruct (complete (currentCard st)) eqn:E; [|by apply Hold].
  apply in_app_iff in Hin as [Hin|[<-|[]]]; [by apply Hold|].
  destruct (completeCard_sound options (currentCard st) Htype E) as (? & Hf & Hb).
  split; [done|].
  split; [by destruct (card_front (completeCard (currentCard st) options))|].
  split; [by destruct (card_back (completeCard (currentCard st) options))|].
  unfold completeCard. cbn [card_tags]. by rewrite Htags.
Qed.

Lemma splitChar_single sep (s : str) : ~ In sep s -> Js.splitChar sep s = [s].
Proof.
  induction s as [|c s IH]; [done|]. intros Hin. cbn [Js.splitChar].
  destruct (Ascii.eqb_spec c sep) as [->|_].
  - exfalso. apply Hin. by left.
  - rewrite IH; [done|]. intros ?. apply Hin. by right.
Qed.

Lemma splitChar_app sep (s r : str) :
  ~ In sep s -> Js.splitChar sep (s ++ sep :: r) = s :: Js.splitChar sep r.
Proof.
  induction s as [|c s IH]; intros Hin.
  - cbn [app Js.splitChar]. by rewrite Ascii.eqb_refl.
  - change ((c :: s) ++ sep :: r) with (c :: (s ++ sep :: r)). cbn [Js.splitChar].
    destruct (Ascii.eqb_spec c sep) as [->|_].
    + exfalso. apply Hin. by left.
    + rewrite IH; [done|]. intros ?. apply Hin. by right.
Qed.

(** A text that starts with a character other than white space and goes
    on with a tight, non-empty text is tight. *)
Lemma tight_app (p s : str) c :
  Js.isWhiteSpace c = false -> tight s -> s <> [] -> tight (c :: p ++ s).
Proof.
  intros Hc [_ Hlast] Hne. split.
  - by intros c' r [= <- _].
  - intros c' r. change (c :: p ++ s) with ((c :: p) ++ s). rewrite rev_app_distr.
    destruct (rev s) as [|x t] eqn:E.
    + apply (f_equal (@rev ascii)) in E. rewrite rev_involutive in E. done.
    + intros [= <- _]. by eapply Hlast.
Qed.

Lemma trim_after_space s : tight s -> Js.trim (Js.SP :: s) = s.
Proof.
  intros Hs. unfold Js.trim. cbn [Js.trimStart].
  change (Js.isWhiteSpace Js.SP) with true. cbn iota.
  by apply tight_trim.
Qed.

Lemma question_line q :
  tight q -> q <> [] ->
  labelled "q:" "question:" ("Q: " ++ q) = true
  /\ Js.trim (stripLabel "q:" "question:" (Js.trim ("Q: " ++ q))) = q.
Proof.
  intros Hq Hne. unfold labelled, stripLabel.
  rewrite (tight_trim ("Q: " ++ q)) by (by apply (tight_app ": " q "Q")).
  split; [done|]. by apply trim_after_space.
Qed.

Lemma answer_line a :
  tight a -> a <> [] ->
  labelled "a:" "answer:" ("A: " ++ a) = true
  /\ Js.trim (stripLabel "a:" "answer:" (Js.trim ("A: " ++ a))) = a.
Proof.
  intros Ha Hne. unfold labelled, stripLabel.
  rewrite (tight_trim ("A: " ++ a)) by (by apply (tight_app ": " a "A")).
  split; [done|]. by apply trim_after_space.
Qed.

(** The scenario of the specification for any question and answer: a
    response made of a line [Q: q] and a line [A: a] gives exactly one
    card with front [q] and back [a]. *)
Lemma parseFlashcardResponse_question_answer q a options :
  tight q -> tight a -> q <> [] -> a <> [] ->
  ~ In Js.LF q -> ~ In Js.LF a ->
  ~ jsonShaped ("Q: " ++ q ++ [Js.LF] ++ "A: " ++ a) ->
  parseFlashcardResponse JSON_parse ("Q: " ++ q ++ [Js.LF] ++ "A: " ++ a) options
  = {| resp_cards :=
         [{| card_front := q; card_back := a;
             card_type := firstCardType options;
             card_tags := Some (mergeTags None (opt_tags options)) |}];
       resp_metadata := None |}.
Proof.
  intros Hq Ha Hqne Hane Hqlf Half Hno%jsonMatch_none.
  destruct (question_line q Hq Hqne) as [Hql Hqf].
  destruct (answer_line a Ha Hane) as [Hal Haf].
  unfold parseFlashcardResponse, parseStructured. rewrite Hno.
  unfold parseAsPlainText, nonBlankLines.
  replace ("Q: " ++ q ++ [Js.LF] ++ "A: " ++ a)
    with (("Q: " ++ q) ++ Js.LF :: ("A: " ++ a)) by (by rewrite <- app_assoc).
  rewrite splitChar_app.
  2:{ rewrite in_app_iff. intros [H|H]; [|done]. cbn in H. intuition discriminate. }
  rewrite splitChar_single.
  2:{ rewrite in_app_iff. intros [H|H]; [|done]. cbn in H. intuition discriminate. }
  cbn [List.filter].
  rewrite (tight_trim ("Q: " ++ q)) by (by apply (tight_app ": " q "Q")).
  rewrite (tight_trim ("A: " ++ a)) by (by apply (tight_app ": " a "A")).
  cbn [app list_ascii_of_string Js.truthy fold_left].
  change ("Q"%char :: ":"%char :: " "%char :: q) with ("Q: " ++ q).
  change ("A"%char :: ":"%char :: " "%char :: a) with ("A: " ++ a).
  rewrite (scanLine_question _ _ _ Hql), Hqf.
  rewrite (scanLine_answer _ _ _ Hal), Haf.
  unfold finishScan, completeCard, complete.
  cbn [currentCard cards pc_front pc_back pc_type pc_tags optTruthy default emptyCard].
  destruct q as [|cq q]; [done|]. destruct a as [|ca a]; [done|].
  cbn [Js.truthy andb app]. f_equal. f_equal. f_equal.
  by destruct options as [maxCards [|t ts] customPrompt tags].
Qed.

(** The card made of a complete pending card without a type of its own
    is the pending card's front and back with the first card type of the
    options and the merged tags. *)
Lemma completeCard_emitted options pending :
  pc_type pending = None -> complete pending = true ->
  completeCard pending options = emittedCard pending options.
Proof.
  unfold complete, completeCard, emittedCard, firstCardType.
  intros -> [Hf Hb]%andb_true_iff. rewrite Hf, Hb. cbn [optTruthy]. f_equal.
  by destruct (opt_cardTypes options).
Qed.

(** In every state of a scan the pending card has no type of its own. *)
Lemma scan_untyped options lines :
  pc_type (currentCard (fold_left (scanLine options) lines scanStart)) = None.
Proof. by apply fold_scanLine_invariant; split; [|constructor]. Qed.

(** C8: a response without JSON-shaped text is read by the line scanner,
    which starts with no card and an empty pending card.  In every state
    [st] the scan reaches, a line labelled [q:] or [question:] emits the
    pending card when it has both a front and a back, and starts a new
    pending card whose front is the trimmed text after the label; a line
    labelled [a:] or [answer:] sets the back of the pending card to the
    trimmed text after the label and emits nothing; at the end of the
    input a complete pending card is emitted.  An emitted card has the
    front and the back of the pending card, the first card type of the
    options, and the tags of the options, merged.  For every trimmed
    one-line question [q] and answer [a], and so for [What is X?] and
    [It is Y.], the response made of the lines [Q: q] and [A: a] gives
    exactly one card, with front [q] and back [a]. *)
Theorem parseFlashcardResponse_fallback content options :
  ~ jsonShaped content ->
  parseFlashcardResponse JSON_parse content options = parseAsPlainText content options
  /\ (forall lines line,
        let st := fold_left (scanLine options) lines scanStart in
        labelled "q:" "question:" line = true ->
        cards (scanLine options st line)
        = (if complete (currentCard st)
           then cards st ++ [emittedCard (currentCard st) options]
           else cards st)
        /\ currentCard (scanLine options st line)
           = {| pc_front := Some (Js.trim (stripLabel "q:" "question:" (Js.trim line)));
                pc_back := None; pc_type := None; pc_tags := None |})
  /\ (forall st line,
        labelled "a:" "answer:" line = true ->
        cards (scanLine options st line) = cards st
        /\ pc_front (currentCard (scanLine options st line)) = pc_front (currentCard st)
        /\ pc_back (currentCard (scanLine options st line))
           = Some (Js.trim (stripLabel "a:" "answer:" (Js.trim line))))
  /\ resp_cards (parseAsPlainText content options)
     = (let st := fold_left (scanLine options) (nonBlankLines content) scanStart in
        if complete (currentCard st)
        then cards st ++ [emittedCard (currentCard st) options]
        else cards st)
  /\ (forall pending,
        complete pending = true -> pc_type pending = None ->
        completeCard pending options = emittedCard pending options
        /\ pc_front pending = Some (card_front (completeCard pending options))
        /\ pc_back pending = Some (card_back (completeCard pending options))
        /\ card_front (completeCard pending options) <> []
        /\ card_back (completeCard pending options) <> [])
  /\ (forall card,
        In card (resp_cards (parseAsPlainText content options)) ->
        card_type card = firstCardType options
        /\ card_front card <> [] /\ card_back card <> []
        /\ card_tags card = Some (mergeTags None (opt_tags options)))
  /\ (forall q a,
        tight q -> tight a -> q <> [] -> a <> [] ->
        ~ In Js.LF q -> ~ In Js.LF a ->
        ~ jsonShaped ("Q: " ++ q ++ [Js.LF] ++ "A: " ++ a) ->
        parseFlashcardResponse JSON_parse ("Q: " ++ q ++ [Js.LF] ++ "A: " ++ a) options
        = {| resp_cards :=
               [{| card_front := q; card_back := a;
                   card_type := firstCardType options;
                   card_tags := Some (mergeTags None (opt_tags options)) |}];
             resp_metadata := None |})
  /\ parseFlashcardResponse JSON_parse questionAnswer options
     = {| resp_cards :=
            [{| card_front := "What is X?"; card_back := "It is Y.";
                card_type := firstCardType options;
                card_tags := Some (mergeTags None (opt_tags options)) |}];
          resp_metadata := None |}.
Proof.
  intros Hno%jsonMatch_none.
  split; [|split; [|split; [|split; [|split; [|split; [|split]]]]]].
  - unfold parseFlashcardResponse, parseStructured. by rewrite Hno.
  - intros lines line st Hq. rewrite scanLine_question by done. cbn [cards currentCard].
    split; [|done]. destruct (complete (currentCard st)) eqn:E; [|done].
    by rewrite completeCard_emitted by (done || apply scan_untyped).
  - intros st line Ha. by rewrite scanLine_answer.
  - unfold parseAsPlainText, finishScan. cbn [resp_cards]. cbv zeta.
    fold scanStart. set (st := fold_left _ _ _).
    fold (complete (currentCard st)). destruct (complete (currentCard st)) eqn:E; [|done].
    by rewrite completeCard_emitted by (done || apply scan_untyped).
  - intros pending Hc Ht. rewrite (completeCard_emitted options pending Ht Hc).
    split; [done|]. unfold emittedCard. cbn [card_front card_back].
    unfold complete in Hc. apply andb_true_iff in Hc as [Hf Hb].
    destruct (pc_front pending) as [[|? ?]|]; try done.
    by destruct (pc_back pending) as [[|? ?]|].
  - apply parseAsPlainText_emitted.
  - intros q a. apply parseFlashcardResponse_question_answer.
  - by destruct options as [maxCards [|t ts] customPrompt tags].
Qed.

End LineScanner.

Lemma parseFlashcardResponse_fallback_witness :
  parseFlashcardResponse (fun _ => None) questionAnswer
    {| opt_maxCards := None; opt_cardTypes := [CardType_value OneWay];
       opt_customPrompt := None; opt_tags := None |}
  = parseAsPlainText questionAnswer
      {| opt_maxCards := None; opt_cardTypes := [CardType_value OneWay];
         opt_customPrompt := None; opt_tags := None |}.
Proof.
  refine (proj1 (parseFlashcardResponse_fallback (fun _ => None) questionAnswer _ _)).
  apply jsonMatch_none. reflexivity.
Defined.

(** * Rendering of templates *)

(** C10: [{content}] is replaced first, so a placeholder that comes with
    the content is replaced in its turn: rendering the default template
    for a note titled "My Note" whose text is "see {title} here" gives a
    prompt that holds "see My Note here" and no [{title}] any more. *)
Theorem renderTemplate_replaces_injected_placeholder :
  Js.includes (ctx_content injectedContext) "{title}" = true
  /\ exists rendered,
       renderTemplate (addTemplate defaultTemplate ∅) "default" injectedContext = Ok rendered
       /\ Js.includes rendered ("see " ++ ctx_title injectedContext ++ " here") = true
       /\ Js.includes rendered "{title}" = false.
Proof.
  split; [reflexivity|]. eexists. split; [vm_compute; reflexivity|].
  split; vm_compute; reflexivity.
Qed.

Section Replace.

Implicit Types (s pat repl : str) (c : ascii).

Lemma expandReplacement_plain repl matched before after :
  ~ In "$"%char repl -> Js.expandReplacement repl matched before after = repl.
Proof.
  induction repl as [|c r IH]; [done|]. intros Hc. cbn [Js.expandReplacement].
  destruct (Ascii.eqb_spec c "$") as [->|_].
  - exfalso. apply Hc. by left.
  - rewrite IH; [done|]. intros ?. apply Hc. by right.
Qed.

(** A text in which the first character of the pattern does not occur is
    left as it is. *)
Lemma replaceAll_from_absent c pat repl before s :
  ~ In c s -> Js.replaceAll_from (c :: pat) repl 0 before s = s.
Proof.
  revert before. induction s as [|x s IH]; intros before Hc; [done|].
  cbn [Js.replaceAll_from Js.startsWith].
  destruct (Ascii.eqb_spec c x) as [->|_].
  - exfalso. apply Hc. by left.
  - cbn [andb]. rewrite IH; [done|]. intros ?. apply Hc. by right.
Qed.

Lemma replaceAll_absent c pat repl s :
  ~ In c s -> Js.replaceAll (c :: pat) repl s = s.
Proof. apply replaceAll_from_absent. Qed.

Lemma replaceAll_from_skip pat repl before s :
  Js.replaceAll_from pat repl (length s) before s = [].
Proof.
  revert before. induction s as [|x s IH]; intros before; [done|]. apply IH.
Qed.

(** A text that is the pattern itself becomes the replacement. *)
Lemma replaceAll_whole c pat repl :
  ~ In "$"%char repl -> Js.replaceAll (c :: pat) repl (c :: pat) = repl.
Proof.
  intros Hrepl. unfold Js.replaceAll. cbn [Js.replaceAll_from].
  assert (Js.startsWith (c :: pat) (c :: pat) = true) as ->.
  { apply startsWith_spec. exists []. by rewrite app_nil_r. }
  rewrite expandReplacement_plain by done.
  replace (length (c :: pat) - 1)%nat with (length pat) by (simpl; lia).
  rewrite replaceAll_from_skip. apply app_nil_r.
Qed.

(** With that template, a note whose whole text is [{title}] is rendered
    as its title, for every title without dollar sign and opening brace. *)
Lemma renderTemplate_title_for_placeholder templates context :
  ctx_content context = "{title}" ->
  ~ In "$"%char (ctx_title context) ->
  ~ In "{"%char (ctx_title context) ->
  renderTemplate (addTemplate contentOnlyTemplate templates) "content-only" context
  = Ok (Js.trim (ctx_title context)).
Proof.
  intros Hcontent Hdollar Hbrace. unfold renderTemplate, addTemplate.
  rewrite lookup_insert_eq. cbn [tpl_template contentOnlyTemplate]. rewrite Hcontent.
  cbv zeta. cbn [list_ascii_of_string].
  rewrite ?(replaceAll_whole "{") by first [done | cbn; intuition discriminate].
  destruct (ctx_tags context) as [[|tag tags]|]; destruct (ctx_metadata context);
    by repeat (rewrite (replaceAll_absent "{" _ _ (ctx_title context)) by done).
Qed.

End Replace.

(** * Words: cleaning, counting and the estimate of tokens *)

Section Words.

Implicit Types (s text content : str) (inws : bool).

Lemma join_splitWs_from inws s :
  Js.join " " (Js.splitWs_from inws s) = replace_ws_runs_from inws s.
Proof.
  revert inws. induction s as [|c s IH]; intros inws; [done|].
  cbn [Js.splitWs_from replace_ws_runs_from].
  destruct (Js.isWhiteSpace c).
  - destruct inws; [apply IH|].
    rewrite <- IH. pose proof (splitWs_from_nonempty true s).
    by destruct (Js.splitWs_from true s); [simpl in *; lia|].
  - rewrite <- IH. pose proof (splitWs_from_nonempty false s).
    destruct (Js.splitWs_from false s) as [|h t]; [simpl in *; lia|].
    by destruct t.
Qed.

(** X1: the text [cleanText] returns is made of the pieces of the trimmed
    text that lie between its runs of white space, joined by single
    spaces: [trim().replace(/\s+/g, ' ')] and
    [trim().split(/\s+/).join(' ')] are the same text. *)
Theorem cleanText_joins_words text :
  cleanText text = Js.join " " (Js.splitWs (Js.trim text)).
Proof. rewrite cleanText_two_steps. symmetry. apply join_splitWs_from. Qed.

Lemma splitWs_from_replace_ws_runs inws s :
  Js.splitWs_from inws (replace_ws_runs_from inws s) = Js.splitWs_from inws s.
Proof.
  revert inws. induction s as [|c s IH]; intros inws; [done|].
  cbn [replace_ws_runs_from Js.splitWs_from].
  destruct (Js.isWhiteSpace c) eqn:Ec.
  - destruct inws; [apply IH|]. cbn [Js.splitWs_from].
    change (Js.isWhiteSpace Js.SP) with true. cbn iota. by rewrite IH.
  - cbn [Js.splitWs_from]. by rewrite Ec, IH.
Qed.

(** The pieces of a text that ends with a character other than white
    space: none is empty, but for the first one when the text starts with
    white space. *)
Lemma splitWs_from_pieces inws s :
  endsNonWs s = true ->
  Forall (fun w => w <> []) (tail (Js.splitWs_from inws s))
  /\ ((inws = true \/ exists c r, s = c :: r /\ Js.isWhiteSpace c = false) ->
      Forall (fun w => w <> []) (Js.splitWs_from inws s)).
Proof.
  revert inws. induction s as [|c s IH]; intros inws Hend; [done|].
  assert (s <> [] -> endsNonWs s = true) as Hs.
  { intros Hne. destruct s; [done|]. exact Hend. }
  cbn [Js.splitWs_from]. destruct (Js.isWhiteSpace c) eqn:Ec.
  - assert (s <> []) as Hne.
    { intros ->. simpl in Hend. by rewrite Ec in Hend. }
    destruct (IH true (Hs Hne)) as [_ Hall]. specialize (Hall (or_introl eq_refl)).
    destruct inws.
    + split; [|done]. by destruct Hall.
    + split; [done|]. intros [[=]|(c' & r & [= <- <-] & Hc)]. congruence.
  - destruct s as [|d s].
    + simpl. split; [done|]. intros _. by repeat constructor.
    + destruct (IH false (Hs ltac:(done))) as [Htail _].
      destruct (Js.splitWs_from false (d :: s)) as [|h t] eqn:E.
      { pose proof (splitWs_from_nonempty false (d :: s)) as H.
        rewrite E in H. simpl in H. lia. }
      simpl in Htail. split; [done|]. intros _. by constructor.
Qed.

Lemma tight_endsNonWs s : tight s -> s <> [] -> endsNonWs s = true.
Proof.
  intros [_ Hlast] Hne.
  induction s as [|c s IH]; [done|].
  destruct s as [|d s].
  - simpl. by rewrite (Hlast c []).
  - change (endsNonWs (d :: s) = true). apply IH; [|done].
    intros x r Hrev. apply (Hlast x (r ++ [c])).
    change (rev (c :: d :: s)) with (rev (d :: s) ++ [c]). by rewrite Hrev.
Qed.

Lemma splitWs_trim_pieces text :
  Js.trim text <> [] -> Forall (fun w => w <> []) (Js.splitWs (Js.trim text)).
Proof.
  intros Hne. pose proof (trim_tight text) as Ht.
  apply splitWs_from_pieces; [by apply tight_endsNonWs|].
  right. destruct (Js.trim text) as [|c r] eqn:E; [done|].
  exists c, r. split; [done|]. by apply (proj1 Ht c r).
Qed.

Lemma filter_nonempty_id (l : list str) :
  Forall (fun w => w <> []) l -> List.filter (fun word => (0 <? length word)%nat) l = l.
Proof.
  induction 1 as [|w l Hw _ IH]; [done|]. simpl. rewrite IH. by destruct w.
Qed.

Lemma countWords_blank text : blank text -> countWords text = 0%nat.
Proof. intros H%trim_nil_iff. unfold countWords. by rewrite H. Qed.

(** X2: [countWords] returns 0 exactly for the texts that are empty or
    made of white space only; for any other text no piece of the split is
    empty, so that the filter removes nothing and the count is the number
    of pieces. *)
Theorem countWords_zero text :
  (countWords text = 0%nat <-> blank text)
  /\ (~ blank text ->
      Forall (fun word => word <> []) (Js.splitWs (Js.trim text))
      /\ List.filter (fun word => (0 <? length word)%nat) (Js.splitWs (Js.trim text))
         = Js.splitWs (Js.trim text)
      /\ countWords text = length (Js.splitWs (Js.trim text))).
Proof.
  assert (~ blank text -> Forall (fun word => word <> []) (Js.splitWs (Js.trim text)))
    as Hpieces.
  { intros Hne. apply splitWs_trim_pieces. intros H. by apply Hne, trim_nil_iff. }
  split.
  - unfold blank. rewrite <- trim_nil_iff. unfold countWords. split.
    + intros H. destruct (decide (Js.trim text = [])) as [|Hne]; [done|].
      rewrite filter_nonempty_id in H by by apply splitWs_trim_pieces.
      pose proof (splitWs_from_nonempty false (Js.trim text)). unfold Js.splitWs in H. lia.
    + intros H%trim_nil_iff. by apply countWords_blank.
  - intros Hne. split; [by apply Hpieces|].
    unfold countWords. by rewrite filter_nonempty_id by by apply Hpieces.
Qed.

Lemma countWords_zero_witness :
  Forall (fun word : str => word <> []) (Js.splitWs (Js.trim " two words "))
  /\ List.filter (fun word : str => (0 <? length word)%nat)
       (Js.splitWs (Js.trim " two words "))
     = Js.splitWs (Js.trim " two words ")
  /\ countWords " two words " = length (Js.splitWs (Js.trim " two words ")).
Proof.
  apply (proj2 (countWords_zero " two words ")).
  intros H. apply Forall_cons_1 in H as [_ H]. apply Forall_cons_1 in H as [H _]. done.
Defined.

(** X3: the cleaning of the formatter keeps the number of words that the
    content processor counts. *)
Theorem countWords_cleanText text : countWords (cleanText text) = countWords text.
Proof.
  unfold countWords. rewrite cleanText_trimmed, cleanText_two_steps.
  unfold Js.splitWs, replace_ws_runs. by rewrite splitWs_from_replace_ws_runs.
Qed.

(** X4: [validateContent] accepts a text exactly when it has at least ten
    words and no more words than the threshold; the test for empty
    content never decides, since an empty text is also too short. *)
Theorem validateContent_accepts content longContentThreshold :
  cv_isValid (validateContent content longContentThreshold) = true <->
  (10 <= countWords content)%nat /\ (Z.of_nat (countWords content) <= longContentThreshold)%Z.
Proof.
  unfold validateContent. cbn [cv_isValid].
  rewrite Nat.eqb_eq, length_zero_iff_nil, !app_nil, !if_singleton_nil.
  rewrite <- not_true_iff_false, blank_check, Nat.ltb_ge.
  rewrite <- not_true_iff_false, Z.gtb_gt.
  split; [intros (_ & ? & ?); lia|]. intros [H10 HT]. repeat split; [|done|lia].
  intros Hb%countWords_blank. lia.
Qed.

(** X5: the estimate of tokens exceeds a whole number [maxTokens], which
    is when [processContent] cuts the text into chunks, exactly when the
    text has more than [4 * maxTokens] characters. *)
Theorem estimateTokenCount_exceeds text maxTokens :
  (estimateTokenCount text > maxTokens)%Z <-> (Z.of_nat (length text) > 4 * maxTokens)%Z.
Proof.
  unfold estimateTokenCount, ceilDiv.
  pose proof (Z.div_mod (- Z.of_nat (length text)) 4 ltac:(lia)) as Hdm.
  pose proof (Z.mod_pos_bound (- Z.of_nat (length text)) 4 ltac:(lia)) as Hb.
  lia.
Qed.

End Words.

(** * The markup of cards and decks *)

Section Formatting.

#[local] Arguments Ascii.eqb : simpl never.

Implicit Types (card : RawFlashcard) (cards : list RawFlashcard) (s d text : str).

Lemma isCardType_of_value s : isCardType s = true <-> is_Some (CardType_of_value s).
Proof.
  unfold isCardType, CardType_of_value. split.
  - intros (t & Hin & Ht)%existsb_exists.
    destruct (find _ CardType_values) as [t'|] eqn:E; [by eexists|].
    eapply find_none in E; [|exact Hin]. simpl in E. congruence.
  - intros [t Ht]. apply find_some in Ht as [Hin Ht].
    apply existsb_exists. by exists t.
Qed.

Lemma CardType_of_value_inv s t : CardType_of_value s = Some t -> CardType_value t = s.
Proof.
  unfold CardType_of_value. intros [_ H]%find_some. by apply str_eqb_eq in H.
Qed.

Lemma canFormat_isCardType card : canFormat card = isCardType (card_type card).
Proof.
  unfold canFormat, formatCard.
  destruct (CardType_of_value (card_type card)) as [t|] eqn:E.
  - symmetry. apply isCardType_of_value. by eexists.
  - symmetry. apply not_true_is_false. intros [t Ht]%isCardType_of_value. congruence.
Qed.

Lemma formatEach_spec cards :
  formatEach cards =
  match find (fun card => negb (canFormat card)) cards with
  | Some bad => Throw ("Unsupported card type: " ++ card_type bad)
  | None => Ok (map markupOf cards)
  end.
Proof.
  induction cards as [|card rest IH]; [done|].
  cbn [formatEach find map]. unfold canFormat at 1, markupOf at 1.
  unfold formatCard at 1 2 3.
  destruct (CardType_of_value (card_type card)) as [t|]; [|done].
  cbn [negb]. rewrite IH. by destruct (find _ rest).
Qed.

(** X6: [formatCards] throws exactly when [canFormat] is false of one of
    the cards, with the message "Unsupported card type: " followed by the
    type of the first such card; otherwise it returns the markups of the
    cards in their order, a blank line between two of them (the empty
    text when there is no card), whatever the tags. *)
Theorem formatCards_first_unsupported cards tags :
  formatCards cards tags =
  match find (fun card => negb (canFormat card)) cards with
  | Some bad => Throw ("Unsupported card type: " ++ card_type bad)
  | None => Ok (deckOf cards)
  end.
Proof.
  unfold formatCards, deckOf. destruct cards as [|card rest]; [done|].
  rewrite formatEach_spec. by destruct (find _ (card :: rest)).
Qed.

Lemma count_occ_twice (s : str) c :
  Js.includes s [c; c] = true -> (2 <= count_occ ascii_dec s c)%nat.
Proof.
  intros (p & q & ->)%includes_spec.
  rewrite count_occ_app. simpl. destruct (ascii_dec c c); [lia|done].
Qed.

Lemma count_occ_cleanText text : count_occ ascii_dec (cleanText text) Js.LF = 0%nat.
Proof.
  apply count_occ_not_In. rewrite cleanText_two_steps. apply replace_ws_runs_no_line_feed.
Qed.

(** X7: the markup [formatCard] returns for one card never holds two line
    feeds in a row, and it holds a line feed at all exactly for the two
    multi-line types. *)
Theorem formatCard_line_feeds card formatted :
  formatCard card = Ok formatted ->
  Js.includes (fmt_content formatted) [Js.LF; Js.LF] = false
  /\ (In Js.LF (fmt_content formatted) <->
      card_type card = CardType_value MultiLine
      \/ card_type card = CardType_value MultiLineBidirectional).
Proof.
  unfold formatCard.
  destruct (CardType_of_value (card_type card)) as [t|] eqn:Et; [|done].
  intros [= <-]. cbn [fmt_content]. apply CardType_of_value_inv in Et.
  set (content := match t with OneWay => _ | _ => _ end).
  assert (count_occ ascii_dec content Js.LF
          = match t with MultiLine | MultiLineBidirectional => 1 | _ => 0 end)%nat as Hcount.
  { unfold content, formatOneWayCard, formatBidirectionalCard, formatMultiLineCard,
      formatMultiLineBidirectionalCard, formatClozeCard.
    destruct t; rewrite ?count_occ_app, ?count_occ_cleanText; reflexivity. }
  split.
  - apply not_true_is_false. intros H%count_occ_twice. rewrite Hcount in H. destruct t; lia.
  - rewrite (count_occ_In ascii_dec), Hcount, <- Et.
    destruct t; split; intros H;
      first [lia | by left | by right | by destruct H as [H|H]; discriminate H].
Qed.

Lemma formatCard_line_feeds_witness :
  Js.includes ("Q?" ++ [Js.LF] ++ "A") [Js.LF; Js.LF] = false
  /\ (In Js.LF ("Q?" ++ [Js.LF] ++ "A") <->
      CardType_value MultiLine = CardType_value MultiLine
      \/ CardType_value MultiLine = CardType_value MultiLineBidirectional).
Proof.
  apply (formatCard_line_feeds (mkCard "Q" "A" MultiLine)
           {| fmt_content := "Q?" ++ [Js.LF] ++ "A"; fmt_tags := [] |}).
  reflexivity.
Defined.

Lemma includes_not_blank s x d :
  Js.isWhiteSpace x = false -> Js.includes s (x :: d) = true -> ~ blank s.
Proof.
  intros Hx Hin%includes_spec%contains_head_In Hb.
  unfold blank in Hb. rewrite List.Forall_forall in Hb. apply Hb in Hin. congruence.
Qed.

Lemma includes_trimStart s x d :
  Js.isWhiteSpace x = false -> Js.includes (Js.trimStart s) (x :: d) = Js.includes s (x :: d).
Proof.
  intros Hx. induction s as [|c s IH]; [done|].
  cbn [Js.trimStart]. destruct (Js.isWhiteSpace c) eqn:Ec; [|done].
  rewrite IH. cbn [Js.includes Js.startsWith].
  destruct (Ascii.eqb_spec x c) as [->|_]; [congruence|done].
Qed.

Lemma contains_rev s d : contains s d -> contains (rev s) (rev d).
Proof.
  intros (p & q & ->). exists (rev q), (rev p). by rewrite !rev_app_distr, app_assoc.
Qed.

Lemma includes_rev s d : Js.includes (rev s) (rev d) = Js.includes s d.
Proof.
  apply eq_true_iff_eq. rewrite !includes_spec. split.
  - intros H%contains_rev. by rewrite !rev_involutive in H.
  - apply contains_rev.
Qed.

Lemma includes_trim s x d :
  Forall (fun c => Js.isWhiteSpace c = false) (x :: d) ->
  Js.includes (Js.trim s) (x :: d) = Js.includes s (x :: d).
Proof.
  intros Hd. unfold Js.trim, Js.trimEnd.
  rewrite <- (includes_trimStart s x d) by by inversion Hd.
  rewrite <- (rev_involutive (x :: d)). rewrite includes_rev.
  destruct (rev (x :: d)) as [|y r] eqn:E.
  { apply (f_equal (@length _)) in E. rewrite length_rev in E. done. }
  rewrite includes_trimStart.
  - rewrite <- E. by rewrite includes_rev, rev_involutive.
  - apply Forall_rev in Hd. rewrite E in Hd. by inversion Hd.
Qed.

Lemma startsWith_replace_ws_runs_keeps s d :
  Forall (fun c => Js.isWhiteSpace c = false) d ->
  Js.startsWith s d = true -> Js.startsWith (replace_ws_runs_from false s) d = true.
Proof.
  intros Hd. revert s. induction Hd as [|x d Hx Hd IH]; intros s; [done|].
  destruct s as [|y s]; [done|]. cbn [Js.startsWith replace_ws_runs_from].
  rewrite andb_true_iff. intros [Hxy Hs]. apply Ascii.eqb_eq in Hxy as <-.
  rewrite Hx. cbn [Js.startsWith]. rewrite Ascii.eqb_refl. by apply IH.
Qed.

Lemma includes_replace_ws_runs_keeps inws s x d :
  Forall (fun c => Js.isWhiteSpace c = false) (x :: d) ->
  Js.includes s (x :: d) = true ->
  Js.includes (replace_ws_runs_from inws s) (x :: d) = true.
Proof.
  intros Hd. revert inws. induction s as [|y s IH]; intros inws; [done|].
  cbn [Js.includes]. rewrite orb_true_iff. intros [H|H].
  - assert (Js.isWhiteSpace y = false) as Ey.
    { cbn [Js.startsWith] in H. apply andb_true_iff in H as [->%Ascii.eqb_eq _].
      by inversion Hd. }
    cbn [replace_ws_runs_from]. rewrite Ey.
    apply (startsWith_replace_ws_runs_keeps (y :: s)) in H; [|done].
    cbn [replace_ws_runs_from] in H. rewrite Ey in H.
    cbn [Js.includes]. by rewrite H.
  - cbn [replace_ws_runs_from]. destruct (Js.isWhiteSpace y).
    + destruct inws; [by apply IH|]. apply includes_cons. by apply IH.
    + apply includes_cons. by apply IH.
Qed.

(** Cleaning keeps every occurrence of a text free of white space. *)
Lemma includes_cleanText_keeps text x d :
  Forall (fun c => Js.isWhiteSpace c = false) (x :: d) ->
  Js.includes text (x :: d) = true -> Js.includes (cleanText text) (x :: d) = true.
Proof.
  intros Hd H. rewrite cleanText_two_steps. apply includes_replace_ws_runs_keeps; [done|].
  by rewrite includes_trim.
Qed.

(** X8: a card that passes [validateRawFlashcard] is formatted without
    exception, and what [formatCard] returns for it passes
    [validateFormattedFlashcard]: the content is not blank, it holds one
    of the separators, and the tags are those of the card. *)
Theorem formatCard_passes_validation card :
  vr_isValid (validateRawFlashcard card) = true ->
  exists formatted,
    formatCard card = Ok formatted
    /\ vr_isValid (validateFormattedFlashcard formatted) = true.
Proof.
  intros (_ & _ & Htype & Hcloze & Htags)%validateRawFlashcard_valid.
  apply isCardType_of_value in Htype as [t Ht].
  unfold formatCard. rewrite Ht. eexists. split; [done|].
  pose proof (CardType_of_value_inv _ _ Ht) as Hv.
  set (content := match t with OneWay => _ | _ => _ end).
  assert (exists x d, Js.isWhiteSpace x = false /\ Js.includes content (x :: d) = true
                      /\ (Js.includes content "::" || Js.includes content ":::"
                          || Js.includes content "?" || Js.includes content "==" = true))
    as (x & d & Hx & Hin & Hsyntax).
  { unfold content, formatOneWayCard, formatBidirectionalCard, formatMultiLineCard,
      formatMultiLineBidirectionalCard, formatClozeCard.
    destruct t.
    - exists ":"%char, [":"%char]. split; [done|].
      assert (Js.includes (cleanText (card_front card) ++ "::" ++ cleanText (card_back card)) "::"
              = true) as H by apply includes_middle.
      split; [exact H|]. cbn [list_ascii_of_string] in *. by rewrite H.
    - exists ":"%char, [":"%char]. split; [done|].
      assert (Js.includes (cleanText (card_front card) ++ ":::" ++ cleanText (card_back card)) "::"
              = true) as H.
      { apply (includes_middle _ "::" (":" ++ cleanText (card_back card))). }
      split; [exact H|]. cbn [list_ascii_of_string] in *. by rewrite H.
    - exists "?"%char, []. split; [done|].
      assert (Js.includes (cleanText (card_front card) ++ "?" ++ [Js.LF]
                           ++ cleanText (card_back card)) "?" = true) as H
        by apply includes_middle.
      split; [exact H|]. cbn [list_ascii_of_string] in *. rewrite H. by rewrite !orb_true_r.
    - exists "?"%char, []. split; [done|].
      assert (Js.includes (cleanText (card_front card) ++ "???" ++ [Js.LF]
                           ++ cleanText (card_back card)) "?" = true) as H.
      { apply (includes_middle _ "?" ("??" ++ [Js.LF] ++ cleanText (card_back card))). }
      split; [exact H|]. cbn [list_ascii_of_string] in *. rewrite H. by rewrite !orb_true_r.
    - exists "="%char, ["="%char]. split; [done|].
      assert (Js.includes (cleanText (card_front card)) "==" = true) as H.
      { apply includes_cleanText_keeps; [by repeat constructor|].
        destruct (Hcloze (eq_sym Hv)) as (p & m & q & -> & _).
        apply (includes_middle p "==" (m ++ "==" ++ q)). }
      split; [exact H|]. cbn [list_ascii_of_string] in *. rewrite H. by rewrite !orb_true_r. }
  unfold validateFormattedFlashcard. cbn [vr_isValid fmt_content fmt_tags].
  fold content. rewrite Hsyntax. cbn [negb]. rewrite app_nil_r.
  rewrite Nat.eqb_eq, length_zero_iff_nil, !app_nil, if_singleton_nil.
  rewrite <- not_true_iff_false, blank_check. split.
  - by eapply includes_not_blank.
  - destruct (card_tags card) as [tags|] eqn:E; [|done]. cbn [default].
    apply flat_map_nil. intros tag Htag. apply tagErrors_nil. by eapply Htags.
Qed.

Lemma formatCard_passes_validation_witness :
  exists formatted,
    formatCard plainCard = Ok formatted
    /\ vr_isValid (validateFormattedFlashcard formatted) = true.
Proof. apply (formatCard_passes_validation plainCard). reflexivity. Defined.

Lemma trimStart_app_nonws (p : str) x (q : str) :
  Js.isWhiteSpace x = false -> Js.trimStart (p ++ x :: q) = Js.trimStart p ++ x :: q.
Proof.
  intros Hx. induction p as [|c p IH]; simpl; [by rewrite Hx|].
  by destruct (Js.isWhiteSpace c).
Qed.

Lemma trimEnd_app_nonws (p : str) x (q : str) :
  Js.isWhiteSpace x = false -> Js.trimEnd (p ++ x :: q) = p ++ x :: Js.trimEnd q.
Proof.
  intros Hx. unfold Js.trimEnd. rewrite rev_app_distr. cbn [rev].
  rewrite <- app_assoc. cbn [app]. rewrite trimStart_app_nonws by done.
  rewrite rev_app_distr. cbn [rev]. rewrite rev_involutive.
  by rewrite <- app_assoc.
Qed.

Lemma has_cloze_span_trim s : has_cloze_span s -> has_cloze_span (Js.trim s).
Proof.
  intros (p & t & q & -> & Ht & Hno). unfold Js.trim.
  cbn [list_ascii_of_string app].
  rewrite trimStart_app_nonws by done.
  exists (Js.trimStart p), t, (Js.trimEnd q). split; [|done].
  cbn [list_ascii_of_string app].
  replace (Js.trimStart p ++ "="%char :: "="%char :: t ++ "="%char :: "="%char :: q)
    with ((Js.trimStart p ++ "="%char :: "="%char :: t ++ ["="%char]) ++ "="%char :: q).
  2:{ rewrite <- !app_assoc. cbn [app]. by rewrite <- !app_assoc. }
  rewrite trimEnd_app_nonws by done.
  rewrite <- !app_assoc. cbn [app]. by rewrite <- !app_assoc.
Qed.

Lemma span_close_replace_ws_runs inws s :
  span_close s = true -> span_close (replace_ws_runs_from inws s) = true.
Proof.
  revert inws. induction s as [|c s IH]; intros inws; [done|].
  cbn [span_close replace_ws_runs_from].
  destruct (Ascii.eqb_spec c "=") as [->|Hc].
  - destruct s as [|d s]; [done|]. intros ->%Ascii.eqb_eq.
    cbn [replace_ws_runs_from]. change (Js.isWhiteSpace "=") with false. cbn iota.
    cbn [span_close]. by rewrite !Ascii.eqb_refl.
  - intros H. destruct (Js.isWhiteSpace c).
    + destruct inws; [by apply IH|]. cbn [span_close].
      change (Ascii.eqb Js.SP "=") with false. cbn iota. by apply IH.
    + cbn [span_close]. destruct (Ascii.eqb_spec c "="); [done|]. by apply IH.
Qed.

Lemma span_at_replace_ws_runs inws s :
  span_at s = true -> span_at (replace_ws_runs_from inws s) = true.
Proof.
  destruct s as [|a [|b [|c r]]]; try done. cbn [span_at].
  rewrite !andb_true_iff, negb_true_iff.
  intros [[[->%Ascii.eqb_eq ->%Ascii.eqb_eq] Hc] Hclose].
  cbn [replace_ws_runs_from]. change (Js.isWhiteSpace "=") with false. cbn iota.
  destruct (Js.isWhiteSpace c).
  - cbn [span_at]. rewrite !Ascii.eqb_refl. change (Ascii.eqb Js.SP "=") with false.
    cbn [andb negb]. by apply span_close_replace_ws_runs.
  - cbn [span_at]. rewrite !Ascii.eqb_refl, Hc. cbn [andb negb].
    by apply span_close_replace_ws_runs.
Qed.

Lemma match_cloze_span_cons c s : match_cloze_span s = true -> match_cloze_span (c :: s) = true.
Proof. intros H. cbn [match_cloze_span]. rewrite H. apply orb_true_r. Qed.

Lemma match_cloze_span_replace_ws_runs inws s :
  match_cloze_span s = true -> match_cloze_span (replace_ws_runs_from inws s) = true.
Proof.
  revert inws. induction s as [|c s IH]; intros inws; [done|].
  intros H. destruct (span_at (c :: s)) eqn:Eat.
  { apply (span_at_replace_ws_runs inws) in Eat.
    destruct (replace_ws_runs_from inws (c :: s)); [done|].
    cbn [match_cloze_span]. by rewrite Eat. }
  cbn [match_cloze_span] in H. rewrite Eat in H. cbn [orb] in H.
  cbn [replace_ws_runs_from]. destruct (Js.isWhiteSpace c).
  - destruct inws; [by apply IH|]. by apply match_cloze_span_cons, IH.
  - by apply match_cloze_span_cons, IH.
Qed.

(** Cleaning keeps a cloze span. *)
Lemma match_cloze_span_cleanText text :
  has_cloze_span text -> match_cloze_span (cleanText text) = true.
Proof.
  intros H%has_cloze_span_trim%match_cloze_span_spec.
  rewrite cleanText_two_steps. by apply match_cloze_span_replace_ws_runs.
Qed.

(** X9: the round trip of the Cloze type: when the front has a match of
    [/==[^=]+==/] and holds none of the separators of the other types,
    the markup [formatCard] gives the card is detected as Cloze again by
    [detectCardType], whatever the back. *)
Theorem roundtrip_cloze front back :
  match_cloze_span front = true ->
  delimiterFree Cloze front = true ->
  exists markup,
    encode front back Cloze = Some markup /\ detectCardType markup = Some Cloze.
Proof.
  intros Hspan%match_cloze_span_spec Hfree. rewrite encode_eq. eexists. split; [done|].
  pose proof (delimiterFree_spec _ _ Hfree) as Hsep.
  unfold detectCardType. cbn [list_ascii_of_string].
  rewrite (includes_cleanText front "?" ["?"; "?"]%char);
    [|by repeat constructor|exact (Hsep MultiLineBidirectional ltac:(done))].
  rewrite (includes_cleanText front ":" [":"; ":"]%char);
    [|by repeat constructor|exact (Hsep Bidirectional ltac:(done))].
  rewrite (includes_cleanText front ":" [":"]%char);
    [|by repeat constructor|exact (Hsep OneWay ltac:(done))].
  rewrite (includes_cleanText front "?" []%char);
    [|by repeat constructor|exact (Hsep MultiLine ltac:(done))].
  rewrite match_cloze_span_cleanText by done.
  rewrite (includes_cleanText_keeps front "=" ["="]%char); [done|by repeat constructor|].
  destruct Hspan as (p & t & q & -> & _). apply (includes_middle p "==" (t ++ "==" ++ q)).
Qed.

Lemma roundtrip_cloze_witness :
  exists markup,
    encode "The ==cell== is the unit of life" "cell" Cloze = Some markup
    /\ detectCardType markup = Some Cloze.
Proof.
  apply (roundtrip_cloze "The ==cell== is the unit of life" "cell"); reflexivity.
Defined.

End Formatting.

(** * Batches of cards: validation, the limit and the result *)

Section Batches.

Implicit Types (card : RawFlashcard) (cards : list RawFlashcard)
  (options : GenerationOptions) (response : FlashcardResponse) (provider : LLMProvider).

Lemma arrayErrors_spec i cards errors :
  arrayErrors i cards errors = errors ++ rejectionReasons i cards.
Proof.
  revert i errors. induction cards as [|card rest IH]; intros i errors.
  - simpl. by rewrite app_nil_r.
  - cbn [arrayErrors rejectionReasons]. rewrite IH.
    destruct (vr_isValid (validateRawFlashcard card)); cbn [negb]; [done|].
    by rewrite <- app_assoc.
Qed.

Lemma rejectionReasons_nil i cards :
  rejectionReasons i cards = [] <->
  Forall (fun card => vr_isValid (validateRawFlashcard card) = true) cards.
Proof.
  revert i. induction cards as [|card rest IH]; intros i; [done|].
  cbn [rejectionReasons]. rewrite app_nil, IH, List.Forall_cons_iff.
  destruct (vr_isValid (validateRawFlashcard card)); split; intros [? ?]; by split.
Qed.

(** X10: [validateFlashcardArray] accepts exactly the arrays that are not
    empty and whose every card passes [validateRawFlashcard]; the errors
    it reports for an array that is not empty are the entries, "Card n:
    reasons", that [processLLMResponse] collects for the same cards. *)
Theorem validateFlashcardArray_accepts cards :
  (vr_isValid (validateFlashcardArray cards) = true <->
   cards <> []
   /\ Forall (fun card => vr_isValid (validateRawFlashcard card) = true) cards)
  /\ (forall options,
        cards <> [] ->
        vr_errors (validateFlashcardArray cards)
        = snd (validateCards options 0 cards [] [])).
Proof.
  unfold validateFlashcardArray. destruct cards as [|card rest].
  { split; [by split; [|intros []]|done]. }
  cbn [length Nat.eqb vr_isValid vr_errors]. rewrite arrayErrors_spec. cbn [app]. split.
  - rewrite Nat.eqb_eq, length_zero_iff_nil, rejectionReasons_nil. by split; [|intros []].
  - intros options _. by rewrite validateCards_errors.
Qed.

Lemma convertCardType_acceptable card target converted :
  vr_isValid (validateRawFlashcard card) = true ->
  convertCardType card target = Some converted ->
  vr_isValid (validateRawFlashcard converted) = true
  /\ target = Some (card_type converted).
Proof.
  intros (Hf & Hb & _ & _ & Htags)%validateRawFlashcard_valid Hconv.
  unfold convertCardType in Hconv.
  destruct target as [s|]; [|done]. cbn [mbind option_bind] in Hconv.
  destruct (CardType_of_value s) as [t|] eqn:Et; [|by destruct s].
  apply CardType_of_value_inv in Et.
  assert (converted = withType card t /\
          (t = Cloze -> has_cloze_span (card_front card))) as [-> Hspan].
  { destruct t; try (injection Hconv as <-; by split).
    destruct (Js.includes _ _ && match_cloze_span _) eqn:E; [|done].
    injection Hconv as <-. split; [done|]. intros _.
    apply andb_true_iff in E as [_ E]. by apply match_cloze_span_spec. }
  split; [|by rewrite <- Et].
  apply validateRawFlashcard_valid. cbn [withType card_front card_back card_type card_tags].
  split; [done|]. split; [done|]. split; [by destruct t|]. split; [|done].
  intros Hc. apply Hspan. by destruct t.
Qed.

Lemma validateCards_acceptable options i cards validated errors :
  Forall (acceptable options) validated ->
  Forall (acceptable options) (fst (validateCards options i cards validated errors)).
Proof.
  revert i validated errors. induction cards as [|card rest IH]; intros i validated errors Hacc;
    [done|].
  cbn [validateCards].
  destruct (vr_isValid (validateRawFlashcard card)) eqn:Hvalid; [|by apply IH].
  destruct (existsb _ _) eqn:Hin.
  - apply IH. apply Forall_app. split; [done|]. constructor; [|done]. split; [done|].
    apply existsb_exists in Hin as (t & Hin & <-%str_eqb_eq). done.
  - destruct (convertCardType _ _) as [converted|] eqn:Hconv; [|by apply IH].
    apply IH. apply Forall_app. split; [done|]. constructor; [|done].
    destruct (convertCardType_acceptable _ _ _ Hvalid Hconv) as [Hv Ht].
    split; [done|]. destruct (opt_cardTypes options) as [|t ts]; [done|].
    injection Ht as ->. by left.
Qed.

Lemma spliceFrom_limited m cards :
  (if negb (m =? 0)%Z && (Z.of_nat (length cards) >? m)%Z then spliceFrom cards m else cards)
  = limited (Some m) cards.
Proof.
  unfold limited, spliceFrom.
  destruct (Z.ltb_spec 0 m) as [Hpos|Hle].
  - destruct (Z.eqb_spec m 0) as [?|_]; [lia|]. cbn [negb andb].
    destruct (Z.gtb_spec (Z.of_nat (length cards)) m) as [Hgt|Hle].
    + destruct (Z.ltb_spec m 0); [lia|]. f_equal. lia.
    + rewrite take_ge; [done|]. lia.
  - destruct (Z.eqb_spec m 0) as [->|Hne]; [done|]. cbn [negb andb].
    destruct (Z.gtb_spec (Z.of_nat (length cards)) m) as [_|?]; [|lia].
    destruct (Z.ltb_spec m 0); [|lia]. f_equal. lia.
Qed.

(** What [processLLMResponse] does, by cases on the cards of the response
    and on those that survive. *)
Lemma processLLMResponse_eq response options trace :
  processLLMResponse response options trace =
  match resp_cards response with
  | [] =>
      (failure (Some ("LLM did not generate any flashcards. Try rephrasing your content or adjusting the prompt." : str)), trace)
  | _ :: _ =>
      match survivors options (resp_cards response) with
      | [] => (failure (Some (noValidMessage (rejectionReasons 0 (resp_cards response)))), trace)
      | _ :: _ =>
          ({| res_success := true; res_formattedCards := None;
              res_rawCards := Some (returnedCards options response);
              res_error := None; res_metadata := None |},
           trace ++ skippedNotice (rejectionReasons 0 (resp_cards response)))
      end
  end.
Proof.
  unfold processLLMResponse, returnedCards, survivors.
  destruct (resp_cards response) as [|c cards] eqn:Ecards; [done|].
  cbn [length Nat.eqb].
  pose proof (validateCards_errors options 0 (c :: cards) [] []) as Herr.
  destruct (validateCards options 0 (c :: cards) [] []) as [validated errors].
  cbn [fst snd app] in *. subst errors.
  destruct validated as [|v validated]; [done|].
  change (length (v :: validated) =? 0)%nat with false. cbn iota.
  assert (match opt_maxCards options with
          | Some maxCards =>
              if negb (maxCards =? 0)%Z && (Z.of_nat (length (v :: validated)) >? maxCards)%Z
              then spliceFrom (v :: validated) maxCards
              else v :: validated
          | None => v :: validated
          end = limited (opt_maxCards options) (v :: validated)) as ->.
  { destruct (opt_maxCards options) as [m|]; [apply spliceFrom_limited | done]. }
  unfold eff_bind, eff_emit, eff_ret, skippedNotice.
  destruct (rejectionReasons 0 (c :: cards)) as [|r rs]; [|done].
  cbn. by rewrite app_nil_r.
Qed.

(** X11: when at least one card survives, [processLLMResponse] succeeds,
    and the cards it returns are the survivors in their order, cut by
    [maxCards]: a positive limit keeps the first [maxCards] of them, no
    limit or the limit 0 keeps them all, and a negative limit, which
    [splice] counts from the end, drops that many of the last ones. *)
Theorem processLLMResponse_limit response options trace :
  survivors options (resp_cards response) <> [] ->
  exists cards,
    fst (processLLMResponse response options trace)
    = {| res_success := true; res_formattedCards := None; res_rawCards := Some cards;
         res_error := None; res_metadata := None |}
    /\ match opt_maxCards options with
       | Some maxCards =>
           ((0 < maxCards)%Z ->
            cards = take (Z.to_nat maxCards) (survivors options (resp_cards response)))
           /\ (maxCards = 0%Z -> cards = survivors options (resp_cards response))
           /\ ((maxCards < 0)%Z ->
               cards = take (length (survivors options (resp_cards response))
                             - Z.to_nat (- maxCards))
                         (survivors options (resp_cards response)))
       | None => cards = survivors options (resp_cards response)
       end.
Proof.
  intros Hsurv. rewrite processLLMResponse_eq. unfold returnedCards.
  destruct (resp_cards response) as [|c cs] eqn:Ecards; [done|]. rewrite <- Ecards in *.
  destruct (survivors options (resp_cards response)) as [|v vs] eqn:Es; [done|].
  eexists. split; [done|]. unfold limited.
  destruct (opt_maxCards options) as [m|]; [|done].
  destruct (Z.ltb_spec 0 m); [by repeat split; intros; lia|].
  destruct (Z.eqb_spec m 0); repeat split; intros; first [done|lia].
Qed.

Lemma processLLMResponse_limit_witness :
  exists cards,
    fst (processLLMResponse {| resp_cards := [plainCard; plainCard]; resp_metadata := None |}
           oneCardOptions [])
    = {| res_success := true; res_formattedCards := None; res_rawCards := Some cards;
         res_error := None; res_metadata := None |}
    /\ ((0 < 1)%Z -> cards = take (Z.to_nat 1) [plainCard; plainCard])
       /\ (1%Z = 0%Z -> cards = [plainCard; plainCard])
       /\ ((1 < 0)%Z -> cards = take (2 - Z.to_nat (- 1)) [plainCard; plainCard]).
Proof.
  apply (processLLMResponse_limit
           {| resp_cards := [plainCard; plainCard]; resp_metadata := None |}
           oneCardOptions []).
  vm_compute. discriminate.
Defined.

Lemma limited_take maxCards cards : exists n, limited maxCards cards = take n cards.
Proof.
  unfold limited. destruct maxCards as [m|]; [|exists (length cards); by rewrite take_ge].
  destruct (0 <? m)%Z; [by eexists|].
  destruct (m =? 0)%Z; [exists (length cards); by rewrite take_ge | by eexists].
Qed.

Lemma returnedCards_acceptable options response :
  Forall (acceptable options) (returnedCards options response).
Proof.
  unfold returnedCards.
  destruct (limited_take (opt_maxCards options) (survivors options (resp_cards response)))
    as [n ->].
  by apply Forall_take, validateCards_acceptable.
Qed.

Lemma formatCards_acceptable options cards tags :
  Forall (acceptable options) cards -> formatCards cards tags = Ok (deckOf cards).
Proof.
  intros Hacc. unfold formatCards, deckOf. destruct cards as [|c cs]; [done|].
  rewrite formatEach_spec.
  destruct (find _ (c :: cs)) as [bad|] eqn:E; [|done].
  apply find_some in E as [Hin Hbad]. rewrite List.Forall_forall in Hacc.
  destruct (Hacc bad Hin) as [(_ & _ & Htype & _)%validateRawFlashcard_valid _].
  rewrite canFormat_isCardType, Htype in Hbad. done.
Qed.

(** What [generateFlashcards] does, by cases. *)
Lemma generateFlashcards_eq provider content options trace :
  generateFlashcards provider content options trace =
  if negb (accepted content options) then
    (failure (iv_error (validateInput content options)), trace)
  else
    match provider content options with
    | Rejected error =>
        (failure (Some (handleError error)),
         (trace ++ [ProviderCall content options])
         ++ [ErrorLogged "Error generating flashcards:" error])
    | Resolved response =>
        match resp_cards response with
        | [] =>
            (failure (Some ("LLM did not generate any flashcards. Try rephrasing your content or adjusting the prompt." : str)),
             trace ++ [ProviderCall content options])
        | _ :: _ =>
            match survivors options (resp_cards response) with
            | [] =>
                (failure (Some (noValidMessage (rejectionReasons 0 (resp_cards response)))),
                 trace ++ [ProviderCall content options])
            | _ :: _ =>
                ({| res_success := true;
                    res_formattedCards := Some (deckOf (returnedCards options response));
                    res_rawCards := Some (returnedCards options response);
                    res_error := None;
                    res_metadata :=
                      Some {| rm_tokensUsed := resp_metadata response ≫= meta_tokensUsed;
                              rm_model := resp_metadata response ≫= meta_model;
                              rm_cardsGenerated := length (returnedCards options response) |} |},
                 (trace ++ [ProviderCall content options])
                 ++ skippedNotice (rejectionReasons 0 (resp_cards response)))
            end
        end
    end.
Proof.
  unfold generateFlashcards, accepted.
  destruct (negb (iv_isValid (validateInput content options))); [done|].
  unfold callProvider, eff_bind at 1 2, eff_emit, eff_ret at 1.
  destruct (provider content options) as [response|error]; [|done].
  unfold eff_bind. rewrite processLLMResponse_eq.
  destruct (resp_cards response) as [|c cards] eqn:Ecards; [done|]. rewrite <- Ecards.
  destruct (survivors options (resp_cards response)) as [|v vs] eqn:Esurv; [done|].
  cbn [res_success negb res_rawCards default].
  by rewrite (formatCards_acceptable options _ _ (returnedCards_acceptable options response)).
Qed.

(** X12: [generateFlashcards] answers [success = true] exactly when the
    request passes [validateInput], the promise of the provider resolves,
    and at least one card of the response survives validation and
    coercion: the formatting of the surviving cards never throws. *)
Theorem generateFlashcards_succeeds_iff provider content options trace :
  res_success (fst (generateFlashcards provider content options trace)) = true <->
  accepted content options = true
  /\ exists response,
       provider content options = Resolved response
       /\ survivors options (resp_cards response) <> [].
Proof.
  rewrite generateFlashcards_eq.
  destruct (accepted content options); cbn [negb]; [|by split; [|intros []]].
  destruct (provider content options) as [response|error].
  - destruct (resp_cards response) as [|c cards] eqn:Ecards.
    + split; [done|]. intros (_ & r & [= <-] & Hs). by rewrite Ecards in Hs.
    + rewrite <- Ecards.
      destruct (survivors options (resp_cards response)) as [|v vs] eqn:Esurv.
      * split; [done|]. intros (_ & r & [= <-] & Hs). by rewrite Esurv in Hs.
      * split; [|done]. intros _. split; [done|]. exists response. by rewrite Esurv.
  - split; [done|]. by intros (_ & r & [=] & _).
Qed.

(** X13: the effects of [generateFlashcards]: nothing for a request that
    is turned down; otherwise one call of the provider, with the content
    and the options of the request, followed, when the promise of the
    provider is rejected, by one line of [console.error] with the label
    [Error generating flashcards:] and the value of the rejection, and,
    when the generation succeeds and cards failed validation, by one
    notice giving their number; there is no other effect. *)
Theorem generateFlashcards_effects provider content options trace :
  snd (generateFlashcards provider content options trace) =
  trace
  ++ (if accepted content options then
        ProviderCall content options
        :: match provider content options with
           | Resolved response =>
               match survivors options (resp_cards response) with
               | [] => []
               | _ :: _ => skippedNotice (rejectionReasons 0 (resp_cards response))
               end
           | Rejected error => [ErrorLogged "Error generating flashcards:" error]
           end
      else []).
Proof.
  rewrite generateFlashcards_eq.
  destruct (accepted content options); cbn [negb snd]; [|by rewrite app_nil_r].
  destruct (provider content options) as [response|error];
    [|cbn [snd]; by rewrite <- app_assoc].
  destruct (resp_cards response) as [|c cards] eqn:Ecards; [done|].
  destruct (survivors options (c :: cards)); [done|].
  cbn [snd]. by rewrite <- app_assoc.
Qed.

(** X14: the shape of the result of [generateFlashcards].  With
    [success = true] it holds cards that each pass validation and have
    one of the allowed types, the deck that [formatCards] makes of these
    cards, no error, and their number as [cardsGenerated]; with
    [success = false] it holds an error message and nothing else. *)
Theorem generateFlashcards_result_shape provider content options trace :
  let result := fst (generateFlashcards provider content options trace) in
  if res_success result then
    exists cards,
      res_rawCards result = Some cards
      /\ Forall (acceptable options) cards
      /\ res_formattedCards result = Some (deckOf cards)
      /\ formatCards cards (default [] (opt_tags options)) = Ok (deckOf cards)
      /\ res_error result = None
      /\ rm_cardsGenerated <$> res_metadata result = Some (length cards)
  else
    (exists message, res_error result = Some message)
    /\ res_rawCards result = None
    /\ res_formattedCards result = None
    /\ res_metadata result = None.
Proof.
  cbv zeta. rewrite generateFlashcards_eq.
  destruct (accepted content options) eqn:Hacc; cbn [negb].
  2:{ cbn. repeat split. unfold accepted, validateInput in *.
      repeat match goal with
             | H : context [if ?b then _ else _] |- _ => destruct b
             | H : context [match ?b with Some _ => _ | None => _ end] |- _ => destruct b
             | |- context [if ?b then _ else _] => destruct b
             end; by eauto. }
  destruct (provider content options) as [response|error]; [|cbn; by eauto].
  destruct (resp_cards response) as [|c cards] eqn:Ecards; [cbn; by eauto|].
  rewrite <- Ecards.
  destruct (survivors options (resp_cards response)) as [|v vs] eqn:Esurv; [cbn; by eauto|].
  cbn [fst res_success]. exists (returnedCards options response).
  pose proof (returnedCards_acceptable options response) as H.
  repeat split; try done. by eapply formatCards_acceptable.
Qed.

End Batches.

(** * Chunking: when it ends and what it returns *)

Section Windows.

Implicit Types (content : str) (words : list str) (st : ChunkState).

(** Without overlap, or with a negative one, a window that is wider than
    the overlap moves the start index forward, and the loop is left. *)
Lemma chunkLoop_terminates words chunkSize overlapSize fuel st :
  (overlapSize <= 0)%Z -> (overlapSize < chunkSize)%Z ->
  (0 <= startIndex st)%Z ->
  (Z.max 0 (Z.of_nat (length words) - startIndex st) < Z.of_nat fuel)%Z ->
  exists result, chunkLoop fuel words chunkSize overlapSize st = Some result.
Proof.
  intros HO HW. revert st. induction fuel as [|fuel IH]; intros st Hst Hfuel; [lia|].
  cbn [chunkLoop]. unfold chunkIter.
  destruct (Z.ltb_spec (startIndex st) (Z.of_nat (length words))) as [Hin|_]; [|by eexists].
  destruct (Z.geb_spec
              (Z.min (startIndex st + chunkSize) (Z.of_nat (length words)) - overlapSize)
              (Z.of_nat (length words))) as [_|Hnext]; [by eexists|].
  apply IH; cbn [startIndex]; lia.
Qed.

(** A window that is not wider than the overlap never moves the start
    index forward. *)
Lemma chunkLoop_steps_back words chunkSize overlapSize fuel st :
  (overlapSize <= 0)%Z -> (chunkSize <= overlapSize)%Z ->
  (0 < length words)%nat -> (startIndex st <= 0)%Z ->
  chunkLoop fuel words chunkSize overlapSize st = None.
Proof.
  intros HO HW HN. revert st. induction fuel as [|fuel IH]; intros st Hst; [done|].
  cbn [chunkLoop]. unfold chunkIter.
  destruct (Z.ltb_spec (startIndex st) (Z.of_nat (length words))) as [_|?]; [|lia].
  destruct (Z.geb_spec
              (Z.min (startIndex st + chunkSize) (Z.of_nat (length words)) - overlapSize)
              (Z.of_nat (length words))) as [?|_]; [lia|].
  apply IH. cbn [startIndex]. lia.
Qed.

(** X15: [chunkContent] returns, for whole numbers [chunkSize] and
    [overlapSize], exactly when the text has at most [chunkSize] pieces,
    or the overlap is zero or negative and smaller than the window; in
    every other case, a positive overlap among them, its loop is never
    left. *)
Theorem chunkContent_returns_iff content chunkSize overlapSize :
  (exists fuel result, chunkContent fuel content chunkSize overlapSize = Some result) <->
  (Z.of_nat (length (Js.splitWs content)) <= chunkSize)%Z
  \/ (overlapSize <= 0 /\ overlapSize < chunkSize)%Z.
Proof.
  pose proof (splitWs_from_nonempty false content) as HN. fold (Js.splitWs content) in HN.
  split.
  - intros (fuel & result & Hret).
    destruct (Z.le_gt_cases (Z.of_nat (length (Js.splitWs content))) chunkSize) as [?|HW];
      [by left|right].
    unfold chunkContent in Hret.
    destruct (Z.leb_spec (Z.of_nat (length (Js.splitWs content))) chunkSize) as [?|_]; [lia|].
    destruct (Z.lt_ge_cases 0 overlapSize) as [HO|HO].
    { rewrite chunkLoop_never_returns in Hret; [done|done|]. cbn [startIndex]. lia. }
    split; [done|].
    destruct (Z.lt_ge_cases overlapSize chunkSize) as [?|Hback]; [done|].
    rewrite chunkLoop_steps_back in Hret; done.
  - intros [Hshort|[HO HW]].
    + exists 0%nat, [content]. by apply chunkContent_short.
    + unfold chunkContent.
      destruct (Z.leb_spec (Z.of_nat (length (Js.splitWs content))) chunkSize) as [?|_];
        [by exists 0%nat; eexists|].
      exists (S (length (Js.splitWs content))).
      apply chunkLoop_terminates; [done|done|done|]. cbn [startIndex]. lia.
Qed.

Lemma join_sep_cons sep (x : str) (l : list str) :
  l <> [] -> Js.join sep (x :: l) = x ++ sep ++ Js.join sep l.
Proof. intros H. destruct l; [congruence|done]. Qed.

Lemma join_sep_app sep (l1 l2 : list str) :
  l1 <> [] -> l2 <> [] ->
  Js.join sep (l1 ++ l2) = Js.join sep l1 ++ sep ++ Js.join sep l2.
Proof.
  intros H1 H2. induction l1 as [|x l1 IH]; [done|].
  destruct l1 as [|y l1].
  - simpl. by destruct l2.
  - change ((x :: y :: l1) ++ l2) with (x :: ((y :: l1) ++ l2)).
    rewrite join_sep_cons by done. rewrite IH by done.
    rewrite (join_sep_cons sep x (y :: l1)) by done. by rewrite <- !app_assoc.
Qed.

Lemma join_sep_concat sep (groups : list (list str)) :
  Forall (fun g => g <> []) groups ->
  Js.join sep (map (Js.join sep) groups) = Js.join sep (concat groups).
Proof.
  induction 1 as [|g groups Hg Hall IH]; [done|].
  destruct groups as [|g' groups].
  - simpl. by rewrite app_nil_r.
  - cbn [map concat].
    rewrite (join_sep_cons sep (Js.join sep g) (Js.join sep g' :: map (Js.join sep) groups))
      by done.
    cbn [map concat] in IH. rewrite IH.
    rewrite (join_sep_app sep g (g' ++ concat groups)); [done|done|].
    inversion Hall as [|? ? Hg' _]; subst. destruct g'; [congruence|discriminate].
Qed.

Lemma chunkLoop_partition words W fuel k acc :
  (0 < W)%nat -> (k < length words)%nat -> (length words - k <= fuel)%nat ->
  exists groups,
    chunkLoop fuel words (Z.of_nat W) 0 {| startIndex := Z.of_nat k; chunks := acc |}
    = Some (acc ++ map (Js.join " ") groups)
    /\ concat groups = drop k words
    /\ Forall (fun g => 0 < length g <= W)%nat groups.
Proof.
  intros HW. revert k acc. induction fuel as [|fuel IH]; intros k acc Hk Hfuel; [lia|].
  cbn [chunkLoop]. unfold chunkIter. cbn [startIndex chunks].
  destruct (Z.ltb_spec (Z.of_nat k) (Z.of_nat (length words))) as [_|?]; [|lia].
  assert (slice words (Z.of_nat k)
            (Z.min (Z.of_nat k + Z.of_nat W) (Z.of_nat (length words)))
          = take W (drop k words)) as ->.
  { unfold slice.
    destruct (Z.ltb_spec (Z.of_nat k) 0); [lia|].
    destruct (Z.ltb_spec (Z.min (Z.of_nat k + Z.of_nat W) (Z.of_nat (length words))) 0); [lia|].
    replace (Z.to_nat (Z.min (Z.of_nat k) (Z.of_nat (length words)))) with k by lia.
    destruct (Nat.le_gt_cases (length words) (k + W)) as [Hend|Hend].
    - rewrite !take_ge; [done| |]; rewrite length_drop; lia.
    - f_equal. lia. }
  destruct (Z.geb_spec
              (Z.min (Z.of_nat k + Z.of_nat W) (Z.of_nat (length words)) - 0)
              (Z.of_nat (length words))) as [Hend|Hnext].
  - exists [take W (drop k words)]. split; [done|]. split.
    + simpl. rewrite app_nil_r. apply take_ge. rewrite length_drop. lia.
    + constructor; [|done]. rewrite length_take, length_drop. lia.
  - replace (Z.min (Z.of_nat k + Z.of_nat W) (Z.of_nat (length words)) - 0)%Z
      with (Z.of_nat (k + W)) by lia.
    destruct (IH (k + W)%nat (acc ++ [Js.join " " (take W (drop k words))]))
      as (groups & Hloop & Hconcat & Hall); [lia|lia|].
    exists (take W (drop k words) :: groups). split; [|split].
    + rewrite Hloop. by rewrite <- app_assoc.
    + cbn [concat]. rewrite Hconcat. rewrite <- (drop_drop words W k). apply take_drop.
    + constructor; [|done]. rewrite length_take, length_drop. lia.
Qed.

(** X16: without overlap and with a positive window, a text of more
    pieces than the window is cut into consecutive groups of its pieces:
    each chunk is one group joined by spaces, a group has between one and
    [chunkSize] pieces, the groups put end to end are the pieces of the
    text, and the chunks joined by spaces are the text with each run of
    white space replaced by one space. *)
Theorem chunkContent_partitions content chunkSize :
  (0 < chunkSize)%Z ->
  (chunkSize < Z.of_nat (length (Js.splitWs content)))%Z ->
  exists fuel groups,
    chunkContent fuel content chunkSize 0 = Some (map (Js.join " ") groups)
    /\ concat groups = Js.splitWs content
    /\ Forall (fun g => 0 < Z.of_nat (length g) <= chunkSize)%Z groups
    /\ Js.join " " (map (Js.join " ") groups) = replace_ws_runs content.
Proof.
  intros HW HN. unfold chunkContent.
  destruct (Z.leb_spec (Z.of_nat (length (Js.splitWs content))) chunkSize) as [?|_]; [lia|].
  destruct (chunkLoop_partition (Js.splitWs content) (Z.to_nat chunkSize)
              (length (Js.splitWs content)) 0 []) as (groups & Hloop & Hconcat & Hall);
    [lia|lia|lia|].
  exists (length (Js.splitWs content)), groups.
  rewrite Z2Nat.id in Hloop by lia. split; [exact Hloop|]. split; [exact Hconcat|]. split.
  - eapply Forall_impl; [exact Hall|]. intros g Hg. simpl in Hg. lia.
  - rewrite join_sep_concat.
    + rewrite Hconcat. apply join_splitWs_from.
    + eapply Forall_impl; [exact Hall|]. intros g Hg. simpl in Hg.
      destruct g; [simpl in Hg; lia|done].
Qed.

Lemma chunkContent_partitions_witness :
  exists fuel groups,
    chunkContent fuel "a b c d" 3 0 = Some (map (Js.join " ") groups)
    /\ concat groups = Js.splitWs "a b c d"
    /\ Forall (fun g => 0 < Z.of_nat (length g) <= 3)%Z groups
    /\ Js.join " " (map (Js.join " ") groups) = replace_ws_runs "a b c d".
Proof. apply (chunkContent_partitions "a b c d" 3); reflexivity. Defined.

End Windows.

(** * The light cleaning of a note *)

Section LightCleaning.

#[local] Arguments Ascii.eqb : simpl never.

Implicit Types (s content body fm : str).

Lemma collapse_line_feeds_from_spec run s :
  Js.includes (collapse_line_feeds_from run s) [Js.LF; Js.LF; Js.LF] = false
  /\ (leadingLineFeeds (collapse_line_feeds_from run s) <= 2 - run)%nat.
Proof.
  revert run. induction s as [|c s IH]; intros run; [split; [done|simpl; lia]|].
  cbn [collapse_line_feeds_from].
  destruct (Ascii.eqb_spec c Js.LF) as [->|Hc].
  - destruct (IH (S run)) as [Hno Hlead].
    destruct (Nat.ltb_spec run 2) as [Hrun|Hrun].
    + split.
      * cbn [Js.includes]. rewrite Hno, orb_false_r.
        cbn [Js.startsWith]. rewrite Ascii.eqb_refl. cbn [andb].
        destruct (collapse_line_feeds_from (S run) s) as [|x [|y r]]; [done| |].
        -- cbn [Js.startsWith]. by rewrite andb_false_r.
        -- cbn [leadingLineFeeds] in Hlead. cbn [Js.startsWith].
           destruct (Ascii.eqb_spec Js.LF x) as [<-|_]; [|done].
           destruct (Ascii.eqb_spec Js.LF y) as [<-|_]; [|done].
           rewrite !Ascii.eqb_refl in Hlead. lia.
      * cbn [leadingLineFeeds]. rewrite Ascii.eqb_refl. lia.
    + split; [done|lia].
  - destruct (IH 0%nat) as [Hno _]. split.
    + cbn [Js.includes]. rewrite Hno, orb_false_r. cbn [Js.startsWith].
      destruct (Ascii.eqb_spec Js.LF c) as [<-|_]; done.
    + cbn [leadingLineFeeds]. destruct (Ascii.eqb_spec c Js.LF); [done|lia].
Qed.

(** X17: the text [lightCleanMarkdown] returns never holds three line
    feeds in a row, and neither starts nor ends with white space. *)
Theorem lightCleanMarkdown_line_feeds content :
  Js.includes (lightCleanMarkdown content) [Js.LF; Js.LF; Js.LF] = false
  /\ tight (lightCleanMarkdown content).
Proof.
  unfold lightCleanMarkdown. split; [|apply trim_tight].
  apply includes_false. intros H%contains_trim%includes_spec.
  unfold collapse_line_feeds in H.
  by rewrite (proj1 (collapse_line_feeds_from_spec 0 _)) in H.
Qed.

Lemma startsWith_fence_prefix (fm r : str) :
  fm <> [] ->
  Js.startsWith (fm ++ "---" ++ r) "---" = Js.startsWith (fm ++ "--") "---".
Proof.
  intros Hne. destruct fm as [|a [|b [|c fm]]]; [done|..];
    cbn [app list_ascii_of_string Js.startsWith];
    by rewrite ?Ascii.eqb_refl, ?andb_true_r.
Qed.

Lemma afterClosingDashes_fence (fm body : str) :
  ~ contains (fm ++ "--") "---" ->
  afterClosingDashes (fm ++ "---" ++ [Js.LF] ++ body) = Some body.
Proof.
  induction fm as [|c fm IH]; intros Hno.
  - cbn. by rewrite Ascii.eqb_refl.
  - change ((c :: fm) ++ "---" ++ [Js.LF] ++ body)
      with (c :: (fm ++ "---" ++ [Js.LF] ++ body)).
    cbn [afterClosingDashes].
    change (c :: (fm ++ "---" ++ [Js.LF] ++ body))
      with ((c :: fm) ++ "---" ++ ([Js.LF] ++ body)).
    rewrite startsWith_fence_prefix by done.
    destruct (Js.startsWith ((c :: fm) ++ "--") "---") eqn:E.
    + exfalso. apply Hno. apply startsWith_spec in E as [q E]. exists [], q. by rewrite E.
    + apply IH. intros (p & q & E'). apply Hno. exists (c :: p), q.
      cbn [app]. by rewrite E'.
Qed.

Lemma removeFrontmatter_from_fence s rest :
  Js.startsWith s "---" = true ->
  afterClosingDashes (drop 3 s) = Some rest ->
  removeFrontmatter_from true s = rest.
Proof.
  intros Hstart Hclose. destruct s as [|c s]; [done|].
  cbn [removeFrontmatter_from]. rewrite Hstart. cbn [andb]. by rewrite Hclose.
Qed.

(** X18: a note that opens with a block of front matter, from [---] to
    the next [---] and the line feed after it, is cleaned as its body
    alone: the block, fences included, is removed before the line feeds
    are collapsed and the text is trimmed.  The block [fm] between the
    fences is any text in which no [---] begins. *)
Theorem lightCleanMarkdown_front_matter (fm body : str) :
  Js.includes (fm ++ "--") "---" = false ->
  lightCleanMarkdown ("---" ++ fm ++ "---" ++ [Js.LF] ++ body)
  = Js.trim (collapse_line_feeds body).
Proof.
  intros Hno%includes_false. unfold lightCleanMarkdown, removeFrontmatter. do 2 f_equal.
  apply removeFrontmatter_from_fence; [done|].
  change (drop 3 ("---" ++ fm ++ "---" ++ [Js.LF] ++ body))
    with (fm ++ "---" ++ [Js.LF] ++ body).
  by apply afterClosingDashes_fence.
Qed.

Lemma lightCleanMarkdown_front_matter_witness :
  lightCleanMarkdown ("---" ++ frontMatter ++ "---" ++ [Js.LF] ++ noteBody)
  = Js.trim (collapse_line_feeds noteBody).
Proof.
  apply (lightCleanMarkdown_front_matter frontMatter noteBody). reflexivity.
Defined.

End LightCleaning.

(** * Tags: merging and checking *)

Section Tags.

#[local] Arguments Ascii.eqb : simpl never.

Implicit Types (tag x : str) (tags acc : list str).

Lemma existsb_str_eqb x acc : existsb (str_eqb x) acc = true <-> In x acc.
Proof.
  rewrite existsb_exists. split.
  - by intros (y & Hin & ->%str_eqb_eq).
  - intros Hin. exists x. split; [done|]. by apply str_eqb_eq.
Qed.

Lemma setAdd_In acc x y : In y (setAdd acc x) <-> In y acc \/ y = x.
Proof.
  unfold setAdd. destruct (existsb (str_eqb x) acc) eqn:E.
  - apply existsb_str_eqb in E. split; [by left|]. by intros [?| ->].
  - rewrite in_app_iff. simpl. intuition.
Qed.

Lemma setAdd_NoDup acc x : NoDup acc -> NoDup (setAdd acc x).
Proof.
  intros Hnd. unfold setAdd. destruct (existsb (str_eqb x) acc) eqn:E; [done|].
  apply NoDup_app. split; [done|]. split; [|apply NoDup_singleton].
  intros y Hy ->%list_elem_of_singleton. apply list_elem_of_In, existsb_str_eqb in Hy.
  congruence.
Qed.

Lemma addTags_In acc source x :
  In x (addTags acc source) <->
  In x acc
  \/ exists tag, In tag (default [] source) /\ stripHashes tag <> [] /\ x = normalizedTag tag.
Proof.
  destruct source as [l|]; cbn [addTags default].
  2:{ split; [by left|]. by intros [?|(? & [] & _)]. }
  revert acc. induction l as [|t l IH]; intros acc.
  - simpl. split; [by left|]. by intros [?|(? & [] & _)].
  - cbn [fold_left]. rewrite IH. clear IH.
    destruct (stripHashes t) as [|c r] eqn:Et.
    + cbn [length Nat.ltb Nat.leb]. split.
      * intros [?|(tag & Hin & Hne & ->)]; [by left|]. right. exists tag. by split; [right|].
      * intros [?|(tag & [<-|Hin] & Hne & ->)]; [by left|congruence|].
        right. by exists tag.
    + change (0 <? length (c :: r))%nat with true. cbn iota. rewrite setAdd_In. split.
      * intros [[?| ->]|(tag & Hin & Hne & ->)]; [by left| |].
        -- right. exists t. split; [by left|]. split; [by rewrite Et|].
           unfold normalizedTag. by rewrite Et.
        -- right. exists tag. by split; [right|].
      * intros [?|(tag & [<-|Hin] & Hne & ->)]; [by left; left| |].
        -- left. right. unfold normalizedTag. by rewrite Et.
        -- right. by exists tag.
Qed.

Lemma addTags_NoDup acc source : NoDup acc -> NoDup (addTags acc source).
Proof.
  destruct source as [l|]; [|done]. cbn [addTags].
  revert acc. induction l as [|t l IH]; intros acc Hnd; [done|].
  cbn [fold_left]. apply IH. destruct (0 <? length (stripHashes t))%nat; [|done].
  by apply setAdd_NoDup.
Qed.

Lemma mergeTags_In cardTags optionTags x :
  In x (mergeTags cardTags optionTags) <->
  exists tag,
    In tag (sourceTags cardTags optionTags) /\ stripHashes tag <> [] /\ x = normalizedTag tag.
Proof.
  unfold mergeTags, sourceTags. rewrite !addTags_In. split.
  - intros [[[]|(tag & Hin & H)]|(tag & Hin & H)]; exists tag;
      (split; [apply in_app_iff; auto | done]).
  - intros (tag & [Hin|Hin]%in_app_iff & H); [left; right|right]; by exists tag.
Qed.

Lemma stripHashes_head tag c r : stripHashes tag = c :: r -> c <> "#"%char.
Proof.
  induction tag as [|x tag IH]; [done|]. cbn [stripHashes].
  destruct (Ascii.eqb_spec x "#") as [->|Hx]; [done|]. by intros [= <- _].
Qed.

Lemma stripHashes_In tag c : c <> "#"%char -> In c (stripHashes tag) <-> In c tag.
Proof.
  intros Hc. induction tag as [|x tag IH]; [done|]. cbn [stripHashes].
  destruct (Ascii.eqb_spec x "#") as [->|Hx]; [|done].
  rewrite IH. simpl. split; [by right|]. by intros [?|?]; [congruence|].
Qed.

Lemma normalizedTag_single_hash tag :
  stripHashes tag <> [] ->
  Js.startsWith (normalizedTag tag) "#" = true
  /\ Js.startsWith (normalizedTag tag) "##" = false.
Proof.
  intros Hne. unfold normalizedTag. split; [done|].
  destruct (stripHashes tag) as [|c r] eqn:E; [done|].
  apply stripHashes_head in E. cbn [list_ascii_of_string app Js.startsWith].
  rewrite Ascii.eqb_refl. cbn [andb].
  destruct (Ascii.eqb_spec "#" c) as [<-|_]; done.
Qed.

(** X19: [mergeTags] returns, without duplicate, the normal forms of the
    tags of the card and of the options that are more than [#]
    characters, where the normal form of a tag is [#] followed by the tag
    without its leading [#] characters; so every tag it returns starts
    with exactly one [#] and has something after it. *)
Theorem mergeTags_normalizes cardTags optionTags :
  NoDup (mergeTags cardTags optionTags)
  /\ (forall x,
        In x (mergeTags cardTags optionTags) <->
        exists tag,
          In tag (sourceTags cardTags optionTags)
          /\ stripHashes tag <> []
          /\ x = normalizedTag tag)
  /\ (forall x,
        In x (mergeTags cardTags optionTags) ->
        Js.startsWith x "#" = true /\ Js.startsWith x "##" = false
        /\ (1 < length x)%nat).
Proof.
  split; [|split].
  - apply addTags_NoDup, addTags_NoDup, NoDup_nil_2.
  - apply mergeTags_In.
  - intros x (tag & _ & Hne & ->)%mergeTags_In.
    destruct (normalizedTag_single_hash tag Hne) as [? ?]. repeat split; [done..|].
    unfold normalizedTag. destruct (stripHashes tag); [done|simpl; lia].
Qed.

(** X20: the tags [mergeTags] returns pass the two checks that
    [validateRawFlashcard] makes on tags exactly when no tag of the card
    or of the options, other than those made of [#] characters only,
    holds a space: merging repairs a missing or repeated [#], not a
    space. *)
Theorem mergeTags_tagErrors cardTags optionTags :
  flat_map tagErrors (mergeTags cardTags optionTags) = [] <->
  forall tag, In tag (sourceTags cardTags optionTags) ->
              stripHashes tag <> [] -> ~ In " "%char tag.
Proof.
  rewrite flat_map_nil. split.
  - intros H tag Hin Hne Hsp.
    assert (In (normalizedTag tag) (mergeTags cardTags optionTags)) as Hm.
    { apply mergeTags_In. by exists tag. }
    apply H, tagErrors_nil in Hm as [_ Hno]. apply Hno.
    unfold normalizedTag. right. by apply stripHashes_In.
  - intros H x (tag & Hin & Hne & ->)%mergeTags_In. apply tagErrors_nil. split.
    + by apply normalizedTag_single_hash.
    + unfold normalizedTag. intros [?|Hsp]; [done|].
      change (In " "%char (stripHashes tag)) in Hsp.
      apply (proj1 (stripHashes_In tag " " ltac:(done))) in Hsp.
      exact (H tag Hin Hne Hsp).
Qed.

(** Adding the tags of a list that is already in normal form and free of
    duplicates to tags that share none with it appends the list. *)
Lemma addTags_normal acc l :
  NoDup l ->
  (forall x, In x l -> exists tag, stripHashes tag <> [] /\ x = normalizedTag tag) ->
  (forall x, In x l -> ~ In x acc) ->
  addTags acc (Some l) = acc ++ l.
Proof.
  cbn [addTags]. revert acc. induction l as [|x l IH]; intros acc Hnd Hnorm Hdisj.
  - simpl. by rewrite app_nil_r.
  - cbn [fold_left].
    destruct (Hnorm x ltac:(by left)) as (tag & Hne & Hx).
    assert (stripHashes x = stripHashes tag) as Hstrip.
    { rewrite Hx. unfold normalizedTag. cbn [list_ascii_of_string app stripHashes].
      rewrite Ascii.eqb_refl. destruct (stripHashes tag) as [|c r] eqn:E; [done|].
      apply stripHashes_head in E. cbn [stripHashes].
      by destruct (Ascii.eqb_spec c "#"). }
    rewrite Hstrip. fold (normalizedTag tag). rewrite <- Hx.
    destruct (stripHashes tag) as [|c r] eqn:E; [done|].
    change (0 <? length (c :: r))%nat with true. cbn iota.
    unfold setAdd.
    destruct (existsb (str_eqb x) acc) eqn:Hex.
    { apply existsb_str_eqb in Hex. exfalso. by apply (Hdisj x); [left|]. }
    apply NoDup_cons in Hnd as [Hx_notin Hnd].
    rewrite IH; [by rewrite <- app_assoc|done| |].
    + intros y Hy. apply Hnorm. by right.
    + intros y Hy [Hacc|[<-|[]]]%in_app_iff.
      * by apply (Hdisj y); [right|].
      * apply Hx_notin. by apply list_elem_of_In.
Qed.

Lemma addTags_present acc l :
  (forall tag, In tag l -> stripHashes tag <> [] -> In (normalizedTag tag) acc) ->
  addTags acc (Some l) = acc.
Proof.
  cbn [addTags]. revert acc. induction l as [|t l IH]; intros acc Hin; [done|].
  cbn [fold_left].
  destruct (stripHashes t) as [|c r] eqn:E.
  - cbn [length Nat.ltb Nat.leb]. apply IH. intros tag Htag. apply Hin. by right.
  - change (0 <? length (c :: r))%nat with true. cbn iota.
    assert (setAdd acc ("#" ++ c :: r) = acc) as ->.
    { unfold setAdd.
      assert (In ("#" ++ c :: r) acc) as H.
      { rewrite <- E. apply Hin; [by left|]. by rewrite E. }
      apply existsb_str_eqb in H. by rewrite H. }
    apply IH. intros tag Htag. apply Hin. by right.
Qed.

(** X21: merging is stable: the tags [mergeTags] has returned, merged
    once more with the same tags of the options, are returned as they
    are, in the same order. *)
Theorem mergeTags_idempotent cardTags optionTags :
  mergeTags (Some (mergeTags cardTags optionTags)) optionTags
  = mergeTags cardTags optionTags.
Proof.
  set (merged := mergeTags cardTags optionTags).
  unfold mergeTags at 1.
  rewrite (addTags_normal [] merged).
  - cbn [app]. destruct optionTags as [l|]; [|done].
    apply addTags_present. intros tag Hin Hne. apply mergeTags_In.
    exists tag. split; [|done]. unfold sourceTags. apply in_app_iff. by right.
  - apply addTags_NoDup, addTags_NoDup, NoDup_nil_2.
  - intros x (tag & _ & Hne & ->)%mergeTags_In. by exists tag.
  - by intros x _ [].
Qed.

Lemma validateTag_errors (acc : TagValidationResult) tag :
  (tv_errors (validateTag acc tag) = tv_errors acc /\ tagAccepted tag)
  \/ (exists e, tv_errors (validateTag acc tag) = tv_errors acc ++ [e] /\ ~ tagAccepted tag).
Proof.
  unfold validateTag, tagAccepted.
  destruct (Nat.eqb_spec (length (Js.trim tag)) 0) as [H0|H0].
  { left. split; [done|]. left. by destruct (Js.trim tag). }
  destruct (Js.startsWith (Js.trim tag) "#") eqn:Hhash; cbn [negb].
  2:{ right. eexists. split; [done|]. intros [Hb|(? & _)]; [by rewrite Hb in H0|done]. }
  destruct (Nat.eqb_spec (length (Js.trim tag)) 1) as [H1|H1].
  { right. eexists. split; [done|]. intros [Hb|(_ & ? & _)]; [by rewrite Hb in H0|lia]. }
  destruct (Js.includes (Js.trim tag) " ") eqn:Hsp.
  { right. eexists. split; [done|]. intros [Hb|(_ & _ & Hno)]; [by rewrite Hb in H0|].
    apply Hno. by apply (includes_char _ " "%char). }
  left. split.
  - destruct (50 <? _)%nat, (Js.includes _ "##"), (existsb _ _); done.
  - right. split; [done|]. split; [destruct (Js.trim tag); simpl in *; lia|].
    intros Hin%(includes_char _ " "%char).
    change (Js.includes (Js.trim tag) [" "%char] = false) in Hsp. congruence.
Qed.

Lemma fold_validateTag_errors tags (acc : TagValidationResult) :
  tv_errors (fold_left validateTag tags acc) = tv_errors acc <-> Forall tagAccepted tags.
Proof.
  assert (forall tags (acc : TagValidationResult), exists es,
            tv_errors (fold_left validateTag tags acc) = tv_errors acc ++ es) as Hgrow.
  { clear. induction tags as [|tag tags IH]; intros acc.
    - exists []. simpl. by rewrite app_nil_r.
    - cbn [fold_left]. destruct (IH (validateTag acc tag)) as [es ->].
      destruct (validateTag_errors acc tag) as [[-> _]|(e & -> & _)]; [by eexists|].
      exists (e :: es). by rewrite <- app_assoc. }
  revert acc. induction tags as [|tag tags IH]; intros acc.
  - by split.
  - cbn [fold_left]. rewrite List.Forall_cons_iff.
    destruct (validateTag_errors acc tag) as [[He Hacc]|(e & He & Hrej)].
    + rewrite <- He. rewrite IH. by split; [|intros []].
    + split; [|by intros []]. intros H. exfalso.
      destruct (Hgrow tags (validateTag acc tag)) as [es Hes].
      rewrite Hes, He, <- app_assoc in H.
      apply (f_equal (@length _)) in H. rewrite length_app in H. simpl in H. lia.
Qed.

(** X22: [InputValidator.validateTags] reports no error exactly when
    every tag, once trimmed, is empty or is a [#] followed by at least
    one character and holds no space; what it reports besides, for long
    tags, repeated [#] and other characters, are warnings. *)
Theorem validateTags_accepts tags :
  tv_errors (validateTags tags) = [] <-> Forall tagAccepted tags.
Proof. unfold validateTags. exact (fold_validateTag_errors tags _). Qed.

End Tags.

(** * The answer of the model: the structured path and the line scanner *)

Section StructuredPath.

Variable JSON_parse : str -> option Json.

Implicit Types (options : GenerationOptions) (content : str).

Lemma validateCardType_recognised type : isCardType (validateCardType type) = true.
Proof. unfold validateCardType. by destruct (isCardType type) eqn:E. Qed.

Lemma cardOfJson_wellFormed options json card :
  cardOfJson options json = Ok card -> wellFormed options card.
Proof.
  unfold cardOfJson.
  destruct (getProp "front" json) as [[| | |front| |]|]; try done.
  destruct (getProp "back" json) as [[| | |back| |]|]; try done.
  destruct (getProp "type" json) as [[| | |type| |]|]; try done.
  destruct (jsonTags (getProp "tags" json)) as [cardTags|]; [|done].
  intros [= <-]. unfold wellFormed. cbn [card_type card_front card_back card_tags].
  split; [apply validateCardType_recognised|].
  split; [apply trim_tight|]. split; [apply trim_tight|]. by eexists.
Qed.

Lemma cardsOfJson_wellFormed options items cards :
  cardsOfJson options items = Ok cards ->
  length cards = length items /\ Forall (wellFormed options) cards.
Proof.
  revert cards. induction items as [|json items IH]; intros cards.
  - by intros [= <-].
  - cbn [cardsOfJson].
    destruct (cardOfJson options json) as [card|] eqn:Ecard; [|done].
    destruct (cardsOfJson options items) as [rest|]; [|done].
    intros [= <-]. destruct (IH rest eq_refl) as [Hlen Hall]. split; [simpl; lia|].
    constructor; [by eapply cardOfJson_wellFormed | done].
Qed.

Lemma jsonStrings_texts items texts : jsonStrings items = Ok texts -> items = map JStr texts.
Proof.
  revert texts. induction items as [|item items IH]; intros texts.
  - by intros [= <-].
  - cbn [jsonStrings]. destruct item as [| | |s| |]; try done.
    destruct (jsonStrings items) as [l|]; [|done].
    intros [= <-]. cbn [map]. by rewrite (IH l).
Qed.

Lemma jsonTags_entryTags entry tags :
  jsonTags (getProp "tags" entry) = Ok tags -> entryTags entry tags.
Proof.
  unfold entryTags, jsonTags.
  destruct (getProp "tags" entry) as [[|b|z|s|items|fields]|]; cbn [jsTruthy];
    try (by intros [= <-]).
  - destruct b; [done|]. by intros [= <-].
  - destruct (negb (z =? 0)%Z); [done|]. by intros [= <-].
  - destruct (Js.truthy s); [done|]. by intros [= <-].
  - destruct (jsonStrings items) as [l|] eqn:E; [|done].
    intros [= <-]. exists l. split; [by apply jsonStrings_texts | done].
Qed.

Lemma cardOfJson_entry options entry card :
  cardOfJson options entry = Ok card -> cardOfEntry options entry card.
Proof.
  unfold cardOfJson, cardOfEntry.
  destruct (getProp "front" entry) as [[| | |front| |]|]; try done.
  destruct (getProp "back" entry) as [[| | |back| |]|]; try done.
  destruct (getProp "type" entry) as [[| | |type| |]|]; try done.
  destruct (jsonTags (getProp "tags" entry)) as [cardTags|] eqn:Etags; [|done].
  intros [= <-]. exists front, back, type, cardTags.
  repeat (split; [done|]). split; [by apply jsonTags_entryTags | done].
Qed.

Lemma cardsOfJson_entries options items cards :
  cardsOfJson options items = Ok cards -> Forall2 (cardOfEntry options) items cards.
Proof.
  revert cards. induction items as [|entry items IH]; intros cards.
  - intros [= <-]. constructor.
  - cbn [cardsOfJson].
    destruct (cardOfJson options entry) as [card|] eqn:Ecard; [|done].
    destruct (cardsOfJson options items) as [rest|]; [|done].
    intros [= <-]. constructor; [by apply cardOfJson_entry | by apply IH].
Qed.

(** X23: when the [try] block of [parseFlashcardResponse] returns, there
    is one card for each entry of the array [cards] of the parsed JSON, in
    the order of the entries, and the card of an entry has as front and
    back the trimmed texts [front] and [back] of the entry, as type the
    text [type] of the entry when it belongs to the enum and [oneway]
    otherwise, and as tags those of the entry merged with those of the
    options.  So every card has a type of the enum and a front and a back
    without white space at either end. *)
Theorem parseStructured_wellFormed content options cards :
  parseStructured JSON_parse content options = Ok cards ->
  (exists text parsed items,
     jsonMatch content = Some text
     /\ JSON_parse text = Some parsed
     /\ getProp "cards" parsed = Some (JArr items)
     /\ length cards = length items
     /\ Forall2 (cardOfEntry options) items cards)
  /\ Forall (wellFormed options) cards.
Proof.
  unfold parseStructured.
  destruct (jsonMatch content) as [text|]; [|done].
  destruct (JSON_parse text) as [parsed|] eqn:Eparse; [|done].
  destruct (negb (validateFlashcardResponse parsed)); [done|].
  destruct (getProp "cards" parsed) as [[| | | |items|]|] eqn:Ecards; try done.
  intros Hcards. destruct (cardsOfJson_wellFormed _ _ _ Hcards) as [Hlen Hall].
  split; [|done]. exists text, parsed, items.
  repeat (split; [done|]). by apply cardsOfJson_entries.
Qed.

End StructuredPath.

Lemma parseStructured_wellFormed_witness :
  (exists text parsed items,
     jsonMatch "{}" = Some text
     /\ constantParser (JObj [("cards" : str, JArr [oddCard])]) text = Some parsed
     /\ getProp "cards" parsed = Some (JArr items)
     /\ length [ {| card_front := "Q" : str; card_back := "A" : str;
                    card_type := CardType_value OneWay;
                    card_tags := Some ["#flashcards" : str] |} ] = length items
     /\ Forall2 (cardOfEntry defaultOptions) items
          [ {| card_front := "Q"; card_back := "A"; card_type := CardType_value OneWay;
               card_tags := Some ["#flashcards" : str] |} ])
  /\ Forall (wellFormed defaultOptions)
       [ {| card_front := "Q"; card_back := "A"; card_type := CardType_value OneWay;
            card_tags := Some ["#flashcards" : str] |} ].
Proof.
  apply (parseStructured_wellFormed
           (constantParser (JObj [("cards" : str, JArr [oddCard])])) "{}" defaultOptions).
  reflexivity.
Defined.

Section PlainText.

Implicit Types (options : GenerationOptions) (st : ScanState) (line : str).

Lemma scanLine_count options st line :
  (length (cards (scanLine options st line)) + pendingFront (scanLine options st line)
   <= length (cards st) + pendingFront st
      + if labelled "q:" "question:" line then 1 else 0)%nat.
Proof.
  unfold scanLine, pendingFront. fold (labelled "q:" "question:" line).
  destruct (labelled "q:" "question:" line).
  - cbn [cards currentCard pc_front].
    match goal with
    | |- context [optTruthy (Some ?x)] => destruct (optTruthy (Some x))
    end;
      destruct (optTruthy (pc_front (currentCard st)));
      destruct (optTruthy (pc_back (currentCard st)));
      cbn [andb]; rewrite ?length_app; simpl; lia.
  - destruct (_ || _); [cbn [cards currentCard pc_front]; lia|].
    destruct (_ && _); cbn [cards currentCard pc_front]; lia.
Qed.

Lemma fold_scanLine_count options lines st :
  (length (cards (fold_left (scanLine options) lines st))
   + pendingFront (fold_left (scanLine options) lines st)
   <= length (cards st) + pendingFront st + length (questionLines lines))%nat.
Proof.
  revert st. induction lines as [|line lines IH]; intros st; [simpl; lia|].
  cbn [fold_left]. etransitivity; [apply IH|].
  pose proof (scanLine_count options st line) as H.
  unfold questionLines in *. cbn [List.filter].
  destruct (labelled "q:" "question:" line); simpl; lia.
Qed.

(** X24: the line scanner returns at most one card for each line that
    opens a question, so none for a text without such a line, and every
    card it returns has a front and a back that are not empty. *)
Theorem parseAsPlainText_bounded content options :
  (length (resp_cards (parseAsPlainText content options))
   <= length (questionLines (nonBlankLines content)))%nat
  /\ Forall (fun card => card_front card <> [] /\ card_back card <> [])
       (resp_cards (parseAsPlainText content options)).
Proof.
  unfold parseAsPlainText, finishScan. cbn [resp_cards].
  set (st0 := {| cards := []; currentCard := emptyCard |}).
  pose proof (fold_scanLine_count options (nonBlankLines content) st0) as Hcount.
  pose proof (fold_scanLine_invariant options (nonBlankLines content) st0) as Hinv.
  destruct Hinv as [Htype Hcards]; [by split|].
  set (st := fold_left (scanLine options) (nonBlankLines content) st0) in *.
  unfold pendingFront in Hcount. change (length (cards st0)) with 0%nat in Hcount.
  change (optTruthy (pc_front (currentCard st0))) with false in Hcount.
  assert (forall card, card_type card = firstCardType options
                       /\ Js.truthy (card_front card) = true
                       /\ Js.truthy (card_back card) = true ->
                       card_front card <> [] /\ card_back card <> []) as Himpl.
  { intros card (_ & Hf & Hb). by destruct (card_front card), (card_back card). }
  destruct (optTruthy (pc_front (currentCard st))) eqn:Hf; cbn [andb].
  - destruct (optTruthy (pc_back (currentCard st))) eqn:Hb.
    + split; [rewrite length_app; simpl; lia|].
      apply Forall_app. split; [by eapply Forall_impl|].
      constructor; [|done]. apply Himpl.
      apply completeCard_sound; [done|]. unfold complete. by rewrite Hf, Hb.
    + split; [lia | by eapply Forall_impl].
  - split; [lia | by eapply Forall_impl].
Qed.

End PlainText.

Section ScannedCards.

Implicit Types (options : GenerationOptions) (st : ScanState) (line : str)
  (card : RawFlashcard).

Lemma tight_nil : tight [].
Proof. by split. Qed.

Lemma completeCard_tight options pending :
  (forall f, pc_front pending = Some f -> tight f) ->
  (forall b, pc_back pending = Some b -> tight b) ->
  pc_tags pending = None ->
  tight (card_front (completeCard pending options))
  /\ tight (card_back (completeCard pending options))
  /\ card_tags (completeCard pending options) = Some (mergeTags None (opt_tags options)).
Proof.
  intros Hf Hb Ht. unfold completeCard. cbn [card_front card_back card_tags]. rewrite Ht.
  split; [|split; [|done]].
  - destruct (pc_front pending) as [f|]; [|apply tight_nil]. cbn [optTruthy default].
    destruct (Js.truthy f); [by apply Hf | apply tight_nil].
  - destruct (pc_back pending) as [b|]; [|apply tight_nil]. cbn [optTruthy default].
    destruct (Js.truthy b); [by apply Hb | apply tight_nil].
Qed.

Lemma scanLine_tight options st line :
  scanTight options st -> scanTight options (scanLine options st line).
Proof.
  intros (Hf & Hb & Ht & Hcards). unfold scanLine.
  destruct (_ || _).
  { split; [|split; [|split]]; cbn [currentCard cards pc_front pc_back pc_tags].
    - intros f [= <-]. apply trim_tight.
    - done.
    - done.
    - destruct (_ && _); [|done]. apply Forall_app. split; [done|].
      constructor; [|done]. by apply completeCard_tight. }
  destruct (_ || _).
  { split; [|split; [|split]]; cbn [currentCard cards pc_front pc_back pc_tags]; try done.
    intros b [= <-]. apply trim_tight. }
  destruct (_ && _); [|done].
  split; [|split; [|split]]; cbn [currentCard cards pc_front pc_back pc_tags]; try done.
  intros b [= <-]. apply trim_tight.
Qed.

Lemma fold_scanLine_tight options lines st :
  scanTight options st -> scanTight options (fold_left (scanLine options) lines st).
Proof.
  revert st. induction lines as [|line lines IH]; intros st H; [done|].
  by apply IH, scanLine_tight.
Qed.

Lemma tight_not_blank (s : str) : tight s -> Js.truthy s = true -> ~ blank s.
Proof.
  intros [Hhead _] Ht Hb. destruct s as [|c r]; [done|].
  unfold blank in Hb. inversion Hb as [|? ? Hc _]; subst.
  by rewrite (Hhead c r) in Hc.
Qed.

Lemma validateCards_keeps options i cards validated errors :
  Forall (fun card => vr_isValid (validateRawFlashcard card) = true
                      /\ In (card_type card) (opt_cardTypes options)) cards ->
  fst (validateCards options i cards validated errors) = validated ++ cards.
Proof.
  revert i validated errors. induction cards as [|card rest IH]; intros i validated errors Hall.
  - simpl. by rewrite app_nil_r.
  - inversion Hall as [|? ? [Hvalid Hin] Hrest]; subst.
    cbn [validateCards]. rewrite Hvalid.
    assert (existsb (str_eqb (card_type card)) (opt_cardTypes options) = true) as ->.
    { apply existsb_exists. exists (card_type card). split; [done|]. by apply str_eqb_eq. }
    rewrite IH by done. by rewrite <- app_assoc.
Qed.

Lemma isCardType_truthy (t : str) : isCardType t = true -> Js.truthy t = true.
Proof.
  intros [x Hx]%isCardType_of_value. apply CardType_of_value_inv in Hx as <-. by destruct x.
Qed.

Lemma parseAsPlainText_cards content options card :
  In card (resp_cards (parseAsPlainText content options)) ->
  card_type card = firstCardType options
  /\ Js.truthy (card_front card) = true /\ Js.truthy (card_back card) = true
  /\ tight (card_front card) /\ tight (card_back card)
  /\ card_tags card = Some (mergeTags None (opt_tags options)).
Proof.
  unfold parseAsPlainText, finishScan. cbn [resp_cards].
  set (st0 := {| cards := []; currentCard := emptyCard |}).
  pose proof (fold_scanLine_invariant options (nonBlankLines content) st0) as Hinv.
  pose proof (fold_scanLine_tight options (nonBlankLines content) st0) as Htight.
  destruct Hinv as [Htype Hcards]; [by split|].
  destruct Htight as (Hf & Hb & Ht & Htcards); [by repeat split|].
  set (st := fold_left (scanLine options) (nonBlankLines content) st0) in *.
  rewrite List.Forall_forall in Hcards, Htcards.
  assert (In card (cards st) ->
          card_type card = firstCardType options
          /\ Js.truthy (card_front card) = true /\ Js.truthy (card_back card) = true
          /\ tight (card_front card) /\ tight (card_back card)
          /\ card_tags card = Some (mergeTags None (opt_tags options))) as Hold.
  { intros Hin. destruct (Hcards card Hin) as (? & ? & ?).
    destruct (Htcards card Hin) as (? & ? & ?). done. }
  fold (complete (currentCard st)). destruct (complete (currentCard st)) eqn:Ec; [|done].
  intros [Hin|[<-|[]]]%in_app_iff; [by apply Hold|].
  destruct (completeCard_sound options (currentCard st) Htype Ec) as (? & ? & ?).
  destruct (completeCard_tight options (currentCard st) Hf Hb Ht) as (? & ? & ?). done.
Qed.

(** X30: the cards of the line scanner and the generator.  When the
    first allowed card type is a type of the enum other than Cloze and no
    tag of the options holds a space, every card [parseAsPlainText]
    returns passes [validateRawFlashcard] and has that first type, so
    that [processLLMResponse] keeps all of them, in their order. *)
Theorem parseAsPlainText_cards_survive content options t ts :
  opt_cardTypes options = t :: ts ->
  isCardType t = true ->
  str_eqb t (CardType_value Cloze) = false ->
  forallb (fun tag => negb (Js.includes tag " ")) (default [] (opt_tags options)) = true ->
  Forall (fun card => vr_isValid (validateRawFlashcard card) = true /\ card_type card = t)
    (resp_cards (parseAsPlainText content options))
  /\ survivors options (resp_cards (parseAsPlainText content options))
     = resp_cards (parseAsPlainText content options).
Proof.
  intros Htypes Ht Hcloze Htags.
  assert (firstCardType options = t) as Hfirst.
  { unfold firstCardType. rewrite Htypes. by rewrite (isCardType_truthy t Ht). }
  assert (Forall (fun card => vr_isValid (validateRawFlashcard card) = true
                              /\ card_type card = t)
            (resp_cards (parseAsPlainText content options))) as Hall.
  { apply List.Forall_forall. intros card Hin.
    destruct (parseAsPlainText_cards content options card Hin)
      as (Hty & Hf & Hb & Htf & Htb & Htg).
    split; [|by rewrite Hty].
    apply validateRawFlashcard_valid. rewrite Hty, Hfirst.
    split; [by apply tight_not_blank|]. split; [by apply tight_not_blank|].
    split; [done|]. split.
    { intros ->. by rewrite (proj2 (str_eqb_eq _ _) eq_refl) in Hcloze. }
    intros tags tag Hsome Hin'. rewrite Htg in Hsome. injection Hsome as <-.
    apply mergeTags_In in Hin' as (src & Hsrc & Hne & ->). split.
    - by apply normalizedTag_single_hash.
    - unfold normalizedTag. intros [?|Hsp]; [done|].
      change (In " "%char (stripHashes src)) in Hsp.
      apply (proj1 (stripHashes_In src " " ltac:(done))) in Hsp.
      unfold sourceTags in Hsrc. cbn [default app] in Hsrc.
      rewrite forallb_forall in Htags. apply Htags in Hsrc.
      apply negb_true_iff in Hsrc. apply (includes_char src " "%char) in Hsp.
      change (Js.includes src [" "%char] = false) in Hsrc. congruence. }
  split; [done|].
  unfold survivors. rewrite validateCards_keeps; [done|].
  eapply Forall_impl; [exact Hall|]. intros card [Hv Hty]. split; [done|].
  rewrite Hty, Htypes. by left.
Qed.

Lemma parseAsPlainText_cards_survive_witness :
  Forall (fun card => vr_isValid (validateRawFlashcard card) = true
                      /\ card_type card = CardType_value OneWay)
    (resp_cards (parseAsPlainText questionAnswer defaultOptions))
  /\ survivors defaultOptions (resp_cards (parseAsPlainText questionAnswer defaultOptions))
     = resp_cards (parseAsPlainText questionAnswer defaultOptions).
Proof.
  apply (parseAsPlainText_cards_survive questionAnswer defaultOptions
           (CardType_value OneWay) [CardType_value Bidirectional]); reflexivity.
Defined.

End ScannedCards.

(** * Providers: configuration, errors and headers *)

Section Providers.

Implicit Types (config given : ProviderConfig) (key : string).

Lemma asProviderConfig_getConfig config :
  asProviderConfig (getConfig config)
  = {| apiKey := None; endpoint := endpoint config; model := model config;
       customHeaders := customHeaders config |}.
Proof.
  unfold asProviderConfig, getConfig. f_equal.
  - rewrite lookup_insert_eq. by destruct (endpoint config).
  - rewrite lookup_insert_ne by done. rewrite lookup_insert_eq. by destruct (model config).
  - rewrite !lookup_insert_ne by done. rewrite lookup_insert_eq.
    by destruct (customHeaders config).
Qed.

(** X25: the configuration a provider gives out never passes its own
    [validateConfig], since [getConfig] leaves the API key out and
    [validateConfig] requires one.  So [validateProvider], which passes
    the one to the other, answers for the Anthropic provider, whatever
    its configuration, that the configuration is invalid, and does not
    call [authenticate]. *)
Theorem validateProvider_anthropic config given authenticate :
  validateConfig (asProviderConfig (getConfig config)) = false
  /\ Anthropic.validateConfig (asProviderConfig (getConfig config)) = (false, [])
  /\ validateProvider (anthropicProvider given authenticate)
     = ({| pv_isValid := false;
           pv_error :=
             Some ("Provider configuration is invalid. Please check your settings." : str) |},
        []).
Proof.
  unfold validateProvider, anthropicProvider.
  cbn [provider_getConfig provider_validateConfig provider_authenticate].
  by rewrite !asProviderConfig_getConfig.
Qed.

Lemma rethrow_thrownLLMError error :
  llm_message error <> [] ->
  Anthropic.rethrow (thrownLLMError error)
  = thrownLLMError
      {| llm_type := "unknown";
         llm_message := "Error in generateFlashcards: " ++ llm_message error;
         llm_details := thrownLLMError error |}.
Proof.
  destruct error as [type message details]. cbn [llm_message]. intros Hne.
  destruct message as [|c message]; [done|].
  unfold Anthropic.rethrow, thrownLLMError, handleHttpError.
  cbn [ev_instanceOfError andb ev_status ev_name ev_code ev_message optTruthy default
       llm_type llm_message Js.truthy].
  by rewrite !bool_decide_eq_false_2 by done.
Qed.

Lemma handleError_unknown message :
  handleError {| err_type := Some ("unknown" : str); err_message := Some message |}
  = "LLM Error: " ++ message.
Proof. done. Qed.

(** X26: a response of the Anthropic service that is not [ok] never
    reaches the generator as an authentication or network error: the
    [LLMError] that [handleHttpError] makes of the status is thrown
    inside the [try] block, and the [catch] block, for which it is not an
    [Error], hands it to [handleHttpError] again, which finds no status
    in it.  The promise is rejected with an error of type [unknown], and
    the generator reports "LLM Error: Error in generateFlashcards: "
    followed by the message of the first classification. *)
Theorem notOk_reported_as_unknown status :
  ev_type (Anthropic.rethrow (Anthropic.notOkError status)) = Some ("unknown" : str)
  /\ handleError (asJsError (Anthropic.rethrow (Anthropic.notOkError status)))
     = "LLM Error: Error in generateFlashcards: "
       ++ (if (status =? 401)%Z || (status =? 403)%Z
           then "Authentication failed for Anthropic. Please check your API key."
           else if (status >=? 500)%Z
                then "Server error from Anthropic. Please try again later."
                else "Error in generateFlashcards: Unknown error").
Proof.
  unfold Anthropic.notOkError.
  set (first := handleHttpError Anthropic.name _ "generateFlashcards").
  assert (llm_message first
          = if (status =? 401)%Z || (status =? 403)%Z
            then "Authentication failed for Anthropic. Please check your API key."
            else if (status >=? 500)%Z
                 then "Server error from Anthropic. Please try again later."
                 else "Error in generateFlashcards: Unknown error") as Hmsg.
  { unfold first, handleHttpError. cbn [ev_status ev_name ev_code ev_message].
    destruct (Z.eqb_spec status 401) as [->|H1]; [done|].
    destruct (Z.eqb_spec status 403) as [->|H3]; [done|].
    rewrite !bool_decide_eq_false_2 by congruence. cbn [orb].
    by destruct (status >=? 500)%Z. }
  rewrite rethrow_thrownLLMError.
  - split; [done|]. unfold asJsError, thrownLLMError.
    cbn [ev_type ev_message llm_type llm_message].
    rewrite handleError_unknown, Hmsg. done.
  - rewrite Hmsg. by destruct (_ || _), (status >=? 500)%Z.
Qed.

(** X27: the headers of the request to Anthropic, for every name other
    than [__proto__]: [anthropic-version] and [x-api-key] (the empty text
    without a key) are those of the provider whatever the custom headers;
    any other header is the custom one of that name when there is one, so
    that a custom header replaces [User-Agent] or [Content-Type], and the
    standard one otherwise.  The request has no header named [__proto__],
    even when the custom headers have a property of that name. *)
Theorem requestHeaders_lookup config key :
  key <> "__proto__" ->
  Anthropic.requestHeaders config !! key =
  (if bool_decide (key = "anthropic-version") then Some ("2023-06-01" : str)
   else if bool_decide (key = "x-api-key") then Some (sentApiKey config)
   else
     match customHeaders config ≫= (.!! key) with
     | Some value => Some value
     | None =>
         if bool_decide (key = "User-Agent")
         then Some ("Obsidian-LLM-Flashcard-Generator/1.0.0" : str)
         else if bool_decide (key = "Content-Type") then Some ("application/json" : str)
         else None
     end)
  /\ Anthropic.requestHeaders config !! "__proto__" = None.
Proof.
  intros Hkey. split.
  2:{ unfold Anthropic.requestHeaders, buildHeaders.
      rewrite lookup_insert_ne by done. rewrite lookup_insert_ne by done.
      destruct (customHeaders config) as [custom|]; [|done].
      rewrite lookup_union, lookup_delete_eq. done. }
  unfold Anthropic.requestHeaders, buildHeaders, sentApiKey.
  rewrite lookup_insert. case_bool_decide as H1; [by subst|].
  destruct (decide _) as [?|_]; [congruence|].
  rewrite lookup_insert. case_bool_decide as H2.
  { subst. by destruct (decide _). }
  destruct (decide _) as [?|_]; [congruence|].
  assert ((<["User-Agent" := ("Obsidian-LLM-Flashcard-Generator/1.0.0" : str)]>
             (<["Content-Type" := ("application/json" : str)]> (∅ : gmap string str))) !! key
          = if bool_decide (key = "User-Agent")
            then Some ("Obsidian-LLM-Flashcard-Generator/1.0.0" : str)
            else if bool_decide (key = "Content-Type") then Some ("application/json" : str)
                 else None) as Hstd.
  { rewrite lookup_insert. case_bool_decide as H3.
    - subst. by destruct (decide _).
    - destruct (decide _) as [?|_]; [congruence|].
      rewrite lookup_insert. case_bool_decide as H4.
      + subst. by destruct (decide _).
      + destruct (decide _) as [?|_]; [congruence|]. done. }
  destruct (customHeaders config) as [custom|]; cbn [mbind option_bind].
  - rewrite lookup_union, lookup_delete_ne by done. rewrite Hstd.
    destruct (custom !! key); repeat case_bool_decide; done.
  - exact Hstd.
Qed.

Lemma requestHeaders_lookup_witness :
  Anthropic.requestHeaders protoConfig !! "Content-Type" = Some ("text/plain" : str)
  /\ Anthropic.requestHeaders protoConfig !! "__proto__" = None.
Proof.
  apply (requestHeaders_lookup protoConfig "Content-Type"). done.
Defined.

End Providers.

(** * The registry of templates *)

Section Registry.

Implicit Types (templates : gmap str PromptTemplate) (template : PromptTemplate)
  (id : str) (context : TemplateContext).

(** X28: [renderTemplate] throws "Template 'id' not found" exactly for
    the ids [getTemplate] does not find.  A template that has just been
    added is the one rendered under its id, whatever was registered
    under that id before; an id that has just been removed is not found;
    and removing it leaves the rendering of the other ids as it was. *)
Theorem renderTemplate_registered templates id context :
  (getTemplate templates id = None <->
   renderTemplate templates id context = Throw ("Template '" ++ id ++ "' not found"))
  /\ (forall template,
        renderTemplate (addTemplate template templates) (tpl_id template) context
        = renderTemplate {[ tpl_id template := template ]} (tpl_id template) context
        /\ exists prompt,
             renderTemplate (addTemplate template templates) (tpl_id template) context
             = Ok prompt)
  /\ renderTemplate (snd (removeTemplate templates id)) id context
     = Throw ("Template '" ++ id ++ "' not found")
  /\ (forall other,
        other <> id ->
        renderTemplate (snd (removeTemplate templates id)) other context
        = renderTemplate templates other context).
Proof.
  unfold getTemplate, addTemplate, removeTemplate, renderTemplate. cbn [snd].
  split; [|split; [|split]].
  - destruct (templates !! id); by split.
  - intros template. rewrite lookup_insert_eq, lookup_singleton_eq. split; [done|by eexists].
  - by rewrite lookup_delete_eq.
  - intros other Hne. by rewrite lookup_delete_ne.
Qed.

(** X29: a template in which no opening brace occurs is rendered as
    itself, trimmed, for every context: nothing of the context enters a
    prompt but through a placeholder. *)
Theorem renderTemplate_without_placeholder templates id template context :
  getTemplate templates id = Some template ->
  ~ In "{"%char (tpl_template template) ->
  renderTemplate templates id context = Ok (Js.trim (tpl_template template)).
Proof.
  unfold getTemplate, renderTemplate. intros -> Hbrace. cbv zeta.
  cbn [list_ascii_of_string].
  destruct (ctx_tags context) as [[|tag tags]|]; destruct (ctx_metadata context);
    by repeat (rewrite (replaceAll_absent "{" _ _ (tpl_template template)) by done).
Qed.

Lemma renderTemplate_without_placeholder_witness :
  renderTemplate {[ ("fixed" : str) := fixedTemplate ]} "fixed" injectedContext
  = Ok (Js.trim (tpl_template fixedTemplate)).
Proof.
  apply (renderTemplate_without_placeholder {[ ("fixed" : str) := fixedTemplate ]} "fixed"
           fixedTemplate injectedContext).
  - reflexivity.
  - vm_compute. intuition discriminate.
Defined.

End Registry.

(** * The expectations of the repository's test suite *)

Section Replay.

Example format_oneway :
  formatCard {| card_front := "What is photosynthesis?";
                card_back := "The process by which plants convert light into energy";
                card_type := "oneway"; card_tags := Some ["#biology" : str] |}
  = Ok {| fmt_content := "What is photosynthesis?::The process by which plants convert light into energy";
          fmt_tags := ["#biology" : str] |}.
Proof. reflexivity. Qed.

Example format_multiline :
  formatCard {| card_front := "What are the steps of photosynthesis?";
                card_back := "1. Light absorption" ++ [Js.LF] ++ "2. Water splitting"
                             ++ [Js.LF] ++ "3. CO2 fixation";
                card_type := "multiline"; card_tags := None |}
  = Ok {| fmt_content := "What are the steps of photosynthesis??" ++ [Js.LF]
                         ++ "1. Light absorption 2. Water splitting 3. CO2 fixation";
          fmt_tags := [] |}.
Proof. reflexivity. Qed.

Example format_whitespace :
  formatCard {| card_front := "  What is   photosynthesis?  ";
                card_back := "  The process by which plants convert light into energy  ";
                card_type := "oneway"; card_tags := None |}
  = Ok {| fmt_content := "What is photosynthesis?::The process by which plants convert light into energy";
          fmt_tags := [] |}.
Proof. reflexivity. Qed.

Example format_unsupported :
  formatCard {| card_front := "Question"; card_back := "Answer";
                card_type := "unsupported"; card_tags := None |}
  = Throw "Unsupported card type: unsupported".
Proof. reflexivity. Qed.

Example format_two_cards :
  formatCards [ {| card_front := "Question 1"; card_back := "Answer 1";
                   card_type := "oneway"; card_tags := Some ["#test" : str] |};
                {| card_front := "Question 2"; card_back := "Answer 2";
                   card_type := "bidirectional"; card_tags := Some ["#test" : str] |} ] []
  = Ok ("Question 1::Answer 1" ++ [Js.LF; Js.LF] ++ "Question 2:::Answer 2").
Proof. reflexivity. Qed.

Example format_no_card : formatCards [] [] = Ok [].
Proof. reflexivity. Qed.

Example detect_examples :
  detectCardType "Question::Answer" = Some OneWay
  /\ detectCardType "Term:::Definition" = Some Bidirectional
  /\ detectCardType ("Question?" ++ [Js.LF] ++ "Answer") = Some MultiLine
  /\ detectCardType ("Term???" ++ [Js.LF] ++ "Definition") = Some MultiLineBidirectional
  /\ detectCardType "This is a ==cloze== deletion" = Some Cloze
  /\ detectCardType "Term???Definition:::Also" = Some MultiLineBidirectional
  /\ detectCardType "Term:::Definition::Also" = Some Bidirectional
  /\ detectCardType "Just plain text without any markers" = None
  /\ detectCardType "This has == but not proper == format" = Some Cloze.
Proof. repeat split. Qed.

Example validate_cloze_examples :
  vr_isValid (validateRawFlashcard
                {| card_front := "Plants use ==photosynthesis== to grow"; card_back := "photosynthesis";
                   card_type := "cloze"; card_tags := None |}) = true
  /\ vr_errors (validateRawFlashcard
                  {| card_front := "Plants use photosynthesis"; card_back := "photosynthesis";
                     card_type := "cloze"; card_tags := None |})
     = ["Cloze cards must contain text wrapped in == markers" : str]
  /\ vr_isValid (validateRawFlashcard
                   {| card_front := "==== "; card_back := "x";
                      card_type := "cloze"; card_tags := None |}) = false.
Proof. repeat split. Qed.

Example convert_to_cloze :
  fst (generateFlashcards
         (fun _ _ => Resolved {| resp_cards := [ {| card_front := "This is ==cloze== text";
                                                    card_back := "cloze"; card_type := "oneway";
                                                    card_tags := None |} ];
                                 resp_metadata := None |})
         "Valid content here" (clozeOnly None None) [])
  = {| res_success := true;
       res_formattedCards := Some ("This is ==cloze== text" : str);
       res_rawCards := Some [ {| card_front := "This is ==cloze== text"; card_back := "cloze";
                                 card_type := "cloze"; card_tags := None |} ];
       res_error := None;
       res_metadata := Some {| rm_tokensUsed := None; rm_model := None; rm_cardsGenerated := 1 |} |}.
Proof. reflexivity. Qed.

Example numbers_to_string :
  Js.numToString 0 = "0" /\ Js.numToString 250 = "250" /\ Js.numToString (-5) = "-5"
  /\ Js.natToString 12 = "12".
Proof. repeat split. Qed.

Example split_examples :
  Js.splitWs "a  b" = ["a" : str; "b" : str]
  /\ Js.splitWs " a" = [[]; "a" : str]
  /\ Js.splitWs [] = [[]]
  /\ Js.splitChar Js.LF ("a" ++ [Js.LF] ++ [Js.LF] ++ "b") = ["a" : str; []; "b" : str].
Proof. repeat split. Qed.

Example replace_dollar_patterns :
  Js.replaceAll "{content}" "a $& b $$ c" "x {content} y" = "x a {content} b $ c y".
Proof. reflexivity. Qed.

Example blank_lines_regexp :
  replace_blank_lines ("a" ++ [Js.LF; Js.SP; Js.LF; Js.SP] ++ "b") = "a" ++ [Js.LF; Js.SP] ++ "b"
  /\ replace_blank_lines ("a" ++ [Js.LF; Js.LF; Js.LF] ++ "b") = "a" ++ [Js.LF] ++ "b"
  /\ replace_blank_lines ("a" ++ [Js.LF; Js.SP] ++ "b") = "a" ++ [Js.LF; Js.SP] ++ "b".
Proof. repeat split. Qed.

End Replay.
